(** * Contract-Intelligence-Parser: the extraction-and-scoring pipeline

    A shallow embedding of [backend/app/services/contract_parser.py]
    (class [ContractParser]) and the properties of its normaliser,
    extractors, confidence scorer and gap analyser.

    Conventions of the embedding:
    - a Python [str] is a [string]; the pattern engine works on its
      [list ascii] view, one character per code point below 256;
    - a Python [dict] with string keys is a [gmap string pyval];
    - [list(set(xs))] is [elements (list_to_set xs)]: an order that the
      program does not control, in the source as in the model;
    - a Python [float] produced by [float(s)] on a decimal literal is the
      rational number the literal denotes, in lowest terms;
    - code that can raise returns a [res]. *)

From Stdlib Require Import ZArith QArith Ascii String List Lia.
From stdpp Require Import gmap strings list fin_maps.

Set Warnings "-register-all".
Local Open Scope string_scope.
Local Open Scope list_scope.

(** ** Python values *)

Inductive pyval : Type :=
| PNone
| PBool (b : bool)
| PInt (z : Z)
| PFloat (q : Q)
| PStr (s : string)
| PList (l : list pyval)
| PDict (d : gmap string pyval).

(** Truth value testing, as [if x:] does it. *)
Definition truthy (v : pyval) : bool :=
  match v with
  | PNone => false
  | PBool b => b
  | PInt z => negb (z =? 0)%Z
  | PFloat q => negb (Qeq_bool q 0)
  | PStr s => negb (String.eqb s "")
  | PList l => match l with [] => false | _ => true end
  | PDict d => negb (bool_decide (d = ∅))
  end.

(** Exceptions the modelled code can meet. *)
Inductive exn : Type :=
| TypeError
| AttributeError.

Inductive res (A : Type) : Type :=
| Ok (a : A)
| Raise (e : exn).
Arguments Ok {A} a.
Arguments Raise {A} e.

#[global] Instance res_ret : MRet res := fun A a => Ok a.
#[global] Instance res_bind : MBind res := fun A B f m =>
  match m with
  | Ok a => f a
  | Raise e => Raise e
  end.

(** [obj.get(key, default)] on any object: a [dict] answers, [None] (and
    every other value of this model) has no attribute [get]. *)
Definition py_get (obj : pyval) (key : string) (dflt : pyval) : res pyval :=
  match obj with
  | PDict d => Ok (default dflt (d !! key))
  | _ => Raise AttributeError
  end.

(** ** Characters

    The character predicates of the Python runtime, on code points below
    256: [str.isspace] (also the [\s] of [re]), the decimal digits ([\d]),
    the word characters ([\w], which decides [\b]) and the simple case
    mappings that [re.IGNORECASE] and [str.lower] apply. *)

Definition code (c : ascii) : N := N_of_ascii c.

Definition in_range (lo hi : N) (c : ascii) : bool :=
  ((lo <=? code c) && (code c <=? hi))%N.

Definition isspace (c : ascii) : bool :=
  in_range 9 13 c || in_range 28 32 c
  || (code c =? 133)%N || (code c =? 160)%N.

Definition isdecimal (c : ascii) : bool := in_range 48 57 c.

Definition isalnum (c : ascii) : bool :=
  in_range 48 57 c || in_range 65 90 c || in_range 97 122 c
  || (code c =? 170)%N || in_range 178 179 c || (code c =? 181)%N
  || in_range 185 186 c || in_range 188 190 c
  || in_range 192 214 c || in_range 216 246 c || in_range 248 255 c.

Definition isword (c : ascii) : bool := isalnum c || (code c =? 95)%N.

Definition py_lower (c : ascii) : ascii :=
  if in_range 65 90 c || in_range 192 214 c || in_range 216 222 c
  then ascii_of_N (code c + 32) else c.

(** [str.upper] on the characters whose upper case is again below 256. *)
Definition py_upper (c : ascii) : ascii :=
  if in_range 97 122 c || in_range 224 246 c || in_range 248 254 c
  then ascii_of_N (code c - 32) else c.

Definition chars (s : string) : list ascii := list_ascii_of_string s.
Definition str (l : list ascii) : string := string_of_list_ascii l.

Definition str_lower (s : string) : string := str (map py_lower (chars s)).
Definition str_upper (s : string) : string := str (map py_upper (chars s)).

(** [needle in hay] for strings. *)
Fixpoint is_prefix (p s : list ascii) : bool :=
  match p, s with
  | [], _ => true
  | a :: p', b :: s' => Ascii.eqb a b && is_prefix p' s'
  | _ :: _, [] => false
  end.

Fixpoint contains (needle hay : list ascii) : bool :=
  is_prefix needle hay ||
  match hay with
  | [] => false
  | _ :: hay' => contains needle hay'
  end.

Definition str_in (needle hay : string) : bool :=
  contains (chars needle) (chars hay).

(** [str.strip()]: leading and trailing whitespace removed. *)
Fixpoint lstrip (s : list ascii) : list ascii :=
  match s with
  | c :: s' => if isspace c then lstrip s' else s
  | [] => []
  end.

Definition strip (s : list ascii) : list ascii :=
  rev (lstrip (rev (lstrip s))).

(** ** The pattern engine

    The fragment of Python's [re] that the parser's patterns use:
    literals, character sets, concatenation, ordered alternation, greedy
    repetition of a one-character item, greedy optional groups, capturing
    groups and [\b].  Matching is by backtracking; [mt] lists the ways a
    pattern can match at a position in the order in which the
    backtracking engine tries them, so the engine's answer is the head
    of the list. *)

Module Re.

Inductive item : Type :=
| IChar (c : ascii)
| IRange (lo hi : ascii)
| ISpace
| IDigit.

Inductive atom : Type :=
| ALit (c : ascii)
| ASet (neg : bool) (items : list item).

Inductive regex : Type :=
| REps
| RAtom (a : atom)
| RCat (r1 r2 : regex)
| RAlt (r1 r2 : regex)
| ROpt (r : regex)
| RRep (lo : nat) (hi : option nat) (a : atom)
| RGroup (n : nat) (r : regex)
| RWordB.

(** The characters [lo..hi] of a range. *)
Definition range_chars (lo hi : ascii) : list ascii :=
  map ascii_of_nat
      (seq (nat_of_ascii lo) (S (nat_of_ascii hi) - nat_of_ascii lo)).

(** With [re.IGNORECASE] (flag [ic]) the members of a set are lowered when
    the pattern is compiled and the subject character is lowered before
    the test. *)
Definition item_match (ic : bool) (i : item) (c : ascii) : bool :=
  match i with
  | IChar x => if ic then Ascii.eqb (py_lower x) (py_lower c)
               else Ascii.eqb x c
  | IRange lo hi =>
      if ic
      then existsb (fun x => Ascii.eqb (py_lower x) (py_lower c))
                   (range_chars lo hi)
      else (code lo <=? code c)%N && (code c <=? code hi)%N
  | ISpace => isspace c
  | IDigit => isdecimal c
  end.

Definition atom_match (ic : bool) (a : atom) (c : ascii) : bool :=
  match a with
  | ALit x => if ic then Ascii.eqb (py_lower x) (py_lower c)
              else Ascii.eqb x c
  | ASet neg items => xorb neg (existsb (fun i => item_match ic i c) items)
  end.

(** A position of the matcher: the offset, the character before it, the
    text from it on, and the spans of the groups closed so far (latest
    first). *)
Record mstate : Type := MState {
  m_pos : nat;
  m_prev : option ascii;
  m_rest : list ascii;
  m_caps : list (nat * (nat * nat))
}.

Definition word_at (o : option ascii) : bool :=
  match o with
  | Some c => isword c
  | None => false
  end.

Definition at_boundary (st : mstate) : bool :=
  xorb (word_at (m_prev st)) (word_at (head (m_rest st))).

Definition step_atom (ic : bool) (a : atom) (st : mstate) : list mstate :=
  match m_rest st with
  | c :: s' =>
      if atom_match ic a c
      then [MState (S (m_pos st)) (Some c) s' (m_caps st)]
      else []
  | [] => []
  end.

Definition more (hi : option nat) : bool :=
  match hi with
  | Some 0 => false
  | _ => true
  end.

(** Greedy repetition of a one-character item: the longest run first,
    then one character less, down to [lo]. *)
Fixpoint rep_atom (ic : bool) (a : atom) (lo : nat) (hi : option nat)
    (pos : nat) (prev : option ascii) (s : list ascii)
    (caps : list (nat * (nat * nat))) {struct s} : list mstate :=
  let stop := match lo with
              | 0 => [MState pos prev s caps]
              | S _ => []
              end in
  match s with
  | c :: s' =>
      if more hi && atom_match ic a c
      then rep_atom ic a (pred lo) (pred <$> hi) (S pos) (Some c) s' caps
           ++ stop
      else stop
  | [] => stop
  end.

Definition close_group (n start : nat) (st : mstate) : mstate :=
  MState (m_pos st) (m_prev st) (m_rest st)
         ((n, (start, m_pos st)) :: m_caps st).

Fixpoint mt (ic : bool) (r : regex) (st : mstate) : list mstate :=
  match r with
  | REps => [st]
  | RAtom a => step_atom ic a st
  | RCat r1 r2 => mt ic r1 st ≫= mt ic r2
  | RAlt r1 r2 => mt ic r1 st ++ mt ic r2 st
  | ROpt r1 => mt ic r1 st ++ [st]
  | RRep lo hi a =>
      rep_atom ic a lo hi (m_pos st) (m_prev st) (m_rest st) (m_caps st)
  | RGroup n r1 => close_group n (m_pos st) <$> mt ic r1 st
  | RWordB => if at_boundary st then [st] else []
  end.

(** A match object: where the match starts and the state at its end. *)
Record rmatch : Type := RMatch {
  m_start : nat;
  m_end : mstate
}.

Definition match_at (ic : bool) (r : regex) (pos : nat)
    (prev : option ascii) (s : list ascii) : option rmatch :=
  RMatch pos <$> head (mt ic r (MState pos prev s [])).

Definition mlen (m : rmatch) : nat := m_pos (m_end m) - m_start m.

(** [re.search]: the match at the leftmost position that has one. *)
Fixpoint search_from (ic : bool) (r : regex) (pos : nat)
    (prev : option ascii) (s : list ascii) : option rmatch :=
  match match_at ic r pos prev s with
  | Some m => Some m
  | None =>
      match s with
      | c :: s' => search_from ic r (S pos) (Some c) s'
      | [] => None
      end
  end.

(** [re.finditer]: the non-overlapping matches from left to right.  After
    a match of [n] characters the scan resumes [n] characters on ([skip]
    counts the characters still to pass over); after an empty match, one
    character on (every pattern of the parser needs at least one
    character). *)
Fixpoint scan (ic : bool) (r : regex) (skip pos : nat)
    (prev : option ascii) (s : list ascii) : list rmatch :=
  match skip with
  | S k =>
      match s with
      | c :: s' => scan ic r k (S pos) (Some c) s'
      | [] => []
      end
  | 0 =>
      match match_at ic r pos prev s with
      | Some m =>
          m :: match s with
               | c :: s' => scan ic r (pred (mlen m)) (S pos) (Some c) s'
               | [] => []
               end
      | None =>
          match s with
          | c :: s' => scan ic r 0 (S pos) (Some c) s'
          | [] => []
          end
      end
  end.

(** [re.sub(pattern, repl, text)] for a replacement without group
    references. *)
Fixpoint sub_scan (ic : bool) (r : regex) (repl : list ascii)
    (skip pos : nat) (prev : option ascii) (s : list ascii) : list ascii :=
  match skip with
  | S k =>
      match s with
      | c :: s' => sub_scan ic r repl k (S pos) (Some c) s'
      | [] => []
      end
  | 0 =>
      match match_at ic r pos prev s with
      | Some m =>
          repl ++
          match s with
          | c :: s' =>
              match mlen m with
              | 0 => c :: sub_scan ic r repl 0 (S pos) (Some c) s'
              | S k => sub_scan ic r repl k (S pos) (Some c) s'
              end
          | [] => []
          end
      | None =>
          match s with
          | c :: s' => c :: sub_scan ic r repl 0 (S pos) (Some c) s'
          | [] => []
          end
      end
  end.

Definition slice (b e : nat) (s : list ascii) : list ascii :=
  take (e - b) (drop b s).

(** [m.group(0)] and [m.group(n)] on the text the match was made in; a
    group that took no part in the match has no span. *)
Definition group0 (text : list ascii) (m : rmatch) : string :=
  str (slice (m_start m) (m_pos (m_end m)) text).

Fixpoint span_of (n : nat) (caps : list (nat * (nat * nat)))
    : option (nat * nat) :=
  match caps with
  | [] => None
  | (k, sp) :: caps' => if Nat.eqb k n then Some sp else span_of n caps'
  end.

Definition group (text : list ascii) (n : nat) (m : rmatch)
    : option string :=
  (fun sp => str (slice (fst sp) (snd sp) text))
    <$> span_of n (m_caps (m_end m)).

(** Number of capturing groups of a pattern. *)
Fixpoint ngroups (r : regex) : nat :=
  match r with
  | RCat r1 r2 | RAlt r1 r2 => ngroups r1 + ngroups r2
  | ROpt r1 => ngroups r1
  | RGroup _ r1 => S (ngroups r1)
  | _ => 0
  end.

(** A compiled pattern with its flags. *)
Record pattern : Type := Pattern {
  p_re : regex;
  p_ic : bool
}.

Definition search (p : pattern) (text : string) : option rmatch :=
  search_from (p_ic p) (p_re p) 0 None (chars text).

Definition finditer (p : pattern) (text : string) : list rmatch :=
  scan (p_ic p) (p_re p) 0 0 None (chars text).

(** [re.findall]: the whole match when the pattern has no group, the
    group when it has one, the tuple of its groups otherwise; a group
    that took no part reads as the empty string. *)
Inductive found : Type :=
| FStr (s : string)
| FTuple (l : list string).

Definition group_or_empty (text : list ascii) (n : nat) (m : rmatch)
    : string :=
  default "" (group text n m).

Definition findall (p : pattern) (text : string) : list found :=
  let t := chars text in
  match ngroups (p_re p) with
  | 0 => (fun m => FStr (group0 t m)) <$> finditer p text
  | 1 => (fun m => FStr (group_or_empty t 1 m)) <$> finditer p text
  | S (S k) =>
      (fun m => FTuple ((fun n => group_or_empty t n m) <$> seq 1 (S (S k))))
        <$> finditer p text
  end.

Definition sub (p : pattern) (repl text : string) : string :=
  str (sub_scan (p_ic p) (p_re p) (chars repl) 0 0 None (chars text)).

(** Pattern syntax. *)
Fixpoint lits (s : list ascii) : regex :=
  match s with
  | [] => REps
  | [c] => RAtom (ALit c)
  | c :: s' => RCat (RAtom (ALit c)) (lits s')
  end.

Definition lit (s : string) : regex := lits (chars s).

Fixpoint cat (rs : list regex) : regex :=
  match rs with
  | [] => REps
  | [r] => r
  | r :: rs' => RCat r (cat rs')
  end.

Fixpoint alt (rs : list regex) : regex :=
  match rs with
  | [] => REps
  | [r] => r
  | r :: rs' => RAlt r (alt rs')
  end.

Definition star (a : atom) : regex := RRep 0 None a.
Definition plus (a : atom) : regex := RRep 1 None a.
Definition opt1 (a : atom) : regex := RRep 0 (Some 1) a.
Definition times (n : nat) (a : atom) : regex := RRep n (Some n) a.
Definition set (items : list item) : atom := ASet false items.
Definition nset (items : list item) : atom := ASet true items.
Definition ch (s : string) : ascii :=
  match s with
  | String c _ => c
  | EmptyString => zero
  end.
Definition space : atom := set [ISpace].
Definition digit : atom := set [IDigit].

End Re.

Import Re.

(** ** [ContractParser]: the normaliser *)

(** [r'\s+'] *)
Definition ws_pattern : pattern := Pattern (plus space) false.

(** The two statements of [_clean_text] on a string:
    [text = re.sub(r'\s+', ' ', text)] and [text = text.strip()]. *)
Definition normalize (text : string) : string :=
  let text := sub ws_pattern " " text in
  str (strip (chars text)).

(** [re.sub] asks for a string: any other argument is a [TypeError]. *)
Definition _clean_text (text : pyval) : res string :=
  match text with
  | PStr t => Ok (normalize t)
  | _ => Raise TypeError
  end.

(** ** The extractors *)

Definition PStrs (l : list string) : pyval := PList (PStr <$> l).

(** [list(set(xs))] *)
Definition list_of_set (xs : list string) : list string :=
  elements (list_to_set xs : gset string).

(** The string of a [findall] result without groups or with one group. *)
Definition found_str (m : found) : string :=
  match m with
  | FStr s => s
  | FTuple l => default "" (head l)
  end.

Definition found_nth (i : nat) (m : found) : string :=
  match m with
  | FStr s => s
  | FTuple l => default "" (l !! i)
  end.

Definition quote : ascii := ascii_of_nat 34.
Definition newline : ascii := ascii_of_nat 10.

Definition upper_az : item := IRange (ch "A") (ch "Z").
Definition lower_az : item := IRange (ch "a") (ch "z").
Definition d09 : item := IRange (ch "0") (ch "9").

(** [(?:Inc\.|LLC|Corp\.|Corporation|Ltd\.|Limited)] *)
Definition entity_suffix : regex :=
  alt [lit "Inc."; lit "LLC"; lit "Corp."; lit "Corporation"; lit "Ltd.";
       lit "Limited"].

(** [([A-Z][a-zA-Z\s]+(?:Inc\.|...|Limited))] and
    [(Q([^Q]+(?:Inc\.|...|Limited))Q)], where Q stands for the double
    quote character. *)
Definition company_patterns : list pattern :=
  [ Pattern (RGroup 1 (cat [RAtom (set [upper_az]);
                            plus (set [lower_az; upper_az; ISpace]);
                            entity_suffix])) true;
    Pattern (RGroup 1 (cat [RAtom (ALit quote);
                            RGroup 2 (cat [plus (nset [IChar quote]);
                                           entity_suffix]);
                            RAtom (ALit quote)])) true ].

(** [([A-Z][a-zA-Z\s]+)] *)
Definition person_name : regex :=
  RGroup 1 (cat [RAtom (set [upper_az]);
                 plus (set [lower_az; upper_az; ISpace])]).

(** [signed by:?\s*(..)], [signature:?\s*(..)], [authorized by:?\s*(..)] *)
Definition signatory_patterns : list pattern :=
  [ Pattern (cat [lit "signed by"; opt1 (ALit ":"); star space;
                  person_name]) true;
    Pattern (cat [lit "signature"; opt1 (ALit ":"); star space;
                  person_name]) true;
    Pattern (cat [lit "authorized by"; opt1 (ALit ":"); star space;
                  person_name]) true ].

(** [match[0] if match[0] else match[1]] for a tuple, the match itself
    otherwise. *)
Definition company_of (m : found) : string :=
  match m with
  | FStr s => s
  | FTuple l =>
      if String.eqb (found_nth 0 m) "" then found_nth 1 m else found_nth 0 m
  end.

Definition findall_each (ps : list pattern) (text : string) : list found :=
  ps ≫= (fun p => findall p text).

Definition party_info_init : gmap string pyval :=
  <["roles" := PList []]> (<["signatories" := PList []]>
  (<["registration_details" := PNone]> (<["legal_entity" := PNone]>
  (<["name" := PNone]> ∅)))).

Definition _extract_party_info (text : string) : pyval :=
  let party_info := party_info_init in
  let companies := company_of <$> findall_each company_patterns text in
  let party_info :=
    match companies with
    | c :: _ => <["legal_entity" := PStr c]> (<["name" := PStr c]> party_info)
    | [] => party_info
    end in
  let signatories := found_str <$> findall_each signatory_patterns text in
  PDict (<["signatories" := PStrs (take 5 (list_of_set signatories))]>
           party_info).

(** [([A-Z0-9\-]+)] *)
Definition account_id : regex :=
  RGroup 1 (plus (set [upper_az; d09; IChar (ch "-")])).

(** [account\s*(?:number|#):?\s*(..)], [customer\s*(?:id|number):?\s*(..)],
    [reference\s*(?:number|#):?\s*(..)] *)
Definition account_patterns : list pattern :=
  [ Pattern (cat [lit "account"; star space; alt [lit "number"; lit "#"];
                  opt1 (ALit ":"); star space; account_id]) true;
    Pattern (cat [lit "customer"; star space; alt [lit "id"; lit "number"];
                  opt1 (ALit ":"); star space; account_id]) true;
    Pattern (cat [lit "reference"; star space; alt [lit "number"; lit "#"];
                  opt1 (ALit ":"); star space; account_id]) true ].

(** [\b[A-Za-z0-9._%+-]+@[A-Za-z0-9.-]+\.[A-Z|a-z]{2,}\b] *)
Definition email_pattern : pattern :=
  Pattern (cat [RWordB;
                plus (set [upper_az; lower_az; d09; IChar (ch ".");
                           IChar (ch "_"); IChar (ch "%"); IChar (ch "+");
                           IChar (ch "-")]);
                lit "@";
                plus (set [upper_az; lower_az; d09; IChar (ch ".");
                           IChar (ch "-")]);
                lit ".";
                RRep 2 None (set [upper_az; IChar (ch "|"); lower_az]);
                RWordB]) false.

(** [[-.\s]?] *)
Definition phone_sep : regex :=
  opt1 (set [IChar (ch "-"); IChar (ch "."); ISpace]).

(** [\b(?:\+?1[-.\s]?)?\(?([0-9]{3})\)?[-.\s]?([0-9]{3})[-.\s]?([0-9]{4})\b] *)
Definition phone_pattern : pattern :=
  Pattern (cat [RWordB;
                ROpt (cat [opt1 (ALit (ch "+")); lit "1"; phone_sep]);
                opt1 (ALit (ch "("));
                RGroup 1 (times 3 (set [d09]));
                opt1 (ALit (ch ")"));
                phone_sep;
                RGroup 2 (times 3 (set [d09]));
                phone_sep;
                RGroup 3 (times 4 (set [d09]));
                RWordB]) false.

Definition account_info_init : gmap string pyval :=
  <["contact_info" := PDict ∅]> (<["account_numbers" := PList []]>
  (<["billing_details" := PNone]> ∅)).

Definition _extract_account_info (text : string) : pyval :=
  let account_info := account_info_init in
  let account_numbers := found_str <$> findall_each account_patterns text in
  let account_info :=
    <["account_numbers" := PStrs (list_of_set account_numbers)]>
      account_info in
  let emails := findall email_pattern text in
  let phones := findall phone_pattern text in
  let contact_info : gmap string pyval := ∅ in
  let contact_info :=
    match emails with
    | e :: _ => <["email" := PStr (found_str e)]> contact_info
    | [] => contact_info
    end in
  let contact_info :=
    match phones with
    | p :: _ =>
        <["phone" := PStr ("(" +:+ found_nth 0 p +:+ ") " +:+ found_nth 1 p
                             +:+ "-" +:+ found_nth 2 p)]> contact_info
    | [] => contact_info
    end in
  PDict (<["contact_info" := PDict contact_info]> account_info).

(** [str.replace(old, '')] for a one-character [old]. *)
Definition remove_char (c : ascii) (s : string) : string :=
  str (filter (fun x => x ≠ c) (chars s)).

Definition digit_val (c : ascii) : Z := Z.of_N (code c) - 48.

(** The decimal digits at the head of a text, and what follows them. *)
Fixpoint span_digits (s : list ascii) : list ascii * list ascii :=
  match s with
  | c :: s' =>
      if isdecimal c
      then let '(ds, r) := span_digits s' in (c :: ds, r)
      else ([], s)
  | [] => ([], [])
  end.

Definition digits_val (ds : list ascii) : Z :=
  fold_left (fun acc c => 10 * acc + digit_val c)%Z ds 0%Z.

(** [float(s)] on the texts the amount group can hold once the commas are
    gone (digits with at most one point): the number the literal denotes,
    or [None] for the [ValueError] of a text without a digit.  Any other
    text is refused as well. *)
Definition py_float (s : string) : option Q :=
  let '(ip, r) := span_digits (chars s) in
  match r with
  | [] =>
      match ip with
      | [] => None
      | _ => Some (inject_Z (digits_val ip))
      end
  | c :: r' =>
      if Ascii.eqb c (ch ".")
      then
        let '(fp, r'') := span_digits r' in
        match r'', ip ++ fp with
        | [], _ :: _ =>
            Some (Qred (Qmake (digits_val (ip ++ fp))
                              (Z.to_pos (10 ^ Z.of_nat (length fp)))))
        | _, _ => None
        end
      else None
  end.

(** [max(xs)]: the first of the largest elements. *)
Definition py_max (xs : list Q) : option Q :=
  match xs with
  | [] => None
  | x :: xs' =>
      Some (fold_left (fun m y => if Qle_bool y m then m else y) xs' x)
  end.

(** The amount group [([0-9,]+\.?[0-9]* )] (written here with a blank
    before the closing parenthesis, which the pattern does not have). *)
Definition amount : regex :=
  RGroup 1 (cat [plus (set [d09; IChar (ch ",")]); opt1 (ALit (ch "."));
                 star (set [d09])]).

(** [\$\s*(..)], [(..)\s*(?:dollars?|usd)], [total:?\s*\$?\s*(..)],
    [amount:?\s*\$?\s*(..)] *)
Definition money_patterns : list pattern :=
  [ Pattern (cat [lit "$"; star space; amount]) true;
    Pattern (cat [amount; star space;
                  alt [cat [lit "dollar"; opt1 (ALit (ch "s"))];
                       lit "usd"]]) true;
    Pattern (cat [lit "total"; opt1 (ALit (ch ":")); star space;
                  opt1 (ALit (ch "$")); star space; amount]) true;
    Pattern (cat [lit "amount"; opt1 (ALit (ch ":")); star space;
                  opt1 (ALit (ch "$")); star space; amount]) true ].

(** [\b(USD|EUR|GBP|CAD|AUD)\b] *)
Definition currency_codes : list string := ["USD"; "EUR"; "GBP"; "CAD"; "AUD"].

Definition currency_pattern : pattern :=
  Pattern (cat [RWordB; RGroup 1 (alt (lit <$> currency_codes)); RWordB])
          true.

(** The amounts of a text: every capture of every money pattern that
    [float] accepts, in the order of the loops. *)
Definition matched_amounts (text : string) : list string :=
  found_str <$> findall_each money_patterns text.

Definition amounts_of (text : string) : list Q :=
  omap (fun m => py_float (remove_char (ch ",") m)) (matched_amounts text).

Definition financial_details_init : gmap string pyval :=
  <["additional_fees" := PList []]> (<["tax_info" := PDict ∅]>
  (<["currency" := PStr "USD"]> (<["total_value" := PNone]>
  (<["line_items" := PList []]> ∅)))).

Definition _extract_financial_details (text : string) : pyval :=
  let financial_details := financial_details_init in
  let amounts := amounts_of text in
  let financial_details :=
    match py_max amounts with
    | Some m => <["total_value" := PFloat m]> financial_details
    | None => financial_details
    end in
  let financial_details :=
    match search currency_pattern text with
    | Some m =>
        <["currency" :=
            PStr (str_upper (group_or_empty (chars text) 1 m))]>
          financial_details
    | None => financial_details
    end in
  PDict financial_details.

(** [net\s*(\d+)] *)
Definition net_terms : pattern :=
  Pattern (cat [lit "net"; star space; RGroup 1 (plus digit)]) true.

(** [payment\s*terms?:?\s*([^.\n]+)] *)
Definition labelled_terms : pattern :=
  Pattern (cat [lit "payment"; star space; lit "term";
                opt1 (ALit (ch "s")); opt1 (ALit (ch ":")); star space;
                RGroup 1 (plus (nset [IChar (ch "."); IChar newline]))])
          true.

(** [due\s*(?:in|within):?\s*(\d+\s*days?)] *)
Definition due_terms : pattern :=
  Pattern (cat [lit "due"; star space; alt [lit "in"; lit "within"];
                opt1 (ALit (ch ":")); star space;
                RGroup 1 (cat [plus digit; star space; lit "day";
                               opt1 (ALit (ch "s"))])]) true.

Definition payment_terms_patterns : list pattern :=
  [net_terms; labelled_terms; due_terms].

(** [(?:payment\s*(?:by|via|through):?\s* )?] (again without the blank)
    followed by
    [(?:check|cheque|wire\s*transfer|ach|credit\s*card|bank\s*transfer)] *)
Definition payment_methods_patterns : list pattern :=
  [ Pattern (cat [ROpt (cat [lit "payment"; star space;
                             alt [lit "by"; lit "via"; lit "through"];
                             opt1 (ALit (ch ":")); star space]);
                  alt [lit "check"; lit "cheque";
                       cat [lit "wire"; star space; lit "transfer"];
                       lit "ach";
                       cat [lit "credit"; star space; lit "card"];
                       cat [lit "bank"; star space; lit "transfer"]]])
            true ].

(** The loop [for pattern in ..: match = re.search(..); if match: ..; break]:
    the whole match of the first pattern of the list that matches. *)
Fixpoint first_search (ps : list pattern) (text : string) : option string :=
  match ps with
  | [] => None
  | p :: ps' =>
      match search p text with
      | Some m => Some (group0 (chars text) m)
      | None => first_search ps' text
      end
  end.

Definition payment_structure_init : gmap string pyval :=
  <["banking_details" := PDict ∅]> (<["payment_methods" := PList []]>
  (<["due_dates" := PList []]> (<["payment_terms" := PNone]> ∅))).

Definition _extract_payment_structure (text : string) : pyval :=
  let payment_structure := payment_structure_init in
  let payment_structure :=
    match first_search payment_terms_patterns text with
    | Some t => <["payment_terms" := PStr t]> payment_structure
    | None => payment_structure
    end in
  let methods := found_str <$> findall_each payment_methods_patterns text in
  PDict (<["payment_methods" := PStrs (list_of_set methods)]>
           payment_structure).

Definition recurring_keywords : list string :=
  ["monthly"; "quarterly"; "annually"; "subscription"; "recurring"].
Definition one_time_keywords : list string :=
  ["one-time"; "lump sum"; "upfront"; "single payment"].
Definition auto_renewal_keywords : list string :=
  ["auto-renew"; "automatically renew"; "auto renewal"].

(** [any(keyword in text for keyword in keywords)] *)
Definition any_in (keywords : list string) (text : string) : bool :=
  existsb (fun k => str_in k text) keywords.

(** [\b(monthly|quarterly|annually|yearly|weekly)\b] *)
Definition billing_cycle_pattern : pattern :=
  Pattern (cat [RWordB;
                RGroup 1 (alt [lit "monthly"; lit "quarterly";
                               lit "annually"; lit "yearly"; lit "weekly"]);
                RWordB]) true.

Definition revenue_classification_init : gmap string pyval :=
  <["auto_renewal" := PNone]> (<["renewal_terms" := PNone]>
  (<["billing_cycle" := PNone]> (<["payment_type" := PNone]> ∅))).

Definition _extract_revenue_classification (text : string) : pyval :=
  let revenue_classification := revenue_classification_init in
  let text_lower := str_lower text in
  let has_recurring := any_in recurring_keywords text_lower in
  let has_one_time := any_in one_time_keywords text_lower in
  let revenue_classification :=
    if has_recurring && has_one_time
    then <["payment_type" := PStr "both"]> revenue_classification
    else if has_recurring
    then <["payment_type" := PStr "recurring"]> revenue_classification
    else if has_one_time
    then <["payment_type" := PStr "one-time"]> revenue_classification
    else revenue_classification in
  let revenue_classification :=
    match search billing_cycle_pattern text with
    | Some m =>
        <["billing_cycle" :=
            PStr (str_lower (group_or_empty (chars text) 1 m))]>
          revenue_classification
    | None => revenue_classification
    end in
  PDict (<["auto_renewal" := PBool (any_in auto_renewal_keywords text_lower)]>
           revenue_classification).

(** [(\d+%?\s*uptime)],
    [(\d+\s*(?:hours?|minutes?|seconds?)\s*response\s*time)],
    [(availability:?\s*\d+%?)] *)
Definition performance_patterns : list pattern :=
  [ Pattern (RGroup 1 (cat [plus digit; opt1 (ALit (ch "%")); star space;
                            lit "uptime"])) true;
    Pattern (RGroup 1 (cat [plus digit; star space;
                            alt [cat [lit "hour"; opt1 (ALit (ch "s"))];
                                 cat [lit "minute"; opt1 (ALit (ch "s"))];
                                 cat [lit "second"; opt1 (ALit (ch "s"))]];
                            star space; lit "response"; star space;
                            lit "time"])) true;
    Pattern (RGroup 1 (cat [lit "availability"; opt1 (ALit (ch ":"));
                            star space; plus digit;
                            opt1 (ALit (ch "%"))])) true ].

(** [[^.\n]+] *)
Definition to_end_of_sentence : regex :=
  plus (nset [IChar (ch "."); IChar newline]).

(** [(penalty:?\s*[^.\n]+)], [(liquidated\s*damages:?\s*[^.\n]+)],
    [(service\s*credits?:?\s*[^.\n]+)] *)
Definition penalty_patterns : list pattern :=
  [ Pattern (RGroup 1 (cat [lit "penalty"; opt1 (ALit (ch ":")); star space;
                            to_end_of_sentence])) true;
    Pattern (RGroup 1 (cat [lit "liquidated"; star space; lit "damages";
                            opt1 (ALit (ch ":")); star space;
                            to_end_of_sentence])) true;
    Pattern (RGroup 1 (cat [lit "service"; star space; lit "credit";
                            opt1 (ALit (ch "s")); opt1 (ALit (ch ":"));
                            star space; to_end_of_sentence])) true ].

Definition sla_info_init : gmap string pyval :=
  <["maintenance_terms" := PNone]> (<["support_terms" := PNone]>
  (<["penalty_clauses" := PList []]>
  (<["performance_metrics" := PList []]> ∅))).

Definition _extract_sla_info (text : string) : pyval :=
  let sla_info := sla_info_init in
  let metrics := found_str <$> findall_each performance_patterns text in
  let sla_info := <["performance_metrics" := PStrs metrics]> sla_info in
  let penalties := found_str <$> findall_each penalty_patterns text in
  PDict (<["penalty_clauses" := PStrs penalties]> sla_info).

(** ** [parse_contract] *)

(** The methods that [parse_contract] calls on [self]. *)
Record parser : Type := Parser {
  clean_text : pyval → res string;
  extract_party_info : string → res pyval;
  extract_account_info : string → res pyval;
  extract_financial_details : string → res pyval;
  extract_payment_structure : string → res pyval;
  extract_revenue_classification : string → res pyval;
  extract_sla_info : string → res pyval
}.

(** The dictionary display of [parse_contract]. *)
Definition six_sections (party account financial payment revenue sla : pyval)
    : gmap string pyval :=
  <["service_level_agreements" := sla]>
  (<["revenue_classification" := revenue]>
  (<["payment_structure" := payment]>
  (<["financial_details" := financial]>
  (<["account_information" := account]>
  (<["party_identification" := party]> ∅))))).

(** The body of the [try]. *)
Definition parse_contract_try (self : parser) (text_content : pyval)
    : res (gmap string pyval) :=
  cleaned_text ← clean_text self text_content;
  party ← extract_party_info self cleaned_text;
  account ← extract_account_info self cleaned_text;
  financial ← extract_financial_details self cleaned_text;
  payment ← extract_payment_structure self cleaned_text;
  revenue ← extract_revenue_classification self cleaned_text;
  sla ← extract_sla_info self cleaned_text;
  mret (six_sections party account financial payment revenue sla).

Definition _get_empty_extracted_data : gmap string pyval :=
  six_sections (PDict ∅) (PDict ∅) (PDict ∅) (PDict ∅) (PDict ∅) (PDict ∅).

(** [except Exception: return self._get_empty_extracted_data()] *)
Definition parse_contract (self : parser) (text_content : pyval)
    : gmap string pyval :=
  match parse_contract_try self text_content with
  | Ok extracted_data => extracted_data
  | Raise _ => _get_empty_extracted_data
  end.

(** The class as it is written. *)
Definition ContractParser : parser := {|
  clean_text := _clean_text;
  extract_party_info := fun t => Ok (_extract_party_info t);
  extract_account_info := fun t => Ok (_extract_account_info t);
  extract_financial_details := fun t => Ok (_extract_financial_details t);
  extract_payment_structure := fun t => Ok (_extract_payment_structure t);
  extract_revenue_classification :=
    fun t => Ok (_extract_revenue_classification t);
  extract_sla_info := fun t => Ok (_extract_sla_info t)
|}.

(** ** The confidence scorer

    The entries of the score table are floats that only ever hold sums
    of the integer weights below; the model keeps them as integers. *)

(** [scores[key] += w] when [v] is truthy. *)
Definition credit (v : pyval) (key : string) (w : Z)
    (scores : gmap string Z) : gmap string Z :=
  if truthy v then alter (fun x => (x + w)%Z) key scores else scores.

(** [sum(scores.values())] *)
Definition sum_values (scores : gmap string Z) : Z :=
  map_fold (fun _ v acc => (acc + v)%Z) 0%Z scores.

(** [extracted_data.get(section, {})] *)
Definition section (extracted_data : gmap string pyval) (name : string)
    : pyval :=
  default (PDict ∅) (extracted_data !! name).

Definition calculate_confidence_scores (extracted_data : gmap string pyval)
    : res (gmap string Z) :=
  let scores : gmap string Z :=
    <["overall_score" := 0%Z]> (<["contact_information" := 0%Z]>
    (<["sla_definition" := 0%Z]> (<["payment_terms_clarity" := 0%Z]>
    (<["party_identification" := 0%Z]>
    (<["financial_completeness" := 0%Z]> ∅))))) in
  let financial := section extracted_data "financial_details" in
  v ← py_get financial "total_value" PNone;
  let scores := credit v "financial_completeness" 15 scores in
  v ← py_get financial "currency" PNone;
  let scores := credit v "financial_completeness" 5 scores in
  v ← py_get financial "line_items" PNone;
  let scores := credit v "financial_completeness" 10 scores in
  let party := section extracted_data "party_identification" in
  v ← py_get party "name" PNone;
  let scores := credit v "party_identification" 10 scores in
  v ← py_get party "legal_entity" PNone;
  let scores := credit v "party_identification" 8 scores in
  v ← py_get party "signatories" PNone;
  let scores := credit v "party_identification" 7 scores in
  let payment := section extracted_data "payment_structure" in
  v ← py_get payment "payment_terms" PNone;
  let scores := credit v "payment_terms_clarity" 10 scores in
  v ← py_get payment "payment_methods" PNone;
  let scores := credit v "payment_terms_clarity" 5 scores in
  v ← py_get payment "due_dates" PNone;
  let scores := credit v "payment_terms_clarity" 5 scores in
  let sla := section extracted_data "service_level_agreements" in
  v ← py_get sla "performance_metrics" PNone;
  let scores := credit v "sla_definition" 8 scores in
  v ← py_get sla "penalty_clauses" PNone;
  let scores := credit v "sla_definition" 4 scores in
  v ← py_get sla "support_terms" PNone;
  let scores := credit v "sla_definition" 3 scores in
  let account := section extracted_data "account_information" in
  contact_info ← (if truthy account
                  then py_get account "contact_info" (PDict ∅)
                  else Ok (PDict ∅));
  v ← py_get contact_info "email" PNone;
  let scores := credit v "contact_information" 5 scores in
  v ← py_get contact_info "phone" PNone;
  let scores := credit v "contact_information" 3 scores in
  v ← (if truthy account
       then py_get account "account_numbers" PNone
       else Ok account);
  let scores := credit v "contact_information" 2 scores in
  mret (<["overall_score" :=
            (sum_values scores - default 0 (scores !! "overall_score"))%Z]>
          scores).

(** ** The gap analyser *)

(** [labels.append(label)] unless [v] is truthy. *)
Definition unless (v : pyval) (label : string) (labels : list string)
    : list string :=
  if truthy v then labels else labels ++ [label].

Definition rec_documentation : string :=
  "Request additional contract documentation to fill missing fields".
Definition rec_manual_review : string :=
  "Consider manual review due to significant missing information".
Definition rec_verify_value : string :=
  "Verify contract value with client before processing payments".

Definition perform_gap_analysis (extracted_data : gmap string pyval)
    : res (gmap string (list string)) :=
  let missing_fields : list string := [] in
  let incomplete_sections : list string := [] in
  let recommendations : list string := [] in
  let financial := section extracted_data "financial_details" in
  v ← py_get financial "total_value" PNone;
  let missing_fields := unless v "Total contract value" missing_fields in
  v ← py_get financial "line_items" PNone;
  let missing_fields := unless v "Detailed line items" missing_fields in
  v ← py_get financial "tax_info" PNone;
  let incomplete_sections :=
    unless v "Tax information" incomplete_sections in
  let party := section extracted_data "party_identification" in
  v ← py_get party "name" PNone;
  let missing_fields := unless v "Party names" missing_fields in
  v ← py_get party "signatories" PNone;
  let missing_fields := unless v "Authorized signatories" missing_fields in
  let payment := section extracted_data "payment_structure" in
  v ← py_get payment "payment_terms" PNone;
  let missing_fields := unless v "Payment terms" missing_fields in
  v ← py_get payment "payment_methods" PNone;
  let missing_fields := unless v "Payment methods" missing_fields in
  let sla := section extracted_data "service_level_agreements" in
  v ← py_get sla "performance_metrics" PNone;
  let missing_fields := unless v "Performance metrics" missing_fields in
  let account := section extracted_data "account_information" in
  v ← (if truthy account
       then py_get account "contact_info" PNone
       else Ok PNone);
  let missing_fields := unless v "Contact information" missing_fields in
  let recommendations :=
    match missing_fields with
    | [] => recommendations
    | _ => recommendations ++ [rec_documentation]
    end in
  let recommendations :=
    if (5 <? length missing_fields)%nat
    then recommendations ++ [rec_manual_review]
    else recommendations in
  v ← py_get financial "total_value" PNone;
  let recommendations := unless v rec_verify_value recommendations in
  mret (<["recommendations" := recommendations]>
        (<["incomplete_sections" := incomplete_sections]>
        (<["missing_fields" := missing_fields]> ∅))).

(** * Vocabulary of the properties *)

(** ** Well-formed extracted data

    The scorer and the analyser call [.get] on what they find under a
    section name, so a section that is present has to be a mapping.  For
    the account section both test [if account] first, so any falsy value
    passes; the scorer then calls [.get] on [contact_info] as well. *)

Definition is_dict (v : pyval) : bool :=
  match v with
  | PDict _ => true
  | _ => false
  end.

Definition as_dict (v : pyval) : gmap string pyval :=
  match v with
  | PDict d => d
  | _ => ∅
  end.

Definition account_ok (v : pyval) : bool :=
  is_dict v || negb (truthy v).

Definition sections_ok (d : gmap string pyval) : bool :=
  is_dict (section d "financial_details")
  && is_dict (section d "party_identification")
  && is_dict (section d "payment_structure")
  && is_dict (section d "service_level_agreements")
  && account_ok (section d "account_information").

(** [account.get("contact_info", {}) if account else {}] *)
Definition contact_info_of (d : gmap string pyval) : pyval :=
  let account := section d "account_information" in
  if truthy account
  then default (PDict ∅) (as_dict account !! "contact_info")
  else PDict ∅.

Definition well_formed (d : gmap string pyval) : bool :=
  sections_ok d && is_dict (contact_info_of d).

(** [d.get(section, {}).get(field)] on well-formed data. *)
Definition field (d : gmap string pyval) (sec fld : string) : pyval :=
  default PNone (as_dict (section d sec) !! fld).

(** [account and account.get("account_numbers")] *)
Definition account_numbers_of (d : gmap string pyval) : pyval :=
  let account := section d "account_information" in
  if truthy account
  then default PNone (as_dict account !! "account_numbers")
  else account.

(** The score table before the checks. *)
Definition initial_scores : gmap string Z :=
  <["overall_score" := 0%Z]> (<["contact_information" := 0%Z]>
  (<["sla_definition" := 0%Z]> (<["payment_terms_clarity" := 0%Z]>
  (<["party_identification" := 0%Z]>
  (<["financial_completeness" := 0%Z]> ∅))))).

(** The table after the fifteen presence checks, in the order of the
    source (the first check is the innermost). *)
Definition credited (d : gmap string pyval) : gmap string Z :=
  credit (account_numbers_of d) "contact_information" 2
  (credit (default PNone (as_dict (contact_info_of d) !! "phone"))
     "contact_information" 3
  (credit (default PNone (as_dict (contact_info_of d) !! "email"))
     "contact_information" 5
  (credit (field d "service_level_agreements" "support_terms")
     "sla_definition" 3
  (credit (field d "service_level_agreements" "penalty_clauses")
     "sla_definition" 4
  (credit (field d "service_level_agreements" "performance_metrics")
     "sla_definition" 8
  (credit (field d "payment_structure" "due_dates")
     "payment_terms_clarity" 5
  (credit (field d "payment_structure" "payment_methods")
     "payment_terms_clarity" 5
  (credit (field d "payment_structure" "payment_terms")
     "payment_terms_clarity" 10
  (credit (field d "party_identification" "signatories")
     "party_identification" 7
  (credit (field d "party_identification" "legal_entity")
     "party_identification" 8
  (credit (field d "party_identification" "name")
     "party_identification" 10
  (credit (field d "financial_details" "line_items")
     "financial_completeness" 10
  (credit (field d "financial_details" "currency")
     "financial_completeness" 5
  (credit (field d "financial_details" "total_value")
     "financial_completeness" 15 initial_scores)))))))))))))).

(** The weight a presence check contributes. *)
Definition weight (v : pyval) (w : Z) : Z := if truthy v then w else 0%Z.

(** The five sub-scores as sums of weights. *)
Definition financial_points (d : gmap string pyval) : Z :=
  (weight (field d "financial_details" "total_value") 15
   + weight (field d "financial_details" "currency") 5
   + weight (field d "financial_details" "line_items") 10)%Z.

Definition party_points (d : gmap string pyval) : Z :=
  (weight (field d "party_identification" "name") 10
   + weight (field d "party_identification" "legal_entity") 8
   + weight (field d "party_identification" "signatories") 7)%Z.

Definition payment_points (d : gmap string pyval) : Z :=
  (weight (field d "payment_structure" "payment_terms") 10
   + weight (field d "payment_structure" "payment_methods") 5
   + weight (field d "payment_structure" "due_dates") 5)%Z.

Definition sla_points (d : gmap string pyval) : Z :=
  (weight (field d "service_level_agreements" "performance_metrics") 8
   + weight (field d "service_level_agreements" "penalty_clauses") 4
   + weight (field d "service_level_agreements" "support_terms") 3)%Z.

Definition contact_points (d : gmap string pyval) : Z :=
  (weight (default PNone (as_dict (contact_info_of d) !! "email")) 5
   + weight (default PNone (as_dict (contact_info_of d) !! "phone")) 3
   + weight (account_numbers_of d) 2)%Z.

(** The table the scorer returns on well-formed data. *)
Definition score_table (d : gmap string pyval) : gmap string Z :=
  <["overall_score" :=
      (financial_points d + party_points d + payment_points d
       + sla_points d + contact_points d)%Z]> (credited d).

(** What the analyser reads for its last check,
    [account.get("contact_info")] behind [not account or ..]. *)
Definition contact_check (d : gmap string pyval) : pyval :=
  let account := section d "account_information" in
  if truthy account
  then default PNone (as_dict account !! "contact_info")
  else PNone.

(** The three lists of the analyser on data whose sections are mappings. *)
Definition missing_of (d : gmap string pyval) : list string :=
  unless (contact_check d) "Contact information"
  (unless (field d "service_level_agreements" "performance_metrics")
     "Performance metrics"
  (unless (field d "payment_structure" "payment_methods") "Payment methods"
  (unless (field d "payment_structure" "payment_terms") "Payment terms"
  (unless (field d "party_identification" "signatories")
     "Authorized signatories"
  (unless (field d "party_identification" "name") "Party names"
  (unless (field d "financial_details" "line_items") "Detailed line items"
  (unless (field d "financial_details" "total_value") "Total contract value"
     []))))))).

Definition incomplete_of (d : gmap string pyval) : list string :=
  unless (field d "financial_details" "tax_info") "Tax information" [].

(** The three rules of the recommendations, each adding its text or
    nothing. *)
Definition rule_a (missing : list string) : list string :=
  match missing with
  | [] => []
  | _ => [rec_documentation]
  end.

Definition rule_b (missing : list string) : list string :=
  if (5 <? length missing)%nat then [rec_manual_review] else [].

Definition rule_c (d : gmap string pyval) : list string :=
  if truthy (field d "financial_details" "total_value")
  then [] else [rec_verify_value].

Definition gap_table (d : gmap string pyval) : gmap string (list string) :=
  <["recommendations" :=
      rule_a (missing_of d) ++ rule_b (missing_of d) ++ rule_c d]>
  (<["incomplete_sections" := incomplete_of d]>
  (<["missing_fields" := missing_of d]> ∅)).


(** The fixtures of the unit tests. *)
Definition complete_data : gmap string pyval :=
  <["party_identification" :=
      PDict (<["name" := PStr "Test Corp"]>
             (<["legal_entity" := PStr "Test Corp Inc."]>
             (<["signatories" := PStrs ["John Doe"]]> ∅)))]>
  (<["account_information" :=
      PDict (<["account_numbers" := PStrs ["ACC-123"]]>
             (<["contact_info" :=
                 PDict (<["email" := PStr "test@test.com"]>
                        (<["phone" := PStr "555-1234"]> ∅))]> ∅))]>
  (<["financial_details" :=
      PDict (<["total_value" := PInt 10000]>
             (<["currency" := PStr "USD"]>
             (<["line_items" :=
                 PList [PDict (<["item" := PStr "service"]>
                               (<["amount" := PInt 10000]> ∅))]]> ∅)))]>
  (<["payment_structure" :=
      PDict (<["payment_terms" := PStr "Net 30"]>
             (<["payment_methods" := PStrs ["check"]]>
             (<["due_dates" := PStrs ["2024-01-01"]]> ∅)))]>
  (<["service_level_agreements" :=
      PDict (<["performance_metrics" := PStrs ["99% uptime"]]>
             (<["penalty_clauses" := PStrs ["5% penalty"]]>
             (<["support_terms" := PStr "24/7 support"]> ∅)))]> ∅)))).

Definition minimal_data : gmap string pyval := _get_empty_extracted_data.

(** The six extractors on one normalised text. *)
Definition extract (normalized : string) : gmap string pyval :=
  six_sections (_extract_party_info normalized)
               (_extract_account_info normalized)
               (_extract_financial_details normalized)
               (_extract_payment_structure normalized)
               (_extract_revenue_classification normalized)
               (_extract_sla_info normalized).

(** What the extractors return on a text in which nothing matches. *)
Definition default_data : gmap string pyval :=
  six_sections (PDict party_info_init) (PDict account_info_init)
               (PDict financial_details_init) (PDict payment_structure_init)
               (PDict (<["auto_renewal" := PBool false]>
                         revenue_classification_init))
               (PDict sla_info_init).

(** The fields of the six sections in the data model. *)
Definition section_fields : list (string * list string) :=
  [ ("party_identification",
     ["name"; "legal_entity"; "registration_details"; "signatories";
      "roles"]);
    ("account_information",
     ["billing_details"; "account_numbers"; "contact_info"]);
    ("financial_details",
     ["line_items"; "total_value"; "currency"; "tax_info";
      "additional_fees"]);
    ("payment_structure",
     ["payment_terms"; "due_dates"; "payment_methods"; "banking_details"]);
    ("revenue_classification",
     ["payment_type"; "billing_cycle"; "renewal_terms"; "auto_renewal"]);
    ("service_level_agreements",
     ["performance_metrics"; "penalty_clauses"; "support_terms";
      "maintenance_terms"]) ].

(** Every section is there and holds every one of its fields. *)
Definition fields_present (d : gmap string pyval) : Prop :=
  ∀ sec fs, (sec, fs) ∈ section_fields →
    ∃ m, d !! sec = Some (PDict m) ∧ ∀ f, f ∈ fs → is_Some (m !! f).

(** Every section is there and is the empty mapping. *)
Definition sections_empty (d : gmap string pyval) : Prop :=
  ∀ sec fs, (sec, fs) ∈ section_fields → d !! sec = Some (PDict ∅).

Definition raises {A : Type} (r : res A) : Prop := ∃ e, r = Raise e.

(** Some step of the body of [parse_contract] raises: the normaliser, or
    one of the six extractors on the normalised text. *)
Definition step_raises (self : parser) (text_content : pyval) : Prop :=
  raises (clean_text self text_content)
  ∨ ∃ t, clean_text self text_content = Ok t
         ∧ (raises (extract_party_info self t)
            ∨ raises (extract_account_info self t)
            ∨ raises (extract_financial_details self t)
            ∨ raises (extract_payment_structure self t)
            ∨ raises (extract_revenue_classification self t)
            ∨ raises (extract_sla_info self t)).

(** A parser whose SLA extractor fails. *)
Definition failing_parser : parser := {|
  clean_text := _clean_text;
  extract_party_info := fun t => Ok (_extract_party_info t);
  extract_account_info := fun t => Ok (_extract_account_info t);
  extract_financial_details := fun t => Ok (_extract_financial_details t);
  extract_payment_structure := fun t => Ok (_extract_payment_structure t);
  extract_revenue_classification :=
    fun t => Ok (_extract_revenue_classification t);
  extract_sla_info := fun _ => Raise AttributeError
|}.

(** The whole match of one pattern of the payment terms, if it matches
    anywhere in the text. *)
Definition terms_of (p : pattern) (text : string) : option string :=
  group0 (chars text) <$> search p text.

(** [payment_structure["payment_terms"]] of the payment extractor. *)
Definition payment_terms_of (text : string) : option pyval :=
  as_dict (_extract_payment_structure text) !! "payment_terms".

(** ** Adding a field

    The fifteen fields the scorer tests: thirteen sit in a section, two
    in the [contact_info] mapping of the account section. *)
Inductive path : Type :=
| InSection (sec fld : string)
| InContact (fld : string).

Definition qualifying : list path :=
  [ InSection "financial_details" "total_value";
    InSection "financial_details" "currency";
    InSection "financial_details" "line_items";
    InSection "party_identification" "name";
    InSection "party_identification" "legal_entity";
    InSection "party_identification" "signatories";
    InSection "payment_structure" "payment_terms";
    InSection "payment_structure" "payment_methods";
    InSection "payment_structure" "due_dates";
    InSection "service_level_agreements" "performance_metrics";
    InSection "service_level_agreements" "penalty_clauses";
    InSection "service_level_agreements" "support_terms";
    InSection "account_information" "account_numbers";
    InContact "email";
    InContact "phone" ].

Definition read (d : gmap string pyval) (p : path) : pyval :=
  match p with
  | InSection sec fld => field d sec fld
  | InContact fld => default PNone (as_dict (contact_info_of d) !! fld)
  end.

(** [d[sec][fld] = v], with the section created when it is not there. *)
Definition set_field (d : gmap string pyval) (sec fld : string) (v : pyval)
    : gmap string pyval :=
  <[sec := PDict (<[fld := v]> (as_dict (section d sec)))]> d.

Definition write (d : gmap string pyval) (p : path) (v : pyval)
    : gmap string pyval :=
  match p with
  | InSection sec fld => set_field d sec fld v
  | InContact fld =>
      set_field d "account_information" "contact_info"
        (PDict (<[fld := v]> (as_dict (contact_info_of d))))
  end.

(** No component of the first table is larger than in the second. *)
Definition scores_le (s s' : gmap string Z) : Prop :=
  ∀ k x, s !! k = Some x → ∃ x', s' !! k = Some x' ∧ (x ≤ x')%Z.

(** ** The normal form of a text, in the words of the specification

    The words of a text are its maximal runs of characters that are not
    whitespace; the normal form is the words joined by single spaces
    (what [" ".join(text.split())] computes). *)

Definition starts_word (s : list ascii) : bool :=
  match s with
  | c :: _ => negb (isspace c)
  | [] => false
  end.

Fixpoint words (s : list ascii) : list (list ascii) :=
  match s with
  | [] => []
  | c :: s' =>
      if isspace c then words s'
      else if starts_word s'
      then match words s' with
           | w :: ws => (c :: w) :: ws
           | [] => [[c]]
           end
      else [c] :: words s'
  end.

Fixpoint join_sp (ws : list (list ascii)) : list ascii :=
  match ws with
  | [] => []
  | [w] => w
  | w :: ws' => w ++ " "%char :: join_sp ws'
  end.

Definition normalize_spec (text : string) : string :=
  str (join_sp (words (chars text))).

(** The invariant of a normalised text: it neither starts nor ends with
    whitespace, and a whitespace character in it is a space that a
    character other than whitespace follows. *)
Definition normalized (s : list ascii) : Prop :=
  (∀ c, head s = Some c → isspace c = false)
  ∧ (∀ c, last s = Some c → isspace c = false)
  ∧ (∀ i c, s !! i = Some c → isspace c = true →
       c = " "%char ∧ ∃ c', s !! S i = Some c' ∧ isspace c' = false).

(** The length of the whitespace at the head of a text. *)
Fixpoint run (s : list ascii) : nat :=
  match s with
  | c :: s' => if isspace c then S (run s') else 0
  | [] => 0
  end.

(** Runs of whitespace replaced by one space; [in_run] tells that the
    space of the current run is already out. *)
Fixpoint squeeze (in_run : bool) (s : list ascii) : list ascii :=
  match s with
  | [] => []
  | c :: s' =>
      if isspace c
      then (if in_run then squeeze true s' else " "%char :: squeeze true s')
      else c :: squeeze false s'
  end.

Definition rstrip (s : list ascii) : list ascii := rev (lstrip (rev s)).

(** A checker for the invariant; [after_ws] tells that the character
    before was whitespace (or that the text starts here). *)
Fixpoint spaced (after_ws : bool) (s : list ascii) : bool :=
  match s with
  | [] => negb after_ws
  | c :: s' =>
      if isspace c
      then negb after_ws && Ascii.eqb c " " && spaced true s'
      else spaced false s'
  end.

Definition all_ws (s : list ascii) : bool := forallb isspace s.

Definition word_ok (w : list ascii) : Prop :=
  w ≠ [] ∧ forallb (fun c => negb (isspace c)) w = true.

(** ** The financial section *)

Definition total_value_of (text : string) : option pyval :=
  as_dict (_extract_financial_details text) !! "total_value".

Definition currency_of (text : string) : option pyval :=
  as_dict (_extract_financial_details text) !! "currency".

(** A literal text at the head of [s], with or without [re.IGNORECASE]. *)
Fixpoint prefix_match (ic : bool) (w s : list ascii) : bool :=
  match w, s with
  | [], _ => true
  | x :: w', c :: s' => atom_match ic (ALit x) c && prefix_match ic w' s'
  | _ :: _, [] => false
  end.

(** One of the five currency codes, in any case, at the head of [s]. *)
Definition code_here (s : list ascii) : bool :=
  existsb (fun k => prefix_match true (chars k) s) currency_codes.

Definition char_before (t : list ascii) (i : nat) : option ascii :=
  match i with
  | 0 => None
  | S j => t !! j
  end.

(** A word boundary at offset [i] of [t]: a word character on exactly
    one side. *)
Definition boundary (t : list ascii) (i : nat) : bool :=
  xorb (word_at (char_before t i)) (word_at (t !! i)).

(** A currency code at offset [i], and a code there that is a word of
    its own. *)
Definition code_at (t : list ascii) (i : nat) : bool :=
  code_here (drop i t).

Definition code_word_at (t : list ascii) (i : nat) : bool :=
  boundary t i && code_at t i && boundary t (i + 3).

(** The first offset of a text at which [P] holds. *)
Definition first_offset (P : nat → bool) (t : list ascii) : option nat :=
  find P (seq 0 (S (length t))).

Definition code_text (t : list ascii) (i : nat) : string :=
  str_upper (str (slice i (i + 3) t)).

(** The currency by the first code that is a word of its own, and by the
    first code anywhere in the text. *)
Definition currency_word (text : string) : string :=
  match first_offset (code_word_at (chars text)) (chars text) with
  | Some i => code_text (chars text) i
  | None => "USD"
  end.

Definition currency_anywhere (text : string) : string :=
  match first_offset (code_at (chars text)) (chars text) with
  | Some i => code_text (chars text) i
  | None => "USD"
  end.

(** The state of the matcher [n] characters on. *)
Definition adv (st : mstate) (n : nat) : mstate :=
  MState (m_pos st + n)
         (match n with
          | 0 => m_prev st
          | S k => m_rest st !! k
          end)
         (drop n (m_rest st)) (m_caps st).

(** The currency pattern at the head of [s], after the character [prev]. *)
Definition code_word_here (prev : option ascii) (s : list ascii) : bool :=
  xorb (word_at prev) (word_at (head s))
  && code_here s
  && xorb (word_at (s !! 2)) (word_at (s !! 3)).

(** The match object of the currency pattern at offset [i]. *)
Definition code_match (t : list ascii) (i : nat) : rmatch :=
  RMatch i (MState (i + 3) (t !! (i + 2)) (drop (i + 3) t)
                   [(1, (i, i + 3))]).

(** The pattern tried at offset [j] of a text. *)
Definition match_here (p : pattern) (t : list ascii) (j : nat)
    : option rmatch :=
  match_at (p_ic p) (p_re p) j (char_before t j) (drop j t).

(** The contract of the unit tests, on one line. *)
Definition sample_contract_text : string :=
  "SERVICE AGREEMENT This agreement is between ABC Corporation Inc. and XYZ Services LLC. Total contract value: $50,000 USD Payment terms: Net 30 days Contact: john.doe@abccorp.com Phone: (555) 123-4567 Account Number: ACC-12345 Service Level Agreement: - 99.9% uptime guarantee - 4 hour response time - Monthly billing cycle Signed by: John Smith, CEO".

(** * Further vocabulary *)

(** The section names of [parse_contract], and those the scorer and the
    analyser read. *)
Definition section_names : list string :=
  ["party_identification"; "account_information"; "financial_details";
   "payment_structure"; "revenue_classification";
   "service_level_agreements"].

Definition read_sections : list string :=
  ["financial_details"; "party_identification"; "payment_structure";
   "service_level_agreements"; "account_information"].

Definition score_names : list string :=
  ["financial_completeness"; "party_identification";
   "payment_terms_clarity"; "sla_definition"; "contact_information";
   "overall_score"].

(** The labels of the analyser in the order of its checks. *)
Definition all_labels : list string :=
  ["Total contract value"; "Detailed line items"; "Party names";
   "Authorized signatories"; "Payment terms"; "Payment methods";
   "Performance metrics"; "Contact information"].

(** Every scored field of [d] is truthy, respectively falsy. *)
Definition all_present (d : gmap string pyval) : Prop :=
  ∀ p, p ∈ qualifying → truthy (read d p) = true.

Definition none_present (d : gmap string pyval) : Prop :=
  ∀ p, p ∈ qualifying → truthy (read d p) = false.

(** The 256 characters of the model. *)
Definition all_chars : list ascii := ascii_of_nat <$> seq 0 256.

(** [\b(w1|w2|..)\b] with [re.IGNORECASE]: the shape of the currency and
    of the billing cycle patterns. *)
Definition word_pattern (ws : list string) : pattern :=
  Pattern (cat [RWordB; RGroup 1 (alt (lit <$> ws)); RWordB]) true.

Definition cycle_words : list string :=
  ["monthly"; "quarterly"; "annually"; "yearly"; "weekly"].

Definition billing_cycle_of (text : string) : option pyval :=
  as_dict (_extract_revenue_classification text) !! "billing_cycle".

Definition payment_type_of (text : string) : option pyval :=
  as_dict (_extract_revenue_classification text) !! "payment_type".

Definition auto_renewal_of (text : string) : option pyval :=
  as_dict (_extract_revenue_classification text) !! "auto_renewal".

(** A text reads as the word [w] when case is ignored. *)
Definition same_letters (l : list ascii) (w : string) : Prop :=
  py_lower <$> l = py_lower <$> chars w.

(** The fields that the data model declares and no extractor assigns. *)
Definition unfilled_fields : list (string * string) :=
  [ ("party_identification", "registration_details");
    ("party_identification", "roles");
    ("account_information", "billing_details");
    ("financial_details", "line_items");
    ("financial_details", "additional_fees");
    ("payment_structure", "due_dates");
    ("payment_structure", "banking_details");
    ("revenue_classification", "renewal_terms");
    ("service_level_agreements", "support_terms");
    ("service_level_agreements", "maintenance_terms") ].

(** The captures of a list of patterns, as [findall] gives them. *)
Definition captures (ps : list pattern) (text : string) : list string :=
  found_str <$> findall_each ps text.

Definition signatories_of (text : string) : option pyval :=
  as_dict (_extract_party_info text) !! "signatories".

Definition account_numbers_in (text : string) : option pyval :=
  as_dict (_extract_account_info text) !! "account_numbers".

Definition payment_methods_of (text : string) : option pyval :=
  as_dict (_extract_payment_structure text) !! "payment_methods".

(** ** The data model of [models.py]

    The annotations of the response models, as far as the extracted data
    needs them: [Optional[t]] is [TOptional t], [List[t]] is [TList t],
    [Dict[str, t]] is [TDict t], a [BaseModel] is the list of its fields.
    Every field of the models below has a default, so a model admits a
    mapping that lacks a field. *)
Inductive ty : Type :=
| TStr
| TFloat
| TBool
| TAny
| TList (t : ty)
| TDict (t : ty)
| TOptional (t : ty)
| TModel (fields : list (string * ty)).

Definition PartyInfo : ty :=
  TModel [ ("name", TOptional TStr);
           ("legal_entity", TOptional TStr);
           ("registration_details", TOptional TStr);
           ("signatories", TOptional (TList TStr));
           ("roles", TOptional (TList TStr)) ].

Definition AccountInfo : ty :=
  TModel [ ("billing_details", TOptional TStr);
           ("account_numbers", TOptional (TList TStr));
           ("contact_info", TOptional (TDict TStr)) ].

Definition FinancialDetails : ty :=
  TModel [ ("line_items", TOptional (TList (TDict TAny)));
           ("total_value", TOptional TFloat);
           ("currency", TOptional TStr);
           ("tax_info", TOptional (TDict TAny));
           ("additional_fees", TOptional (TList (TDict TAny))) ].

Definition PaymentStructure : ty :=
  TModel [ ("payment_terms", TOptional TStr);
           ("due_dates", TOptional (TList TStr));
           ("payment_methods", TOptional (TList TStr));
           ("banking_details", TOptional (TDict TStr)) ].

Definition RevenueClassification : ty :=
  TModel [ ("payment_type", TOptional TStr);
           ("billing_cycle", TOptional TStr);
           ("renewal_terms", TOptional TStr);
           ("auto_renewal", TOptional TBool) ].

Definition ServiceLevelAgreement : ty :=
  TModel [ ("performance_metrics", TOptional (TList TStr));
           ("penalty_clauses", TOptional (TList TStr));
           ("support_terms", TOptional TStr);
           ("maintenance_terms", TOptional TStr) ].

Definition ExtractedData : ty :=
  TModel [ ("party_identification", TOptional PartyInfo);
           ("account_information", TOptional AccountInfo);
           ("financial_details", TOptional FinancialDetails);
           ("payment_structure", TOptional PaymentStructure);
           ("revenue_classification", TOptional RevenueClassification);
           ("service_level_agreements", TOptional ServiceLevelAgreement) ].

(** A value has the annotated type, with no conversion: a float for
    [float], a string for [str]. *)
Fixpoint conforms (t : ty) (v : pyval) {struct t} : bool :=
  match t with
  | TStr => match v with PStr _ => true | _ => false end
  | TFloat => match v with PFloat _ => true | _ => false end
  | TBool => match v with PBool _ => true | _ => false end
  | TAny => true
  | TList t' =>
      match v with
      | PList l => forallb (conforms t') l
      | _ => false
      end
  | TDict t' =>
      match v with
      | PDict m => forallb (fun kv => conforms t' kv.2) (map_to_list m)
      | _ => false
      end
  | TOptional t' =>
      match v with
      | PNone => true
      | _ => conforms t' v
      end
  | TModel fields =>
      match v with
      | PDict m =>
          (fix go (fs : list (string * ty)) : bool :=
             match fs with
             | [] => true
             | (f, t') :: fs' =>
                 match m !! f with
                 | Some x => conforms t' x
                 | None => true
                 end && go fs'
             end) fields
      | _ => false
      end
  end.

(** * The store, the task and the service

    [tasks/contract_tasks.py] and [services/contract_service.py] keep
    the contracts in two MongoDB collections.  A collection is the list
    of its documents in insertion order, a document a finite map from
    field names to values; the [_id] field, which every query projects
    away, is left out.  The calls to the database, to the task backend
    and to the logger are taken to return: what they can raise is the
    environment's, not this code's. *)

(** [class ContractStatus(str, Enum)] of [models.py] *)
Inductive ContractStatus : Type := PENDING | PROCESSING | COMPLETED | FAILED.

Definition status_value (s : ContractStatus) : string :=
  match s with
  | PENDING => "pending"
  | PROCESSING => "processing"
  | COMPLETED => "completed"
  | FAILED => "failed"
  end.

(** The values of the fields of a document. *)
Inductive dbval : Type :=
| VNull
| VStatus (s : ContractStatus)
| VTime (t : nat)
| VInt (n : Z)
| VStr (s : string)
| VBytes (b : list ascii)
| VData (d : gmap string pyval)
| VScores (s : gmap string Z)
| VGap (g : gmap string (list string)).

Abbreviation document := (gmap string dbval).

(** Truth value testing of a stored value. *)
Definition db_truthy (v : dbval) : bool :=
  match v with
  | VNull => false
  | VStatus _ => true
  | VTime _ => true
  | VInt n => negb (n =? 0)%Z
  | VStr s => negb (String.eqb s "")
  | VBytes b => match b with [] => false | _ => true end
  | VData d => negb (bool_decide (d = ∅))
  | VScores s => negb (bool_decide (s = ∅))
  | VGap g => negb (bool_decide (g = ∅))
  end.

Module Mongo.

(** The filter [{"contract_id": contract_id}]. *)
Definition matches (contract_id : string) (doc : document) : bool :=
  match doc !! "contract_id" with
  | Some (VStr s) => String.eqb s contract_id
  | _ => false
  end.

(** [find_one(filter)]: the first document that matches. *)
Fixpoint find_one (contract_id : string) (coll : list document)
    : option document :=
  match coll with
  | [] => None
  | doc :: coll' =>
      if matches contract_id doc then Some doc
      else find_one contract_id coll'
  end.

(** A projection [{k1: 1, .., "_id": 0}]: the named fields that the
    document has. *)
Definition project (keys : list string) (doc : document) : document :=
  list_to_map (omap (fun k => (fun v => (k, v)) <$> doc !! k) keys).

(** [update_one(filter, {"$set": update_doc})]: the first document that
    matches gets the fields of [update_doc]; without a match nothing
    changes. *)
Fixpoint update_one (contract_id : string) (update_doc : document)
    (coll : list document) : list document :=
  match coll with
  | [] => []
  | doc :: coll' =>
      if matches contract_id doc then (update_doc ∪ doc) :: coll'
      else doc :: update_one contract_id update_doc coll'
  end.

(** [insert_one(doc)] on a collection without a unique index. *)
Definition insert_one (doc : document) (coll : list document)
    : list document :=
  coll ++ [doc].

End Mongo.

(** The state that the task and the service work on: the two
    collections, the number of times the clock was read, the state last
    reported to the task backend, and the contracts whose processing was
    requested with [process_contract.delay]. *)
Record world : Type := World {
  contracts : list document;
  files : list document;
  clock_reads : nat;
  task_meta : option (Z * string);
  queued : list string
}.

(** What a [try] of the task or of the service can catch: an
    [Exception(message)] of the code's own or of the environment, an
    error of the parser's methods, or the [KeyError] of a subscript. *)
Inductive failure : Type :=
| Message (s : string)
| Raised (e : exn)
| KeyError (key : string).

(** Code that changes the state and can raise; the state a raising call
    leaves is kept. *)
Definition task (A : Type) : Type := world → world * (failure + A).

#[global] Instance task_ret : MRet task := fun A a w => (w, inr a).
#[global] Instance task_bind : MBind task := fun A B f m w =>
  match m w with
  | (w', inr a) => f a w'
  | (w', inl e) => (w', inl e)
  end.

Definition raise {A : Type} (e : failure) : task A := fun w => (w, inl e).
Definition modify (f : world → world) : task unit := fun w => (f w, inr tt).
Definition reading {A : Type} (f : world → A) : task A :=
  fun w => (w, inr (f w)).
Definition of_res {A : Type} (r : res A) : task A :=
  match r with
  | Ok a => mret a
  | Raise e => raise (Raised e)
  end.

(** [try: body except Exception as e: handler(e); raise] *)
Definition try_reraise {A : Type} (body : task A)
    (handler : failure → task unit) : task A :=
  fun w =>
    match body w with
    | (w', inr a) => (w', inr a)
    | (w', inl e) =>
        match handler e w' with
        | (w'', inr _) => (w'', inl e)
        | (w'', inl e') => (w'', inl e')
        end
    end.

Module Tasks.
Section Tasks.

(** The environment: the clock ([utcnow n] is the [n]-th reading),
    [pdfplumber] (on a file content, the text of each page, [None] for a
    page without text, or the message of what it raised), and the
    wording of the parser's errors. *)
Variable utcnow : nat → nat.
Variable pdfplumber : dbval → string + list (option string).
Variable str_exn : exn → string.

(** [str(e)] *)
Definition str_of (e : failure) : string :=
  match e with
  | Message s => s
  | Raised e => str_exn e
  | KeyError key => "'" +:+ key +:+ "'"
  end.

Definition get_file_content (contract_id : string) : task (option dbval) :=
  file_doc ← reading (fun w =>
    Mongo.project ["content"] <$> Mongo.find_one contract_id (files w));
  mret (match file_doc with
        | Some doc =>
            if bool_decide (doc = ∅) then None else doc !! "content"
        | None => None
        end).

Definition update_contract_status (contract_id : string)
    (status : ContractStatus) (progress_percentage : Z)
    (error_message : option string)
    (extracted_data : option (gmap string pyval))
    (confidence_scores : option (gmap string Z))
    (gap_analysis : option (gmap string (list string))) : task unit :=
  now ← reading (fun w => utcnow (clock_reads w));
  modify (fun w => World (contracts w) (files w) (S (clock_reads w))
                         (task_meta w) (queued w));;
  let update_doc : document :=
    <["progress_percentage" := VInt progress_percentage]>
    (<["updated_at" := VTime now]>
    (<["status" := VStatus status]> ∅)) in
  let update_doc :=
    match error_message with
    | Some m =>
        if db_truthy (VStr m) then <["error_message" := VStr m]> update_doc
        else update_doc
    | None => update_doc
    end in
  let update_doc :=
    match extracted_data with
    | Some d =>
        if db_truthy (VData d) then <["extracted_data" := VData d]> update_doc
        else update_doc
    | None => update_doc
    end in
  let update_doc :=
    match confidence_scores with
    | Some s =>
        if db_truthy (VScores s)
        then <["confidence_scores" := VScores s]> update_doc
        else update_doc
    | None => update_doc
    end in
  let update_doc :=
    match gap_analysis with
    | Some g =>
        if db_truthy (VGap g) then <["gap_analysis" := VGap g]> update_doc
        else update_doc
    | None => update_doc
    end in
  modify (fun w =>
    World (Mongo.update_one contract_id update_doc (contracts w))
          (files w) (clock_reads w) (task_meta w) (queued w)).

(** The loop over the pages: [text_content += page_text + "\n"] for the
    pages that have text. *)
Definition extract_pdf_text (file_content : dbval) : task string :=
  match pdfplumber file_content with
  | inr pages =>
      mret (fold_left
              (fun text_content page_text =>
                 match page_text with
                 | Some t =>
                     if String.eqb t "" then text_content
                     else text_content +:+ t +:+ str [newline]
                 | None => text_content
                 end) pages "")
  | inl e => raise (Message ("Failed to extract text from PDF: " +:+ e))
  end.

(** [current_task.update_state(state='PROGRESS', meta=..)] *)
Definition update_state (progress : Z) (status : string) : task unit :=
  modify (fun w => World (contracts w) (files w) (clock_reads w)
                         (Some (progress, status)) (queued w)).

Definition process_contract (contract_id : string)
    : task (list (string * string)) :=
  try_reraise
    (update_contract_status contract_id PROCESSING 10 None None None None;;
     file_content ← get_file_content contract_id;
     match file_content with
     | Some content =>
         if db_truthy content then
           update_state 30 "Extracting text from PDF";;
           text_content ← extract_pdf_text content;
           update_contract_status contract_id PROCESSING 50
                                  None None None None;;
           let parser := ContractParser in
           let extracted_data := parse_contract parser (PStr text_content) in
           update_contract_status contract_id PROCESSING 70
                                  None None None None;;
           confidence_scores ←
             of_res (calculate_confidence_scores extracted_data);
           gap_analysis ← of_res (perform_gap_analysis extracted_data);
           update_contract_status contract_id PROCESSING 90
                                  None None None None;;
           update_contract_status contract_id COMPLETED 100 None
             (Some extracted_data) (Some confidence_scores)
             (Some gap_analysis);;
           mret [("status", "completed"); ("contract_id", contract_id)]
         else raise (Message "File content not found")
     | None => raise (Message "File content not found")
     end)
    (fun e =>
       update_contract_status contract_id FAILED 0 (Some (str_of e))
                              None None None).

End Tasks.
End Tasks.

(** The content of the stored file, when there is one that passes
    [if not file_content]. *)
Definition usable_content (contract_id : string) (w : world)
    : option dbval :=
  match Mongo.find_one contract_id (files w) with
  | Some file_doc =>
      match file_doc !! "content" with
      | Some content => if db_truthy content then Some content else None
      | None => None
      end
  | None => None
  end.

(** The text of the pages that have some. *)
Definition pages_text (pages : list (option string)) : string :=
  fold_left
    (fun text_content page_text =>
       match page_text with
       | Some t =>
           if String.eqb t "" then text_content
           else text_content +:+ t +:+ str [newline]
       | None => text_content
       end) pages "".

(** The fields that every status update writes. *)
Definition status_fields (status : ContractStatus) (progress : Z)
    (now : nat) (doc : document) : document :=
  <["progress_percentage" := VInt progress]>
  (<["updated_at" := VTime now]>
  (<["status" := VStatus status]> doc)).

Definition contract_of (contract_id : string) (w : world)
    : option document :=
  Mongo.find_one contract_id (contracts w).

(** An optional argument of a status update: written when it is there
    and truthy. *)
Definition set_if (key : string) (v : option dbval) (doc : document)
    : document :=
  match v with
  | Some x => if db_truthy x then <[key := x]> doc else doc
  | None => doc
  end.

(** The [update_doc] of a status update. *)
Definition update_doc_of (status : ContractStatus) (progress_percentage : Z)
    (now : nat) (error_message : option string)
    (extracted_data : option (gmap string pyval))
    (confidence_scores : option (gmap string Z))
    (gap_analysis : option (gmap string (list string))) : document :=
  set_if "gap_analysis" (VGap <$> gap_analysis)
  (set_if "confidence_scores" (VScores <$> confidence_scores)
  (set_if "extracted_data" (VData <$> extracted_data)
  (set_if "error_message" (VStr <$> error_message)
  (status_fields status progress_percentage now ∅)))).

(** The fields a status update can write. *)
Definition status_keys : list string :=
  ["status"; "updated_at"; "progress_percentage"; "error_message";
   "extracted_data"; "confidence_scores"; "gap_analysis"].

(** What an optional argument leaves in a field that held [old]. *)
Definition written (v : option dbval) (old : option dbval) : option dbval :=
  match v with
  | Some x => if db_truthy x then Some x else old
  | None => old
  end.

(** Status updates of one contract, one after the other. *)
Definition updates (contract_id : string) (us : list document)
    (coll : list document) : list document :=
  fold_left (fun c u => Mongo.update_one contract_id u c) us coll.

(** A document after [$set] with each of [us] in turn. *)
Definition set_all (us : list document) (doc : document) : document :=
  fold_left (fun d u => u ∪ d) us doc.

(** The five updates of a run that completes, and the two of a run that
    fails with [msg], when the clock was read [n] times before. *)
Definition completed_updates (utcnow : nat → nat) (n : nat)
    (d : gmap string pyval) : list document :=
  [ update_doc_of PROCESSING 10 (utcnow n) None None None None;
    update_doc_of PROCESSING 50 (utcnow (1 + n)%nat) None None None None;
    update_doc_of PROCESSING 70 (utcnow (2 + n)%nat) None None None None;
    update_doc_of PROCESSING 90 (utcnow (3 + n)%nat) None None None None;
    update_doc_of COMPLETED 100 (utcnow (4 + n)%nat) None (Some d)
      (Some (score_table d)) (Some (gap_table d)) ].

Definition failed_updates (utcnow : nat → nat) (n : nat) (msg : string)
    : list document :=
  [ update_doc_of PROCESSING 10 (utcnow n) None None None None;
    update_doc_of FAILED 0 (utcnow (1 + n)%nat) (Some msg) None None None ].

Definition extracting : option (Z * string) :=
  Some (30%Z, "Extracting text from PDF").

(** A store with one pending contract and its file, and an environment
    in which the file reads as one page. *)
Definition sample_world : world :=
  World [ <["contract_id" := VStr "c-1"]>
          (<["filename" := VStr "a.pdf"]>
          (<["status" := VStatus PENDING]>
          (<["progress_percentage" := VInt 0]>
          (<["error_message" := VNull]> ∅)))) ]
        [ <["contract_id" := VStr "c-1"]>
          (<["filename" := VStr "a.pdf"]>
          (<["content" := VBytes (chars "%PDF")]> ∅)) ]
        0 None ["c-1"].

Definition sample_reader (content : dbval)
    : string + list (option string) :=
  match content with
  | VBytes _ => inr [Some "Payment terms: Net 30"; None]
  | _ => inl "not a file"
  end.

Definition sample_wording (e : exn) : string :=
  match e with
  | TypeError => "TypeError"
  | AttributeError => "AttributeError"
  end.

(** The same store with an empty file. *)
Definition empty_file_world : world :=
  World (contracts sample_world)
        [ <["contract_id" := VStr "c-1"]> (<["content" := VBytes []]> ∅) ]
        0 None ["c-1"].

(** ** [class ContractService] *)

(** What the service reads of an [UploadFile]. *)
Record UploadFile : Type := {
  filename : string;
  content_type : string;
  content : list ascii
}.

(** The result of [list_contracts]. *)
Record ContractList : Type := {
  list_contracts_of : list document;
  total : Z;
  page_of : Z;
  page_size_of : Z;
  total_pages : Z
}.

(** The filter [{"status": status}]: the status is stored by value. *)
Definition has_status (status : ContractStatus) (doc : document) : bool :=
  match doc !! "status" with
  | Some (VStatus s) => String.eqb (status_value s) (status_value status)
  | Some (VStr s) => String.eqb s (status_value status)
  | _ => false
  end.

Module Service.
Section Service.

(** The environment: the clock, the wording of the database's error for
    a second document with the same [contract_id] (the [contracts]
    collection has a unique index on it), and the order in which the
    database returns documents sorted by [created_at], newest first. *)
Variable utcnow : nat → nat.
Variable duplicate_key : string → string.
Variable newest_first : list document → list document.

Definition now : task nat :=
  t ← reading (fun w => utcnow (clock_reads w));
  modify (fun w => World (contracts w) (files w) (S (clock_reads w))
                         (task_meta w) (queued w));;
  mret t.

(** [contracts_collection.insert_one(doc)] under the unique index. *)
Definition insert_contract (contract_id : string) (doc : document)
    : task unit :=
  existing ← reading (fun w => Mongo.find_one contract_id (contracts w));
  match existing with
  | Some _ => raise (Message (duplicate_key contract_id))
  | None =>
      modify (fun w => World (Mongo.insert_one doc (contracts w)) (files w)
                             (clock_reads w) (task_meta w) (queued w))
  end.

(** [upload_contract]; [contract_id] stands for the identifier that
    [str(uuid.uuid4())] draws. *)
Definition upload_contract (contract_id : string) (file : UploadFile)
    (file_size : Z) : task string :=
  let content := VBytes (content file) in
  created_at ← now;
  let file_doc : document :=
    <["contract_id" := VStr contract_id]>
    (<["filename" := VStr (filename file)]>
    (<["content" := content]>
    (<["content_type" := VStr (content_type file)]>
    (<["size" := VInt file_size]>
    (<["created_at" := VTime created_at]> ∅))))) in
  modify (fun w => World (contracts w) (Mongo.insert_one file_doc (files w))
                         (clock_reads w) (task_meta w) (queued w));;
  created_at ← now;
  updated_at ← now;
  let contract_doc : document :=
    <["contract_id" := VStr contract_id]>
    (<["filename" := VStr (filename file)]>
    (<["file_size" := VInt file_size]>
    (<["status" := VStatus PENDING]>
    (<["created_at" := VTime created_at]>
    (<["updated_at" := VTime updated_at]>
    (<["progress_percentage" := VInt 0]>
    (<["error_message" := VNull]>
    (<["extracted_data" := VNull]>
    (<["confidence_scores" := VNull]>
    (<["gap_analysis" := VNull]> ∅)))))))))) in
  insert_contract contract_id contract_doc;;
  modify (fun w => World (contracts w) (files w) (clock_reads w)
                         (task_meta w) (queued w ++ [contract_id]));;
  mret contract_id.

Definition get_contract_status (contract_id : string)
    : task (option document) :=
  reading (fun w =>
    Mongo.project ["status"; "progress_percentage"; "error_message"]
      <$> Mongo.find_one contract_id (contracts w)).

Definition get_contract_data (contract_id : string)
    : task (option document) :=
  reading (fun w => Mongo.find_one contract_id (contracts w)).

(** [list_contracts] for the arguments that the router admits, [page]
    from 1 and [page_size] from 1 to 100. *)
Definition list_contracts (page page_size : Z)
    (status : option ContractStatus) : task ContractList :=
  let skip := ((page - 1) * page_size)%Z in
  let query_filter : document → bool :=
    match status with
    | Some s => has_status s
    | None => fun _ => true
    end in
  total ← reading (fun w =>
    Z.of_nat (length (List.filter query_filter (contracts w))));
  contracts ← reading (fun w =>
    take (Z.to_nat page_size)
      (drop (Z.to_nat skip)
         (newest_first (List.filter query_filter (contracts w)))));
  let total_pages := ((total + page_size - 1) / page_size)%Z in
  mret {| list_contracts_of := contracts;
          total := total;
          page_of := page;
          page_size_of := page_size;
          total_pages := total_pages |}.

Definition download_contract (contract_id : string)
    : task (option (dbval * dbval)) :=
  file_doc ← reading (fun w =>
    Mongo.project ["content"; "filename"]
      <$> Mongo.find_one contract_id (files w));
  match file_doc with
  | Some doc =>
      if bool_decide (doc = ∅) then mret None
      else
        match doc !! "content", doc !! "filename" with
        | Some c, Some f => mret (Some (c, f))
        | None, _ => raise (KeyError "content")
        | _, None => raise (KeyError "filename")
        end
  | None => mret None
  end.

Definition update_contract_status :=
  Tasks.update_contract_status utcnow.

End Service.
End Service.

(** The contracts that [list_contracts] counts. *)
Definition matching (status : option ContractStatus) (w : world)
    : list document :=
  List.filter (match status with
               | Some s => has_status s
               | None => fun _ => true
               end) (contracts w).

(** The contracts on one page. *)
Definition page_items (newest_first : list document → list document)
    (page_size : Z) (status : option ContractStatus) (w : world) (page : Z)
    : list document :=
  match (Service.list_contracts newest_first page page_size status w).2 with
  | inr r => list_contracts_of r
  | inl _ => []
  end.

(** The pages from 1 to [n]. *)
Definition pages_upto (n : Z) : list Z :=
  (fun i => Z.of_nat (S i)) <$> seq 0 (Z.to_nat n).

(** The two documents that an upload stores, when the clock was read
    [n] times before. *)
Definition file_doc_of (utcnow : nat → nat) (n : nat) (contract_id : string)
    (file : UploadFile) (file_size : Z) : document :=
  <["contract_id" := VStr contract_id]>
  (<["filename" := VStr (filename file)]>
  (<["content" := VBytes (content file)]>
  (<["content_type" := VStr (content_type file)]>
  (<["size" := VInt file_size]>
  (<["created_at" := VTime (utcnow n)]> ∅))))).

Definition contract_doc_of (utcnow : nat → nat) (n : nat)
    (contract_id : string) (file : UploadFile) (file_size : Z) : document :=
  <["contract_id" := VStr contract_id]>
  (<["filename" := VStr (filename file)]>
  (<["file_size" := VInt file_size]>
  (<["status" := VStatus PENDING]>
  (<["created_at" := VTime (utcnow (1 + n)%nat)]>
  (<["updated_at" := VTime (utcnow (2 + n)%nat)]>
  (<["progress_percentage" := VInt 0]>
  (<["error_message" := VNull]>
  (<["extracted_data" := VNull]>
  (<["confidence_scores" := VNull]>
  (<["gap_analysis" := VNull]> ∅)))))))))).

(** What the status query shows of a contract just uploaded. *)
Definition pending_status : document :=
  <["status" := VStatus PENDING]>
  (<["progress_percentage" := VInt 0]>
  (<["error_message" := VNull]> ∅)).

(** A store of three contracts, a sort by [created_at] and a file. *)
Definition created_at_of (doc : document) : nat :=
  match doc !! "created_at" with
  | Some (VTime t) => t
  | _ => 0%nat
  end.

Fixpoint insert_newest (doc : document) (l : list document)
    : list document :=
  match l with
  | [] => [doc]
  | x :: l' =>
      if (created_at_of x <? created_at_of doc)%nat then doc :: l
      else x :: insert_newest doc l'
  end.

Definition sample_newest_first (l : list document) : list document :=
  foldr insert_newest [] l.

Definition sample_listing : world :=
  World [ <["contract_id" := VStr "c-1"]> (<["created_at" := VTime 1]> ∅);
          <["contract_id" := VStr "c-2"]> (<["created_at" := VTime 3]> ∅);
          <["contract_id" := VStr "c-3"]> (<["created_at" := VTime 2]> ∅) ]
        [] 0 None [].

Definition sample_file : UploadFile :=
  {| filename := "a.pdf";
     content_type := "application/pdf";
     content := chars "%PDF" |}.

Definition empty_world : world := World [] [] 0 None [].

(** ** The router *)

(** What an endpoint answers: the value it returns, or the
    [HTTPException] it raises. *)
Inductive http (A : Type) : Type :=
| Returns (a : A)
| HTTPException (status_code : Z) (detail : string).
Arguments Returns {A} a.
Arguments HTTPException {A} status_code detail.

(** [ContractUploadResponse] *)
Record UploadResponse : Type := {
  upload_contract_id : string;
  upload_message : string;
  upload_status : ContractStatus
}.

(** [value != ContractStatus.COMPLETED] is false for these. *)
Definition is_completed (v : dbval) : bool :=
  match v with
  | VStatus s => String.eqb (status_value s) (status_value COMPLETED)
  | VStr s => String.eqb s (status_value COMPLETED)
  | _ => false
  end.

(** [if not d] for an optional document. *)
Definition no_document (d : option document) : bool :=
  match d with
  | Some doc => bool_decide (doc = ∅)
  | None => true
  end.

Module Router.
Section Router.

(** The environment of the service, the wording of errors ([str(e)] for
    an [HTTPException] and for the parser's errors, the text of a stored
    value in an f-string), and the constructors of the response models,
    which validate their arguments. *)
Variable utcnow : nat → nat.
Variable duplicate_key : string → string.
Variable newest_first : list document → list document.
Variable str_exn : exn → string.
Variable str_http : Z → string → string.
Variable str_value : dbval → string.
Variable StatusModel DataModel ListModel : Type.
Variable ContractStatusResponse :
  string → dbval → dbval → dbval → failure + StatusModel.
Variable ContractResponse : document → failure + DataModel.
Variable ContractListResponse : ContractList → failure + ListModel.

(** What the body of a [try] can raise. *)
Inductive raised : Type :=
| Http (status_code : Z) (detail : string)
| Other (e : failure).

Definition str_raised (e : raised) : string :=
  match e with
  | Http status_code detail => str_http status_code detail
  | Other e => Tasks.str_of str_exn e
  end.

(** [except Exception as e: raise HTTPException(500, str(e))]: it
    catches an [HTTPException] of the body too. *)
Definition except_all {A : Type} (body : raised + A) : http A :=
  match body with
  | inr a => Returns a
  | inl e => HTTPException 500 (str_raised e)
  end.

(** [except HTTPException: raise] before it. *)
Definition except_http_first {A : Type} (body : raised + A) : http A :=
  match body with
  | inr a => Returns a
  | inl (Http status_code detail) => HTTPException status_code detail
  | inl (Other e) => HTTPException 500 (Tasks.str_of str_exn e)
  end.

Definition of_failure {A : Type} (r : failure + A) : raised + A :=
  match r with
  | inr a => inr a
  | inl e => inl (Other e)
  end.

(** [upload_contract]; [contract_id] is the identifier the service
    draws. *)
Definition upload_contract (contract_id : string) (file : UploadFile)
    (w : world) : world * http UploadResponse :=
  if negb (String.eqb (content_type file) "application/pdf")
  then (w, HTTPException 400 "Only PDF files are supported")
  else
    let file_size := Z.of_nat (length (content file)) in
    if (50 * 1024 * 1024 <? file_size)%Z
    then (w, HTTPException 400 "File size exceeds 50MB limit")
    else
      let '(w', r) :=
        Service.upload_contract utcnow duplicate_key contract_id file
          file_size w in
      (w', except_all
             (match of_failure r with
              | inr contract_id =>
                  inr {| upload_contract_id := contract_id;
                         upload_message :=
                           "Contract uploaded successfully. Processing started.";
                         upload_status := PENDING |}
              | inl e => inl e
              end)).

Definition get_contract_status (contract_id : string) (w : world)
    : http StatusModel :=
  except_all
    (let status_info := (Service.get_contract_status contract_id w).2 in
     match status_info with
     | inl e => inl (Other e)
     | inr status_info =>
         if no_document status_info
         then inl (Http 404 "Contract not found")
         else
           let doc := default ∅ status_info in
           match doc !! "status" with
           | None => inl (Other (KeyError "status"))
           | Some status =>
               of_failure
                 (ContractStatusResponse contract_id status
                    (default (VInt 0) (doc !! "progress_percentage"))
                    (default VNull (doc !! "error_message")))
           end
     end).

Definition get_contract_data (contract_id : string) (w : world)
    : http DataModel :=
  except_http_first
    (let contract_data := (Service.get_contract_data contract_id w).2 in
     match contract_data with
     | inl e => inl (Other e)
     | inr contract_data =>
         if no_document contract_data
         then inl (Http 404 "Contract not found")
         else
           let doc := default ∅ contract_data in
           match doc !! "status" with
           | None => inl (Other (KeyError "status"))
           | Some status =>
               if is_completed status
               then of_failure (ContractResponse doc)
               else inl (Http 400
                           ("Contract data not available. Status: "
                            +:+ str_value status))
           end
     end).

Definition list_contracts (page page_size : Z)
    (status : option ContractStatus) (w : world) : http ListModel :=
  except_all
    (match (Service.list_contracts newest_first page page_size status w).2
     with
     | inl e => inl (Other e)
     | inr contracts_data => of_failure (ContractListResponse contracts_data)
     end).

(** [download_contract]: the content and the [Content-Disposition]
    header of the [StreamingResponse]. *)
Definition download_contract (contract_id : string) (w : world)
    : http (list ascii * string) :=
  except_http_first
    (match (Service.download_contract contract_id w).2 with
     | inl e => inl (Other e)
     | inr None => inl (Http 404 "Contract not found")
     | inr (Some (file_content, filename)) =>
         match file_content with
         | VBytes b =>
             inr (b, "attachment; filename=" +:+ str_value filename)
         | _ => inl (Other (Raised TypeError))
         end
     end).

End Router.
End Router.

(** Pages without text, as a scanned document has them. *)
Definition textless (pages : list (option string)) : Prop :=
  Forall (fun page_text => page_text = None ∨ page_text = Some "") pages.

(** Data in which one section is present and null, as the dictionary of
    an [ExtractedData] has it for a section that was not given, and data
    whose account section has a null [contact_info]. *)
Definition null_section (sec : string) : gmap string pyval :=
  <[sec := PNone]> ∅.

Definition null_contact_info : gmap string pyval :=
  <["account_information" := PDict (<["contact_info" := PNone]> ∅)]> ∅.

(** * Properties *)

(** Closes an equation between closed terms by evaluation. *)
Ltac vm_eq :=
  lazymatch goal with
  | |- @eq ?A ?l ?r => vm_cast_no_check (@eq_refl A r)
  end.

Lemma py_get_dict (v : pyval) (key : string) (dflt : pyval) :
  is_dict v = true →
  py_get v key dflt = Ok (default dflt (as_dict v !! key)).
Proof. destruct v; simpl; intros H; try discriminate; reflexivity. Qed.

Lemma sections_ok_inv (d : gmap string pyval) :
  sections_ok d = true →
  is_dict (section d "financial_details") = true
  ∧ is_dict (section d "party_identification") = true
  ∧ is_dict (section d "payment_structure") = true
  ∧ is_dict (section d "service_level_agreements") = true
  ∧ account_ok (section d "account_information") = true.
Proof.
  unfold sections_ok. rewrite !andb_true_iff. tauto.
Qed.

Lemma account_get (v : pyval) (key : string) (dflt other : pyval) :
  account_ok v = true →
  (if truthy v then py_get v key dflt else Ok other)
  = Ok (if truthy v then default dflt (as_dict v !! key) else other).
Proof.
  unfold account_ok. intros H. destruct (truthy v) eqn:Ht.
  - apply py_get_dict. rewrite orb_false_r in H. exact H.
  - reflexivity.
Qed.

(** On well-formed data the scorer does not raise, and its table is the
    initial one after the fifteen credits. *)
Lemma scorer_runs (d : gmap string pyval) :
  well_formed d = true →
  calculate_confidence_scores d
  = Ok (<["overall_score" :=
           (sum_values (credited d)
            - default 0 (credited d !! "overall_score"))%Z]> (credited d)).
Proof.
  unfold well_formed. rewrite andb_true_iff. intros [Hs Hc].
  destruct (sections_ok_inv d Hs) as (Hf & Hp & Hy & Hl & Ha).
  unfold calculate_confidence_scores.
  rewrite !(py_get_dict (section d "financial_details")) by exact Hf.
  rewrite !(py_get_dict (section d "party_identification")) by exact Hp.
  rewrite !(py_get_dict (section d "payment_structure")) by exact Hy.
  rewrite !(py_get_dict (section d "service_level_agreements")) by exact Hl.
  simpl mbind.
  rewrite !account_get by exact Ha.
  simpl mbind.
  fold (contact_info_of d).
  rewrite !(py_get_dict (contact_info_of d)) by exact Hc.
  reflexivity.
Qed.

Lemma credit_lookup_eq (v : pyval) (k : string) (w : Z)
    (m : gmap string Z) (x : Z) :
  m !! k = Some x → credit v k w m !! k = Some (x + weight v w)%Z.
Proof.
  intros H. unfold credit, weight. destruct (truthy v).
  - rewrite lookup_alter_eq, H. reflexivity.
  - rewrite H. f_equal. lia.
Qed.

Lemma credit_lookup_ne (v : pyval) (k k' : string) (w : Z)
    (m : gmap string Z) :
  k ≠ k' → credit v k w m !! k' = m !! k'.
Proof.
  intros H. unfold credit. destruct (truthy v); [|reflexivity].
  apply lookup_alter_ne. exact H.
Qed.

Lemma sum_values_split (m : gmap string Z) (k : string) (x : Z) :
  m !! k = Some x → sum_values m = (sum_values (delete k m) + x)%Z.
Proof.
  intros H. unfold sum_values.
  apply (map_fold_delete_L (fun _ v acc => (acc + v)%Z)); [|exact H].
  intros. lia.
Qed.

Lemma sum_values_credit (v : pyval) (k : string) (w : Z)
    (m : gmap string Z) (x : Z) :
  m !! k = Some x →
  sum_values (credit v k w m) = (sum_values m + weight v w)%Z.
Proof.
  intros H.
  rewrite (sum_values_split (credit v k w m) k (x + weight v w)%Z)
    by (apply credit_lookup_eq; exact H).
  rewrite (sum_values_split m k x) by exact H.
  assert (delete k (credit v k w m) = delete k m) as ->.
  { unfold credit. destruct (truthy v); [|reflexivity].
    apply map_eq. intros j. destruct (decide (k = j)) as [->|Hne].
    - rewrite !lookup_delete_eq. reflexivity.
    - rewrite !lookup_delete_ne by exact Hne.
      apply lookup_alter_ne. exact Hne. }
  lia.
Qed.

Ltac credit_lookup :=
  unfold credited;
  repeat first
    [ rewrite credit_lookup_ne by discriminate
    | erewrite credit_lookup_eq; [reflexivity|] ];
  reflexivity.

Lemma credited_financial (d : gmap string pyval) :
  credited d !! "financial_completeness" = Some (financial_points d).
Proof.
  transitivity
    (Some (0 + weight (field d "financial_details" "total_value") 15
           + weight (field d "financial_details" "currency") 5
           + weight (field d "financial_details" "line_items") 10)%Z);
    [credit_lookup | reflexivity].
Qed.

Lemma credited_party (d : gmap string pyval) :
  credited d !! "party_identification" = Some (party_points d).
Proof.
  transitivity
    (Some (0 + weight (field d "party_identification" "name") 10
           + weight (field d "party_identification" "legal_entity") 8
           + weight (field d "party_identification" "signatories") 7)%Z);
    [credit_lookup | reflexivity].
Qed.

Lemma credited_payment (d : gmap string pyval) :
  credited d !! "payment_terms_clarity" = Some (payment_points d).
Proof.
  transitivity
    (Some (0 + weight (field d "payment_structure" "payment_terms") 10
           + weight (field d "payment_structure" "payment_methods") 5
           + weight (field d "payment_structure" "due_dates") 5)%Z);
    [credit_lookup | reflexivity].
Qed.

Lemma credited_sla (d : gmap string pyval) :
  credited d !! "sla_definition" = Some (sla_points d).
Proof.
  transitivity
    (Some (0 + weight (field d "service_level_agreements"
                               "performance_metrics") 8
           + weight (field d "service_level_agreements" "penalty_clauses") 4
           + weight (field d "service_level_agreements" "support_terms") 3)%Z);
    [credit_lookup | reflexivity].
Qed.

Lemma credited_contact (d : gmap string pyval) :
  credited d !! "contact_information" = Some (contact_points d).
Proof.
  transitivity
    (Some (0 + weight (default PNone
                         (as_dict (contact_info_of d) !! "email")) 5
           + weight (default PNone
                       (as_dict (contact_info_of d) !! "phone")) 3
           + weight (account_numbers_of d) 2)%Z);
    [credit_lookup | reflexivity].
Qed.

Lemma credited_overall (d : gmap string pyval) :
  credited d !! "overall_score" = Some 0%Z.
Proof. credit_lookup. Qed.

Lemma credited_other (d : gmap string pyval) (k : string) :
  k ∉ ["financial_completeness"; "party_identification";
       "payment_terms_clarity"; "sla_definition"; "contact_information";
       "overall_score"] →
  credited d !! k = None.
Proof.
  intros Hk. rewrite !not_elem_of_cons in Hk.
  destruct Hk as (H1 & H2 & H3 & H4 & H5 & H6 & _).
  unfold credited.
  repeat first [ rewrite credit_lookup_ne by congruence ].
  unfold initial_scores.
  repeat rewrite lookup_insert_ne by congruence.
  apply lookup_empty.
Qed.

Lemma sum_values_credited (d : gmap string pyval) :
  sum_values (credited d)
  = (financial_points d + party_points d + payment_points d
     + sla_points d + contact_points d)%Z.
Proof.
  unfold credited.
  repeat (erewrite sum_values_credit; [|credit_lookup]).
  change (sum_values initial_scores) with 0%Z.
  unfold financial_points, party_points, payment_points, sla_points,
    contact_points.
  lia.
Qed.

Lemma scorer_table (d : gmap string pyval) :
  well_formed d = true →
  calculate_confidence_scores d = Ok (score_table d).
Proof.
  intros H. rewrite (scorer_runs d H). unfold score_table.
  rewrite sum_values_credited, credited_overall. simpl default.
  rewrite Z.sub_0_r. reflexivity.
Qed.

Lemma score_table_lookup (d : gmap string pyval) :
  score_table d !! "financial_completeness" = Some (financial_points d)
  ∧ score_table d !! "party_identification" = Some (party_points d)
  ∧ score_table d !! "payment_terms_clarity" = Some (payment_points d)
  ∧ score_table d !! "sla_definition" = Some (sla_points d)
  ∧ score_table d !! "contact_information" = Some (contact_points d)
  ∧ score_table d !! "overall_score"
    = Some (financial_points d + party_points d + payment_points d
            + sla_points d + contact_points d)%Z.
Proof.
  unfold score_table.
  repeat split;
    try (rewrite lookup_insert_ne by discriminate;
         first [ apply credited_financial | apply credited_party
               | apply credited_payment | apply credited_sla
               | apply credited_contact ]).
  apply lookup_insert_eq.
Qed.

Lemma weight_bounds (v : pyval) (w : Z) :
  (0 ≤ w)%Z → (0 ≤ weight v w ≤ w)%Z.
Proof. unfold weight. destruct (truthy v); lia. Qed.

(** The score bounds wherever the scorer returns.  On every
    extracted-data mapping whose sections, where present, are mappings
    (sections may be missing or empty), the scorer returns
    a table in which each of the five sub-scores lies between 0 and its
    maximum (financial 30, party 25, payment 20, sla 15, contact 10) and
    the overall score is exactly their sum, hence between 0 and 100. *)
Theorem score_bounds (d : gmap string pyval) :
  well_formed d = true →
  ∃ (s : gmap string Z) (f p y l c o : Z),
    calculate_confidence_scores d = Ok s
    ∧ s !! "financial_completeness" = Some f
    ∧ s !! "party_identification" = Some p
    ∧ s !! "payment_terms_clarity" = Some y
    ∧ s !! "sla_definition" = Some l
    ∧ s !! "contact_information" = Some c
    ∧ s !! "overall_score" = Some o
    ∧ (0 ≤ f ≤ 30)%Z ∧ (0 ≤ p ≤ 25)%Z ∧ (0 ≤ y ≤ 20)%Z
    ∧ (0 ≤ l ≤ 15)%Z ∧ (0 ≤ c ≤ 10)%Z
    ∧ o = (f + p + y + l + c)%Z ∧ (0 ≤ o ≤ 100)%Z.
Proof.
  intros H.
  destruct (score_table_lookup d) as (Hf & Hp & Hy & Hl & Hc & Ho).
  exists (score_table d), (financial_points d), (party_points d),
    (payment_points d), (sla_points d), (contact_points d),
    (financial_points d + party_points d + payment_points d
     + sla_points d + contact_points d)%Z.
  split; [apply scorer_table; exact H|].
  do 6 (split; [assumption|]).
  assert (0 ≤ financial_points d ≤ 30)%Z as Bf.
  { unfold financial_points.
    pose proof (weight_bounds (field d "financial_details" "total_value") 15).
    pose proof (weight_bounds (field d "financial_details" "currency") 5).
    pose proof (weight_bounds (field d "financial_details" "line_items") 10).
    lia. }
  assert (0 ≤ party_points d ≤ 25)%Z as Bp.
  { unfold party_points.
    pose proof (weight_bounds (field d "party_identification" "name") 10).
    pose proof
      (weight_bounds (field d "party_identification" "legal_entity") 8).
    pose proof
      (weight_bounds (field d "party_identification" "signatories") 7).
    lia. }
  assert (0 ≤ payment_points d ≤ 20)%Z as By.
  { unfold payment_points.
    pose proof
      (weight_bounds (field d "payment_structure" "payment_terms") 10).
    pose proof
      (weight_bounds (field d "payment_structure" "payment_methods") 5).
    pose proof (weight_bounds (field d "payment_structure" "due_dates") 5).
    lia. }
  assert (0 ≤ sla_points d ≤ 15)%Z as Bl.
  { unfold sla_points.
    pose proof (weight_bounds
      (field d "service_level_agreements" "performance_metrics") 8).
    pose proof (weight_bounds
      (field d "service_level_agreements" "penalty_clauses") 4).
    pose proof (weight_bounds
      (field d "service_level_agreements" "support_terms") 3).
    lia. }
  assert (0 ≤ contact_points d ≤ 10)%Z as Bc.
  { unfold contact_points.
    pose proof (weight_bounds
      (default PNone (as_dict (contact_info_of d) !! "email")) 5).
    pose proof (weight_bounds
      (default PNone (as_dict (contact_info_of d) !! "phone")) 3).
    pose proof (weight_bounds (account_numbers_of d) 2).
    lia. }
  repeat split; lia.
Qed.

Lemma score_bounds_witness :
  well_formed complete_data = true
  ∧ ∃ (s : gmap string Z) (f p y l c o : Z),
      calculate_confidence_scores complete_data = Ok s
      ∧ s !! "financial_completeness" = Some f
      ∧ s !! "party_identification" = Some p
      ∧ s !! "payment_terms_clarity" = Some y
      ∧ s !! "sla_definition" = Some l
      ∧ s !! "contact_information" = Some c
      ∧ s !! "overall_score" = Some o
      ∧ (0 ≤ f ≤ 30)%Z ∧ (0 ≤ p ≤ 25)%Z ∧ (0 ≤ y ≤ 20)%Z
      ∧ (0 ≤ l ≤ 15)%Z ∧ (0 ≤ c ≤ 10)%Z
      ∧ o = (f + p + y + l + c)%Z ∧ (0 ≤ o ≤ 100)%Z.
Proof.
  split; [vm_eq|].
  apply (score_bounds complete_data). vm_eq.
Defined.

(** The complete fixture of the unit tests reaches every maximum. *)
Example score_complete_data :
  calculate_confidence_scores complete_data = Ok (score_table complete_data)
  ∧ score_table complete_data !! "financial_completeness" = Some 30%Z
  ∧ score_table complete_data !! "party_identification" = Some 25%Z
  ∧ score_table complete_data !! "payment_terms_clarity" = Some 20%Z
  ∧ score_table complete_data !! "sla_definition" = Some 15%Z
  ∧ score_table complete_data !! "contact_information" = Some 10%Z
  ∧ score_table complete_data !! "overall_score" = Some 100%Z.
Proof. repeat split; vm_eq. Qed.

(** Missing sections score 0 throughout. *)
Example score_no_section :
  well_formed ∅ = true
  ∧ calculate_confidence_scores ∅ = Ok (score_table ∅)
  ∧ score_table ∅ !! "overall_score" = Some 0%Z.
Proof. repeat split; vm_eq. Qed.

(** C3 (a defect of the code).  A section that is present and null is
    extracted data by [models.py], where every section is optional with
    [None] as its default.  On such data the scorer raises
    [AttributeError] for each of the four sections it reads with a bare
    [.get(section, {})], and for a null [contact_info]; for the account
    section, which the same function guards with [if account], and for
    a section that is missing or empty, it returns the table of zeros. *)
Theorem score_null_section :
  Forall (fun sec =>
            conforms ExtractedData (PDict (null_section sec)) = true
            ∧ well_formed (null_section sec) = false
            ∧ calculate_confidence_scores (null_section sec)
              = Raise AttributeError)
         ["financial_details"; "party_identification"; "payment_structure";
          "service_level_agreements"]
  ∧ conforms ExtractedData (PDict null_contact_info) = true
  ∧ calculate_confidence_scores null_contact_info = Raise AttributeError
  ∧ calculate_confidence_scores (null_section "account_information")
    = Ok (score_table ∅)
  ∧ calculate_confidence_scores ∅ = Ok (score_table ∅)
  ∧ calculate_confidence_scores (<["financial_details" := PDict ∅]> ∅)
    = Ok (score_table ∅)
  ∧ score_table ∅ !! "overall_score" = Some 0%Z.
Proof.
  split.
  { repeat (apply Forall_cons; split; [repeat split; vm_eq|]).
    apply Forall_nil_2. }
  repeat split; vm_eq.
Qed.

(** ** The gap analyser on well-formed data *)

Lemma gap_runs (d : gmap string pyval) :
  sections_ok d = true →
  perform_gap_analysis d = Ok (gap_table d).
Proof.
  intros Hs.
  destruct (sections_ok_inv d Hs) as (Hf & Hp & Hy & Hl & Ha).
  unfold perform_gap_analysis.
  rewrite !(py_get_dict (section d "financial_details")) by exact Hf.
  rewrite !(py_get_dict (section d "party_identification")) by exact Hp.
  rewrite !(py_get_dict (section d "payment_structure")) by exact Hy.
  rewrite !(py_get_dict (section d "service_level_agreements")) by exact Hl.
  simpl mbind.
  rewrite !account_get by exact Ha.
  simpl mbind.
  unfold gap_table, mret, res_ret. f_equal.
  fold (field d "financial_details" "total_value").
  fold (field d "financial_details" "line_items").
  fold (field d "party_identification" "name").
  fold (field d "party_identification" "signatories").
  fold (field d "payment_structure" "payment_methods").
  fold (field d "payment_structure" "payment_terms").
  fold (field d "service_level_agreements" "performance_metrics").
  fold (field d "financial_details" "tax_info").
  fold (contact_check d).
  fold (missing_of d). fold (incomplete_of d).
  f_equal.
  unfold rule_a, rule_b, rule_c, unless.
  destruct (truthy (field d "financial_details" "total_value"));
    destruct (5 <? length (missing_of d))%nat;
    destruct (missing_of d); simpl; rewrite ?app_nil_r; reflexivity.
Qed.

(** C9. On data whose sections are mappings the analyser returns, and
    its recommendations are what three rules contribute, in this order:
    (a) the documentation request when some field is missing, (b) the
    manual review when more than five are, (c) the value verification
    when the total value is absent; so there are between 0 and 3 of
    them. *)
Theorem recommendations_rules (d : gmap string pyval) :
  sections_ok d = true →
  ∃ (g : gmap string (list string)) (missing recs : list string),
    perform_gap_analysis d = Ok g
    ∧ g !! "missing_fields" = Some missing
    ∧ g !! "recommendations" = Some recs
    ∧ recs = rule_a missing ++ rule_b missing ++ rule_c d
    ∧ (0 ≤ length recs ≤ 3)%nat.
Proof.
  intros H.
  exists (gap_table d), (missing_of d),
    (rule_a (missing_of d) ++ rule_b (missing_of d) ++ rule_c d).
  split; [apply gap_runs; exact H|].
  split; [reflexivity|]. split; [reflexivity|]. split; [reflexivity|].
  rewrite !length_app. unfold rule_a, rule_b, rule_c.
  destruct (missing_of d); destruct (5 <? _)%nat;
    destruct (truthy _); simpl; lia.
Qed.

Lemma recommendations_rules_witness :
  sections_ok minimal_data = true
  ∧ ∃ (g : gmap string (list string)) (missing recs : list string),
      perform_gap_analysis minimal_data = Ok g
      ∧ g !! "missing_fields" = Some missing
      ∧ g !! "recommendations" = Some recs
      ∧ recs = rule_a missing ++ rule_b missing ++ rule_c minimal_data
      ∧ (0 ≤ length recs ≤ 3)%nat.
Proof.
  split; [vm_eq|].
  apply (recommendations_rules minimal_data). vm_eq.
Defined.

(** Both ends of the range are met: three recommendations on the
    minimal fixture, none on the complete one. *)
Example recommendations_minimal :
  ∃ g, perform_gap_analysis minimal_data = Ok g
       ∧ g !! "recommendations"
         = Some [rec_documentation; rec_manual_review; rec_verify_value].
Proof. exists (gap_table minimal_data). split; vm_eq. Qed.

Example recommendations_complete :
  ∃ g, perform_gap_analysis complete_data = Ok g
       ∧ g !! "recommendations" = Some [].
Proof. exists (gap_table complete_data). split; vm_eq. Qed.

(** ** Scoring and gap reporting agree *)

Lemma elem_of_unless (x : string) (v : pyval) (label : string)
    (labels : list string) :
  x ∈ unless v label labels ↔ x ∈ labels ∨ (truthy v = false ∧ x = label).
Proof.
  unfold unless. destruct (truthy v).
  - split; [auto|]. intros [H|[H _]]; [exact H | discriminate].
  - rewrite elem_of_app, list_elem_of_singleton. split.
    + intros [H|H]; auto.
    + intros [H|[_ H]]; auto.
Qed.




(** ** [parse_contract] *)

(** On a string no step of [parse_contract] raises: the result is the
    display of the six extractors on the normalised text. *)
Lemma parse_contract_str (text : string) :
  parse_contract_try ContractParser (PStr text) = Ok (extract (normalize text))
  ∧ parse_contract ContractParser (PStr text) = extract (normalize text).
Proof. split; reflexivity. Qed.

Lemma six_sections_lookup (p a f y r l : pyval) :
  let d := six_sections p a f y r l in
  section d "party_identification" = p
  ∧ section d "account_information" = a
  ∧ section d "financial_details" = f
  ∧ section d "payment_structure" = y
  ∧ section d "revenue_classification" = r
  ∧ section d "service_level_agreements" = l.
Proof.
  unfold section, six_sections. cbv zeta.
  repeat split;
    repeat first [ rewrite lookup_insert_eq | rewrite lookup_insert_ne by discriminate ];
    reflexivity.
Qed.

Lemma Ok_inj {A : Type} (a b : A) : Ok a = Ok b → a = b.
Proof. intros H. injection H. auto. Qed.

(** C1 (as amended). On the empty text [parse_contract] does not raise
    and returns the six sections with their initial fields: everything
    null or empty except the currency, which is USD, and [auto_renewal],
    which is false.  The scorer gives this 5 points for the currency, so
    the overall score is 5. *)
Theorem empty_text_scores_five :
  parse_contract_try ContractParser (PStr "") = Ok default_data
  ∧ parse_contract ContractParser (PStr "") = default_data
  ∧ ∃ s, calculate_confidence_scores default_data = Ok s
         ∧ s !! "financial_completeness" = Some 5%Z
         ∧ s !! "party_identification" = Some 0%Z
         ∧ s !! "payment_terms_clarity" = Some 0%Z
         ∧ s !! "sla_definition" = Some 0%Z
         ∧ s !! "contact_information" = Some 0%Z
         ∧ s !! "overall_score" = Some 5%Z.
Proof.
  split; [vm_eq|].
  split; [vm_eq|].
  exists (score_table default_data). split; [vm_eq|].
  repeat split; vm_eq.
Qed.

(** C1 as stated fails: the score of the parse of the empty text is not
    0. *)
Lemma empty_text_score_not_zero :
  ¬ ∃ s, calculate_confidence_scores
           (parse_contract ContractParser (PStr "")) = Ok s
         ∧ s !! "overall_score" = Some 0%Z.
Proof.
  intros (s & Hs & H0).
  assert (calculate_confidence_scores
            (parse_contract ContractParser (PStr ""))
          = Ok (score_table default_data)) as E
    by (vm_eq).
  rewrite E in Hs. apply Ok_inj in Hs. subst s.
  assert (score_table default_data !! "overall_score" = Some 5%Z) as H5
    by vm_eq.
  rewrite H5 in H0. clear E H5. discriminate H0.
Qed.

Lemma raise_bind {A B : Type} (m : res A) (f : A → res B) (e : exn) :
  m = Raise e → m ≫= f = Raise e.
Proof. intros ->. reflexivity. Qed.

Lemma step_raises_try (self : parser) (text_content : pyval) :
  step_raises self text_content →
  raises (parse_contract_try self text_content).
Proof.
  unfold step_raises, raises, parse_contract_try.
  intros [[e He]|(t & Ht & H)].
  - exists e. rewrite He. reflexivity.
  - rewrite Ht. simpl.
    destruct (extract_party_info self t) as [p|e];
      [|exists e; reflexivity].
    destruct (extract_account_info self t) as [a|e];
      [|exists e; reflexivity].
    destruct (extract_financial_details self t) as [f|e];
      [|exists e; reflexivity].
    destruct (extract_payment_structure self t) as [y|e];
      [|exists e; reflexivity].
    destruct (extract_revenue_classification self t) as [r|e];
      [|exists e; reflexivity].
    destruct (extract_sla_info self t) as [l|e];
      [|exists e; reflexivity].
    destruct H as [[e He]|[[e He]|[[e He]|[[e He]|[[e He]|[e He]]]]]];
      discriminate.
Qed.

(** C2 (as amended). Whatever the methods of the parser do and whatever
    the input is, when a step of the body raises, [parse_contract]
    returns [_get_empty_extracted_data()]: the six section names, each
    with an empty mapping, that is with none of its fields. *)
Theorem parse_contract_fail_soft (self : parser) (text_content : pyval) :
  step_raises self text_content →
  parse_contract self text_content = _get_empty_extracted_data
  ∧ sections_empty (parse_contract self text_content)
  ∧ dom (parse_contract self text_content)
    = list_to_set (fst <$> section_fields).
Proof.
  intros H. apply step_raises_try in H. destruct H as [e He].
  assert (parse_contract self text_content = _get_empty_extracted_data)
    as -> by (unfold parse_contract; rewrite He; reflexivity).
  split; [reflexivity|]. split.
  - intros sec fs Hin. unfold section_fields in Hin.
    rewrite !elem_of_cons, elem_of_nil in Hin.
    destruct Hin as [Hin|[Hin|[Hin|[Hin|[Hin|[Hin|[]]]]]]];
      injection Hin as -> _; vm_eq.
  - vm_eq.
Qed.

Lemma parse_contract_fail_soft_witness :
  step_raises ContractParser PNone
  ∧ step_raises failing_parser (PStr "Net 30")
  ∧ parse_contract ContractParser PNone = _get_empty_extracted_data
  ∧ sections_empty (parse_contract ContractParser PNone)
  ∧ dom (parse_contract ContractParser PNone)
    = list_to_set (fst <$> section_fields).
Proof.
  assert (step_raises ContractParser PNone) as H.
  { left. exists TypeError. reflexivity. }
  split; [exact H|]. split.
  - right. exists "Net 30". split; [vm_eq|].
    do 5 right. exists AttributeError. reflexivity.
  - apply (parse_contract_fail_soft ContractParser PNone). exact H.
Defined.

(** C2 as stated fails: the structure returned after a fault does not
    hold the fields of the sections. *)
Lemma fail_soft_omits_fields :
  step_raises ContractParser PNone
  ∧ ¬ fields_present (parse_contract ContractParser PNone).
Proof.
  split.
  - left. exists TypeError. reflexivity.
  - intros H.
    destruct (H "financial_details"
                ["line_items"; "total_value"; "currency"; "tax_info";
                 "additional_fees"]) as (m & Hm & Hf).
    { unfold section_fields. rewrite !elem_of_cons. auto. }
    assert (parse_contract ContractParser PNone !! "financial_details"
            = Some (PDict ∅)) as E by vm_eq.
    rewrite E in Hm. injection Hm as <-.
    destruct (Hf "total_value") as [v Hv].
    { rewrite !elem_of_cons. auto. }
    rewrite lookup_empty in Hv. discriminate Hv.
Qed.

(** The end-to-end scenario of the unit tests. *)
Example parse_sample_contract :
  let d := parse_contract ContractParser (PStr sample_contract_text) in
  field d "financial_details" "total_value" = PFloat (50000 # 1)
  ∧ field d "financial_details" "currency" = PStr "USD"
  ∧ as_dict (field d "account_information" "contact_info") !! "phone"
    = Some (PStr "(555) 123-4567")
  ∧ field d "account_information" "account_numbers" = PStrs ["ACC-12345"]
  ∧ field d "revenue_classification" "billing_cycle" = PStr "monthly"
  ∧ field d "party_identification" "signatories" = PStrs ["John Smith"]
  ∧ field d "payment_structure" "payment_terms" = PStr "Net 30".
Proof. cbv zeta. repeat split; vm_eq. Qed.

(** ** Tax information *)

Lemma financial_tax_info (text : string) :
  ∃ fin, _extract_financial_details text = PDict fin
         ∧ fin !! "tax_info" = Some (PDict ∅).
Proof.
  unfold _extract_financial_details. cbv zeta.
  destruct (py_max (amounts_of text)) as [m|];
    destruct (search currency_pattern text) as [c|];
    eexists; (split; [reflexivity|]);
    repeat rewrite lookup_insert_ne by discriminate;
    reflexivity.
Qed.

Lemma extract_sections_ok (t : string) : sections_ok (extract t) = true.
Proof.
  unfold sections_ok, extract.
  destruct (six_sections_lookup
              (_extract_party_info t) (_extract_account_info t)
              (_extract_financial_details t) (_extract_payment_structure t)
              (_extract_revenue_classification t) (_extract_sla_info t))
    as (-> & -> & -> & -> & _ & ->).
  reflexivity.
Qed.

(** C10. On every string [parse_contract] takes the normal path; the
    financial section of its result has the empty mapping under
    [tax_info], and the analyser, which returns on that result, reports
    exactly [Tax information] as incomplete. *)
Theorem tax_info_always_incomplete (text : string) :
  ∃ (d fin : gmap string pyval) (g : gmap string (list string)),
    parse_contract_try ContractParser (PStr text) = Ok d
    ∧ parse_contract ContractParser (PStr text) = d
    ∧ d !! "financial_details" = Some (PDict fin)
    ∧ fin !! "tax_info" = Some (PDict ∅)
    ∧ perform_gap_analysis d = Ok g
    ∧ g !! "incomplete_sections" = Some ["Tax information"].
Proof.
  destruct (financial_tax_info (normalize text)) as (fin & Hfin & Htax).
  exists (extract (normalize text)), fin, (gap_table (extract (normalize text))).
  split; [reflexivity|]. split; [reflexivity|].
  split; [unfold extract, six_sections;
          repeat rewrite lookup_insert_ne by discriminate;
          rewrite lookup_insert_eq; f_equal; exact Hfin|].
  split; [exact Htax|].
  split; [apply gap_runs, extract_sections_ok|].
  unfold gap_table.
  rewrite lookup_insert_ne by discriminate. rewrite lookup_insert_eq.
  f_equal. unfold incomplete_of, field, extract.
  destruct (six_sections_lookup
              (_extract_party_info (normalize text))
              (_extract_account_info (normalize text))
              (_extract_financial_details (normalize text))
              (_extract_payment_structure (normalize text))
              (_extract_revenue_classification (normalize text))
              (_extract_sla_info (normalize text)))
    as (_ & _ & -> & _).
  rewrite Hfin. simpl as_dict. rewrite Htax. reflexivity.
Qed.

(** ** Payment terms *)

Lemma lookup_app_add (pre s : list ascii) (k : nat) :
  (pre ++ s) !! (length pre + k) = s !! k.
Proof.
  rewrite lookup_app_r by lia. f_equal. lia.
Qed.

Lemma char_before_app (pre s : list ascii) :
  char_before (pre ++ s) (length pre) = last pre.
Proof.
  rewrite last_lookup. destruct pre as [|x pre] using rev_ind;
    [reflexivity|].
  rewrite length_app. cbn [length]. rewrite Nat.add_1_r. cbn [char_before].
  rewrite lookup_app_l by (rewrite length_app; simpl; lia).
  reflexivity.
Qed.

Lemma omap_cons_eq {A B : Type} (f : A → option B) (x : A) (l : list A) :
  omap f (x :: l)
  = match f x with
    | Some y => y :: omap f l
    | None => omap f l
    end.
Proof. reflexivity. Qed.

(** [re.search] answers with the match at the leftmost offset of the
    text that has one, wherever that is. *)
Lemma search_from_leftmost (ic : bool) (r : regex) (s : list ascii) :
  ∀ pre : list ascii,
    search_from ic r (length pre) (last pre) s
    = head (omap (match_here (Pattern r ic) (pre ++ s))
                 (seq (length pre) (S (length s)))).
Proof.
  assert (∀ pre s,
            match_here (Pattern r ic) (pre ++ s) (length pre)
            = match_at ic r (length pre) (last pre) s) as E.
  { intros pre s'. unfold match_here. cbn [p_ic p_re].
    rewrite (char_before_app pre s'), drop_app_length. reflexivity. }
  induction s as [|c s IH]; intros pre.
  - change (seq (length pre) (S (length (@nil ascii))))
      with [length pre].
    cbn [search_from]. rewrite omap_cons_eq, E.
    destruct (match_at ic r (length pre) (last pre) []); reflexivity.
  - cbn [search_from]. change (length (c :: s)) with (S (length s)).
    change (seq (length pre) (S (S (length s))))
      with (length pre :: seq (S (length pre)) (S (length s))).
    rewrite omap_cons_eq, E.
    destruct (match_at ic r (length pre) (last pre) (c :: s));
      [reflexivity|].
    specialize (IH (pre ++ [c])).
    rewrite last_snoc, length_app, Nat.add_1_r, <- app_assoc in IH.
    exact IH.
Qed.

Lemma search_leftmost (p : pattern) (text : string) :
  search p text
  = head (omap (match_here p (chars text))
               (seq 0 (S (length (chars text))))).
Proof.
  destruct p as [r ic]. unfold search. cbn [p_ic p_re].
  exact (search_from_leftmost ic r (chars text) []).
Qed.






(** The order of the patterns wins over the order in the text: "due
    within 10 days" comes first here, "net 30" is what is kept. *)
Example payment_terms_not_document_order :
  terms_of due_terms "Due within 10 days, net 30" = Some "Due within 10 days"
  ∧ payment_terms_of "Due within 10 days, net 30" = Some (PStr "net 30").
Proof. split; vm_eq. Qed.

Example payment_terms_second_pattern :
  payment_terms_of "Payment terms: on receipt. Due in 5 days"
  = Some (PStr "Payment terms: on receipt").
Proof. vm_eq. Qed.

Example payment_terms_none :
  payment_terms_of "No terms here" = Some PNone.
Proof. vm_eq. Qed.

(** ** Monotonicity of the scores *)

Lemma section_set_field (d : gmap string pyval) (s f s' : string)
    (v : pyval) :
  section (set_field d s f v) s'
  = if decide (s = s')
    then PDict (<[f := v]> (as_dict (section d s)))
    else section d s'.
Proof.
  unfold section at 1, set_field. rewrite lookup_insert.
  destruct (decide (s = s')); reflexivity.
Qed.

Lemma field_set_field (d : gmap string pyval) (s f s' f' : string)
    (v : pyval) :
  field (set_field d s f v) s' f'
  = if decide (s = s')
    then (if decide (f = f') then v else field d s' f')
    else field d s' f'.
Proof.
  unfold field. rewrite section_set_field.
  destruct (decide (s = s')) as [->|]; [|reflexivity].
  cbn [as_dict]. rewrite lookup_insert.
  destruct (decide (f = f')); reflexivity.
Qed.

Lemma weight_full (v : pyval) (w : Z) : truthy v = true → weight v w = w.
Proof. unfold weight. intros ->. reflexivity. Qed.

Lemma weight_field_mono (d : gmap string pyval) (s f s' f' : string)
    (v : pyval) (w : Z) :
  truthy v = true → (0 ≤ w)%Z →
  (weight (field d s' f') w ≤ weight (field (set_field d s f v) s' f') w)%Z.
Proof.
  intros Hv Hw. rewrite field_set_field.
  pose proof (weight_bounds (field d s' f') w Hw).
  destruct (decide (s = s')); [|lia].
  destruct (decide (f = f')); [|lia].
  rewrite (weight_full v w Hv). lia.
Qed.

Lemma falsy_as_dict (v : pyval) : truthy v = false → as_dict v = ∅.
Proof.
  destruct v; try reflexivity. simpl. intros H.
  apply negb_false_iff, bool_decide_eq_true in H. exact H.
Qed.

Lemma truthy_insert (m : gmap string pyval) (k : string) (v : pyval) :
  truthy (PDict (<[k := v]> m)) = true.
Proof.
  simpl. apply negb_true_iff, bool_decide_eq_false.
  apply insert_non_empty.
Qed.

(** Writing a field of a section leaves [contact_info] as the scorer
    reads it, unless the field is [contact_info] itself. *)
Lemma contact_info_set_field (d : gmap string pyval) (s f : string)
    (v : pyval) :
  ¬ (s = "account_information" ∧ f = "contact_info") →
  contact_info_of (set_field d s f v) = contact_info_of d.
Proof.
  intros Hne. unfold contact_info_of. rewrite section_set_field.
  destruct (decide (s = "account_information")) as [->|]; [|reflexivity].
  rewrite truthy_insert. cbn [as_dict].
  rewrite lookup_insert_ne by (intros ->; apply Hne; split; reflexivity).
  destruct (truthy (section d "account_information")) eqn:Ht;
    [reflexivity|].
  rewrite (falsy_as_dict _ Ht), lookup_empty. reflexivity.
Qed.

Lemma account_numbers_set_field (d : gmap string pyval) (s f : string)
    (v : pyval) (w : Z) :
  truthy v = true → (0 ≤ w)%Z →
  (weight (account_numbers_of d) w
   ≤ weight (account_numbers_of (set_field d s f v)) w)%Z.
Proof.
  intros Hv Hw. unfold account_numbers_of. rewrite section_set_field.
  destruct (decide (s = "account_information")) as [->|]; [|lia].
  rewrite truthy_insert. cbn [as_dict]. rewrite lookup_insert.
  destruct (truthy (section d "account_information")) eqn:Ht.
  - destruct (decide (f = "account_numbers")); [|lia].
    simpl default. rewrite (weight_full v w Hv).
    apply weight_bounds. exact Hw.
  - unfold weight at 1. rewrite Ht.
    apply weight_bounds. exact Hw.
Qed.

Lemma set_field_well_formed (d : gmap string pyval) (s f : string)
    (v : pyval) :
  ¬ (s = "account_information" ∧ f = "contact_info") →
  well_formed d = true → well_formed (set_field d s f v) = true.
Proof.
  intros Hne. unfold well_formed. rewrite !andb_true_iff.
  intros [Hs Hc]. rewrite contact_info_set_field by exact Hne.
  split; [|exact Hc].
  destruct (sections_ok_inv d Hs) as (H1 & H2 & H3 & H4 & H5).
  unfold sections_ok, account_ok. rewrite !section_set_field.
  repeat match goal with
         | |- context [decide (s = ?x)] => destruct (decide (s = x))
         end;
    rewrite ?H1, ?H2, ?H3, ?H4; unfold account_ok in H5; rewrite ?H5;
    reflexivity.
Qed.

Lemma points_set_field (d : gmap string pyval) (s f : string) (v : pyval) :
  ¬ (s = "account_information" ∧ f = "contact_info") →
  truthy v = true →
  let d' := set_field d s f v in
  (financial_points d ≤ financial_points d')%Z
  ∧ (party_points d ≤ party_points d')%Z
  ∧ (payment_points d ≤ payment_points d')%Z
  ∧ (sla_points d ≤ sla_points d')%Z
  ∧ (contact_points d ≤ contact_points d')%Z.
Proof.
  intros Hne Hv d'. subst d'.
  unfold financial_points, party_points, payment_points, sla_points,
    contact_points.
  rewrite contact_info_set_field by exact Hne.
  pose proof (fun s' f' w => weight_field_mono d s f s' f' v w Hv) as M.
  pose proof (account_numbers_set_field d s f v 2 Hv) as N.
  repeat split;
    repeat match goal with
           | |- context [weight (field d ?s' ?f') ?w] =>
               lazymatch goal with
               | _ : (weight (field d s' f') w ≤ _)%Z |- _ => fail
               | _ => pose proof (M s' f' w ltac:(lia))
               end
           end; lia.
Qed.

Lemma contact_info_write (d : gmap string pyval) (f : string) (v : pyval) :
  contact_info_of (write d (InContact f) v)
  = PDict (<[f := v]> (as_dict (contact_info_of d))).
Proof.
  unfold write. unfold contact_info_of at 1. rewrite section_set_field.
  destruct (decide ("account_information" = "account_information"));
    [|congruence].
  rewrite truthy_insert. cbn [as_dict]. rewrite lookup_insert_eq.
  reflexivity.
Qed.

Lemma account_numbers_write (d : gmap string pyval) (f : string)
    (v : pyval) (w : Z) :
  (0 ≤ w)%Z →
  (weight (account_numbers_of d) w
   ≤ weight (account_numbers_of (write d (InContact f) v)) w)%Z.
Proof.
  intros Hw. unfold write, account_numbers_of. rewrite section_set_field.
  destruct (decide ("account_information" = "account_information"));
    [|congruence].
  rewrite truthy_insert. cbn [as_dict].
  rewrite lookup_insert_ne by discriminate.
  destruct (truthy (section d "account_information")) eqn:Ht; [lia|].
  unfold weight at 1. rewrite Ht. apply weight_bounds. exact Hw.
Qed.

Lemma write_contact_well_formed (d : gmap string pyval) (f : string)
    (v : pyval) :
  well_formed d = true → well_formed (write d (InContact f) v) = true.
Proof.
  unfold well_formed. rewrite !andb_true_iff. intros [Hs Hc].
  rewrite contact_info_write. split; [|reflexivity].
  destruct (sections_ok_inv d Hs) as (H1 & H2 & H3 & H4 & H5).
  unfold sections_ok, account_ok, write. rewrite !section_set_field.
  repeat match goal with
         | |- context [decide (?a = ?b)] =>
             destruct (decide (a = b)); try discriminate
         end;
    [|congruence].
  rewrite H1, H2, H3, H4. reflexivity.
Qed.

Lemma points_write_contact (d : gmap string pyval) (f : string) (v : pyval) :
  truthy v = true →
  let d' := write d (InContact f) v in
  (financial_points d ≤ financial_points d')%Z
  ∧ (party_points d ≤ party_points d')%Z
  ∧ (payment_points d ≤ payment_points d')%Z
  ∧ (sla_points d ≤ sla_points d')%Z
  ∧ (contact_points d ≤ contact_points d')%Z.
Proof.
  intros Hv d'. subst d'.
  assert (∀ s' f', s' ≠ "account_information" →
            field (write d (InContact f) v) s' f' = field d s' f') as E.
  { intros s' f' Hs. unfold write. rewrite field_set_field.
    destruct (decide ("account_information" = s')); congruence. }
  unfold financial_points, party_points, payment_points, sla_points.
  rewrite !E by discriminate.
  do 4 (split; [lia|]).
  unfold contact_points. rewrite contact_info_write. cbn [as_dict].
  rewrite !lookup_insert.
  pose proof (account_numbers_write d f v 2 ltac:(lia)).
  pose proof (weight_bounds
    (default PNone (as_dict (contact_info_of d) !! "email")) 5 ltac:(lia)).
  pose proof (weight_bounds
    (default PNone (as_dict (contact_info_of d) !! "phone")) 3 ltac:(lia)).
  destruct (decide (f = "email")); destruct (decide (f = "phone"));
    cbn [default]; rewrite ?(weight_full v _ Hv); lia.
Qed.

Lemma qualifying_sections (s f : string) :
  InSection s f ∈ qualifying →
  ¬ (s = "account_information" ∧ f = "contact_info").
Proof.
  unfold qualifying. rewrite !elem_of_cons, elem_of_nil.
  intros H [-> ->].
  repeat (destruct H as [H|H]; [discriminate H|]). exact H.
Qed.

Lemma read_write (d : gmap string pyval) (p : path) (v : pyval) :
  read (write d p v) p = v.
Proof.
  destruct p as [s f|f]; unfold read.
  - unfold write. rewrite field_set_field.
    destruct (decide (s = s)); [|congruence].
    destruct (decide (f = f)); [reflexivity|congruence].
  - rewrite contact_info_write. cbn [as_dict].
    rewrite lookup_insert_eq. reflexivity.
Qed.

Lemma score_table_le (d d' : gmap string pyval) :
  (financial_points d ≤ financial_points d')%Z
  ∧ (party_points d ≤ party_points d')%Z
  ∧ (payment_points d ≤ payment_points d')%Z
  ∧ (sla_points d ≤ sla_points d')%Z
  ∧ (contact_points d ≤ contact_points d')%Z →
  scores_le (score_table d) (score_table d').
Proof.
  intros (Hf & Hp & Hy & Hl & Hc) k x Hk.
  destruct (score_table_lookup d) as (Ef & Ep & Ey & El & Ec & Eo).
  destruct (score_table_lookup d') as (Ef' & Ep' & Ey' & El' & Ec' & Eo').
  destruct (decide (k ∈ ["financial_completeness"; "party_identification";
                         "payment_terms_clarity"; "sla_definition";
                         "contact_information"; "overall_score"]))
    as [Hin|Hout].
  - rewrite !elem_of_cons, elem_of_nil in Hin.
    destruct Hin as [->|[->|[->|[->|[->|[->|[]]]]]]];
      eexists; (split; [eassumption|]);
      congruence || (rewrite Hk in *; simplify_eq; lia).
  - exfalso. unfold score_table in Hk.
    rewrite lookup_insert_ne in Hk
      by (intros <-; apply Hout; rewrite !elem_of_cons; auto 10).
    rewrite (credited_other d k Hout) in Hk. discriminate Hk.
Qed.

(** C8. On well-formed data, giving a truthy value to one of the
    fifteen scored fields that was absent (falsy) keeps the scorer
    running, and no component of the new table, overall score included,
    is smaller than it was. *)
Theorem score_monotone (d : gmap string pyval) (p : path) (v : pyval) :
  well_formed d = true →
  p ∈ qualifying →
  truthy (read d p) = false →
  truthy v = true →
  ∃ s s' : gmap string Z,
    calculate_confidence_scores d = Ok s
    ∧ calculate_confidence_scores (write d p v) = Ok s'
    ∧ read (write d p v) p = v
    ∧ scores_le s s'.
Proof.
  intros Hd Hp _ Hv.
  exists (score_table d), (score_table (write d p v)).
  split; [apply scorer_table; exact Hd|].
  destruct p as [s f|f].
  - pose proof (qualifying_sections s f Hp) as Hne.
    split; [apply scorer_table, set_field_well_formed; assumption|].
    split; [apply read_write|].
    apply score_table_le, points_set_field; assumption.
  - split; [apply scorer_table, write_contact_well_formed; assumption|].
    split; [apply read_write|].
    apply score_table_le, points_write_contact; assumption.
Qed.

Lemma score_monotone_witness :
  well_formed default_data = true
  ∧ InSection "financial_details" "total_value" ∈ qualifying
  ∧ truthy (read default_data
              (InSection "financial_details" "total_value")) = false
  ∧ truthy (PInt 10000) = true
  ∧ ∃ s s' : gmap string Z,
      calculate_confidence_scores default_data = Ok s
      ∧ calculate_confidence_scores
          (write default_data
             (InSection "financial_details" "total_value") (PInt 10000))
        = Ok s'
      ∧ read (write default_data
                (InSection "financial_details" "total_value") (PInt 10000))
             (InSection "financial_details" "total_value") = PInt 10000
      ∧ scores_le s s'.
Proof.
  assert (InSection "financial_details" "total_value" ∈ qualifying) as Hq
    by (unfold qualifying; rewrite !elem_of_cons; auto).
  split; [vm_eq|]. split; [exact Hq|]. split; [vm_eq|].
  split; [reflexivity|].
  apply (score_monotone default_data
           (InSection "financial_details" "total_value") (PInt 10000));
    [vm_eq | exact Hq | vm_eq | reflexivity].
Defined.

(** The score moves from 5 to 20 when the total value is added to the
    parse of the empty text. *)
Example score_monotone_total_value :
  score_table default_data !! "overall_score" = Some 5%Z
  ∧ score_table (write default_data
                   (InSection "financial_details" "total_value")
                   (PInt 10000)) !! "overall_score" = Some 20%Z.
Proof. split; vm_eq. Qed.

(** ** The normaliser *)

Lemma head_app_l {A : Type} (l1 l2 : list A) :
  head (l1 ++ l2) = match head l1 with
                    | Some x => Some x
                    | None => head l2
                    end.
Proof. destruct l1; reflexivity. Qed.

Lemma space_match (c : ascii) : atom_match false space c = isspace c.
Proof. simpl. rewrite orb_false_r. reflexivity. Qed.

(** The first way [\s] repeated at least [lo] times matches is the
    whole run of whitespace. *)
Lemma rep_space_head (s : list ascii) :
  ∀ (lo pos : nat) (prev : option ascii) (caps : list (nat * (nat * nat))),
    m_pos <$> head (rep_atom false space lo None pos prev s caps)
    = if (lo <=? run s)%nat then Some (pos + run s)%nat else None.
Proof.
  induction s as [|c s IH]; intros lo pos prev caps.
  - simpl. destruct lo; simpl; [f_equal; lia | reflexivity].
  - cbn [rep_atom run more andb]. rewrite space_match.
    destruct (isspace c).
    + rewrite head_app_l.
      specialize (IH (pred lo) (S pos) (Some c) caps).
      change (pred <$> None) with (@None nat).
      destruct (head (rep_atom false space (pred lo) None
                        (S pos) (Some c) s caps)) as [st|] eqn:E.
      * cbn [fmap option_fmap option_map] in *.
        destruct (pred lo <=? run s)%nat eqn:Hle; [|discriminate IH].
        injection IH as IH. rewrite IH.
        destruct lo; simpl; [f_equal; lia|].
        simpl in Hle. rewrite Hle. f_equal. lia.
      * cbn [fmap option_fmap option_map] in *.
        destruct (pred lo <=? run s)%nat eqn:Hle; [discriminate IH|].
        destruct lo; [discriminate Hle|].
        simpl in Hle. simpl. rewrite Hle. reflexivity.
    + destruct lo; simpl; [f_equal; lia | reflexivity].
Qed.

Lemma ws_match_at (pos : nat) (prev : option ascii) (s : list ascii) :
  mlen <$> match_at false (plus space) pos prev s
  = match run s with
    | 0 => None
    | S k => Some (S k)
    end.
Proof.
  unfold match_at, plus. cbn [mt m_pos m_prev m_rest m_caps].
  pose proof (rep_space_head s 1 pos prev []) as H.
  destruct (head (rep_atom false space 1 None pos prev s [])) as [st|];
    cbn [fmap option_fmap option_map] in *.
  - destruct (run s) as [|k]; [discriminate H|].
    simpl in H. injection H as H. unfold mlen. simpl. f_equal. lia.
  - destruct (run s); [reflexivity | discriminate H].
Qed.

Lemma squeeze_no_run (s : list ascii) :
  run s = 0 → squeeze true s = squeeze false s.
Proof.
  destruct s as [|c s]; [reflexivity|]. simpl.
  destruct (isspace c); [discriminate | reflexivity].
Qed.

(** [re.sub(r'\s+', ' ', text)] squeezes the runs of whitespace. *)
Lemma sub_scan_squeeze (s : list ascii) :
  ∀ (pos : nat) (prev : option ascii),
    sub_scan false (plus space) [" "%char] 0 pos prev s = squeeze false s
    ∧ sub_scan false (plus space) [" "%char] (run s) pos prev s
      = squeeze true s.
Proof.
  induction s as [|c s IH]; intros pos prev.
  - split; [|reflexivity]. cbn [sub_scan].
    pose proof (ws_match_at pos prev []) as H. simpl run in H.
    destruct (match_at false (plus space) pos prev []);
      [discriminate H | reflexivity].
  - destruct (IH (S pos) (Some c)) as [IH0 IHr].
    assert (sub_scan false (plus space) [" "%char] 0 pos prev (c :: s)
            = squeeze false (c :: s)) as E0.
    { cbn [sub_scan].
      pose proof (ws_match_at pos prev (c :: s)) as H.
      cbn [run squeeze] in *. destruct (isspace c).
      - destruct (match_at false (plus space) pos prev (c :: s)) as [m|];
          [|discriminate H].
        simpl in H. injection H as H. rewrite H. simpl. f_equal. exact IHr.
      - destruct (match_at false (plus space) pos prev (c :: s));
          [discriminate H|].
        f_equal. exact IH0. }
    split; [exact E0|].
    destruct (run (c :: s)) as [|k] eqn:Hr.
    + rewrite squeeze_no_run by exact Hr. exact E0.
    + cbn [sub_scan]. cbn [run squeeze] in *.
      destruct (isspace c); [|discriminate Hr].
      injection Hr as <-. exact IHr.
Qed.

Lemma chars_str (l : list ascii) : chars (str l) = l.
Proof. apply list_ascii_of_string_of_list_ascii. Qed.

Lemma str_chars (s : string) : str (chars s) = s.
Proof. apply string_of_list_ascii_of_string. Qed.

Lemma normalize_squeeze (text : string) :
  normalize text = str (strip (squeeze false (chars text))).
Proof.
  unfold normalize, sub. cbn [p_ic p_re ws_pattern].
  rewrite chars_str.
  change (chars " ") with [" "%char].
  destruct (sub_scan_squeeze (chars text) 0 None) as [-> _].
  reflexivity.
Qed.

Lemma lstrip_all_ws (s : list ascii) : all_ws s = true → lstrip s = [].
Proof.
  induction s as [|c s IH]; [reflexivity|]. unfold all_ws. simpl.
  destruct (isspace c); [exact IH | discriminate].
Qed.

Lemma lstrip_snoc (a : list ascii) (c : ascii) :
  lstrip (a ++ [c])
  = if all_ws a then lstrip [c] else lstrip a ++ [c].
Proof.
  induction a as [|x a IH]; [reflexivity|]. unfold all_ws in *. simpl.
  destruct (isspace x); [exact IH | reflexivity].
Qed.

Lemma all_ws_rev (s : list ascii) : all_ws (rev s) = all_ws s.
Proof.
  unfold all_ws. induction s as [|c s IH]; [reflexivity|]. simpl.
  rewrite forallb_app, IH. simpl. rewrite andb_true_r. apply andb_comm.
Qed.

Lemma rstrip_cons (c : ascii) (s : list ascii) :
  rstrip (c :: s) = if isspace c && all_ws s then [] else c :: rstrip s.
Proof.
  unfold rstrip. simpl rev. rewrite lstrip_snoc, all_ws_rev.
  destruct (all_ws s) eqn:Hs.
  - rewrite (lstrip_all_ws (rev s)) by (rewrite all_ws_rev; exact Hs).
    simpl. destruct (isspace c); reflexivity.
  - rewrite andb_false_r, rev_app_distr. reflexivity.
Qed.

Lemma squeeze_true_lstrip (s : list ascii) :
  squeeze true s = squeeze false (lstrip s).
Proof.
  induction s as [|c s IH]; [reflexivity|]. simpl.
  destruct (isspace c) eqn:Hc; [exact IH|].
  simpl. rewrite Hc. reflexivity.
Qed.

Lemma lstrip_starts (s : list ascii) :
  lstrip s = [] ∨ starts_word (lstrip s) = true.
Proof.
  induction s as [|c s IH]; [left; reflexivity|]. simpl.
  destruct (isspace c) eqn:Hc; [exact IH|].
  right. simpl. rewrite Hc. reflexivity.
Qed.

Lemma lstrip_word (s : list ascii) : starts_word s = true → lstrip s = s.
Proof.
  destruct s as [|c s]; [discriminate|]. simpl.
  destruct (isspace c); [discriminate | reflexivity].
Qed.

Lemma lstrip_squeeze_word (r : list ascii) :
  r = [] ∨ starts_word r = true →
  lstrip (squeeze false r) = squeeze false r.
Proof.
  intros [->|H]; [reflexivity|].
  destruct r as [|x r]; [reflexivity|]. cbn [starts_word] in H.
  cbn [squeeze]. destruct (isspace x) eqn:Hx; [discriminate H|].
  cbn [lstrip]. rewrite Hx. reflexivity.
Qed.

Lemma lstrip_squeeze (s : list ascii) :
  lstrip (squeeze false s) = squeeze false (lstrip s).
Proof.
  destruct s as [|c s]; [reflexivity|]. cbn [squeeze lstrip].
  destruct (isspace c) eqn:Hc.
  - rewrite squeeze_true_lstrip.
    change (lstrip (" "%char :: squeeze false (lstrip s)))
      with (lstrip (squeeze false (lstrip s))).
    apply lstrip_squeeze_word, lstrip_starts.
  - cbn [lstrip squeeze]. rewrite Hc. reflexivity.
Qed.

Lemma words_lstrip (s : list ascii) : words (lstrip s) = words s.
Proof.
  induction s as [|c s IH]; [reflexivity|]. simpl.
  destruct (isspace c) eqn:Hc; [exact IH|].
  simpl. rewrite Hc. reflexivity.
Qed.

Lemma words_starts (s : list ascii) :
  starts_word s = true → ∃ w ws, words s = w :: ws.
Proof.
  destruct s as [|c s]; [discriminate|]. simpl.
  destruct (isspace c); [discriminate|]. intros _.
  destruct (starts_word s); [destruct (words s)|]; eauto.
Qed.

Lemma join_sp_cons (c : ascii) (w : list ascii) (ws : list (list ascii)) :
  join_sp ((c :: w) :: ws) = c :: join_sp (w :: ws).
Proof. destruct ws; reflexivity. Qed.

(** Squeezing and stripping a text that starts with a word gives its
    words joined by single spaces. *)
Lemma rstrip_squeeze (n : nat) :
  ∀ r : list ascii,
    (length r ≤ n)%nat → r = [] ∨ starts_word r = true →
    rstrip (squeeze false r) = join_sp (words r).
Proof.
  induction n as [|n IH]; intros r Hn Hr.
  - destruct r; [reflexivity | simpl in Hn; lia].
  - destruct r as [|c s]; [reflexivity|].
    destruct Hr as [Hr|Hr]; [discriminate Hr|].
    simpl in Hr, Hn. cbn [squeeze words].
    destruct (isspace c) eqn:Hc; [discriminate Hr|].
    rewrite rstrip_cons, Hc. cbn [andb].
    destruct s as [|c' s'].
    + reflexivity.
    + destruct (isspace c') eqn:Hc'.
      * cbn [starts_word]. rewrite Hc'. cbn [negb squeeze words].
        rewrite Hc'. rewrite squeeze_true_lstrip, <- (words_lstrip s').
        assert (length (lstrip s') ≤ n)%nat as Hlen.
        { clear -Hn. simpl in Hn.
          assert (∀ l, (length (lstrip l) ≤ length l)%nat) as L.
          { induction l as [|x l IHl]; simpl; [lia|].
            destruct (isspace x); simpl; lia. }
          specialize (L s'). lia. }
        pose proof (IH (lstrip s') Hlen (lstrip_starts s')) as E.
        rewrite rstrip_cons. change (isspace " ") with true. cbn [andb].
        destruct (lstrip_starts s') as [H0|H1].
        -- rewrite H0. reflexivity.
        -- destruct (words_starts _ H1) as (w & ws & Hw).
           destruct (lstrip s') as [|x q] eqn:Eq; [discriminate H1|].
           cbn [starts_word] in H1.
           destruct (isspace x) eqn:Hx; [discriminate H1|].
           unfold all_ws. cbn [squeeze forallb]. rewrite Hx.
           cbn [forallb andb].
           cbn [squeeze] in E. rewrite Hx in E. rewrite Hw in *.
           change (join_sp ([c] :: w :: ws))
             with (c :: " "%char :: join_sp (w :: ws)).
           f_equal. rewrite ?Hx. cbn [andb]. f_equal. exact E.
      * cbn [starts_word]. rewrite Hc'. cbn [negb].
        assert (starts_word (c' :: s') = true) as Hs
          by (simpl; rewrite Hc'; reflexivity).
        destruct (words_starts _ Hs) as (w & ws & Hw).
        rewrite Hw, join_sp_cons, <- Hw. f_equal.
        apply IH; [simpl in *; lia | right; exact Hs].
Qed.

Lemma strip_squeeze (s : list ascii) :
  strip (squeeze false s) = join_sp (words s).
Proof.
  change (strip (squeeze false s))
    with (rstrip (lstrip (squeeze false s))).
  rewrite lstrip_squeeze, <- (words_lstrip s).
  apply (rstrip_squeeze (length (lstrip s))); [lia|].
  apply lstrip_starts.
Qed.

Lemma words_ok (s : list ascii) : Forall word_ok (words s).
Proof.
  induction s as [|c s IH]; [constructor|]. cbn [words].
  destruct (isspace c) eqn:Hc; [exact IH|].
  assert (word_ok [c]) as H1.
  { split; [discriminate|]. simpl. rewrite Hc. reflexivity. }
  destruct (starts_word s).
  - destruct (words s) as [|w ws]; [constructor; [exact H1|constructor]|].
    inversion IH as [|? ? [Hw1 Hw2] Hws]; subst.
    constructor; [|exact Hws].
    split; [discriminate|]. simpl. rewrite Hc. exact Hw2.
  - constructor; assumption.
Qed.

Lemma spaced_word (w rest : list ascii) (p : bool) :
  word_ok w → spaced p (w ++ rest) = spaced false rest.
Proof.
  intros [Hne Hw]. revert p.
  induction w as [|c w IH]; intros p; [congruence|].
  simpl in Hw. apply andb_true_iff in Hw. destruct Hw as [Hc Hw].
  apply negb_true_iff in Hc. simpl. rewrite Hc.
  destruct w as [|c' w]; [reflexivity|].
  apply IH; [discriminate | exact Hw].
Qed.

Lemma spaced_join (ws : list (list ascii)) :
  Forall word_ok ws → ws ≠ [] → spaced true (join_sp ws) = true.
Proof.
  induction ws as [|w ws IH]; intros Hok Hne; [congruence|].
  inversion Hok as [|? ? Hw Hws]; subst.
  destruct ws as [|w' ws].
  - simpl. rewrite <- (app_nil_r w). rewrite spaced_word by exact Hw.
    reflexivity.
  - change (join_sp (w :: w' :: ws))
      with (w ++ " "%char :: join_sp (w' :: ws)).
    rewrite spaced_word by exact Hw.
    change (spaced false (" "%char :: join_sp (w' :: ws)))
      with (spaced true (join_sp (w' :: ws))).
    apply IH; [exact Hws | discriminate].
Qed.

Lemma spaced_head (s : list ascii) (c : ascii) :
  spaced true s = true → head s = Some c → isspace c = false.
Proof.
  destruct s as [|x s]; [discriminate|]. simpl. intros H [= ->].
  destruct (isspace c); [discriminate H | reflexivity].
Qed.

Lemma spaced_last (s : list ascii) :
  ∀ (p : bool) (c : ascii),
    spaced p s = true → last s = Some c → isspace c = false.
Proof.
  induction s as [|x s IH]; intros p c H Hl; [discriminate Hl|].
  destruct s as [|y s].
  - simpl in Hl. injection Hl as ->. simpl in H.
    destruct (isspace c); [|reflexivity].
    rewrite andb_false_r in H. discriminate H.
  - change (last (x :: y :: s)) with (last (y :: s)) in Hl.
    cbn [spaced] in H. destruct (isspace x).
    + apply andb_true_iff in H. destruct H as [_ H].
      exact (IH true c H Hl).
    + exact (IH false c H Hl).
Qed.

Lemma spaced_lookup (s : list ascii) :
  ∀ (p : bool) (i : nat) (c : ascii),
    spaced p s = true → s !! i = Some c → isspace c = true →
    c = " "%char ∧ ∃ c', s !! S i = Some c' ∧ isspace c' = false.
Proof.
  induction s as [|x s IH]; intros p i c H Hi Hc; [discriminate Hi|].
  destruct i as [|i].
  - simpl in Hi. injection Hi as ->. cbn [spaced] in H. rewrite Hc in H.
    apply andb_true_iff in H. destruct H as [H Hs].
    apply andb_true_iff in H. destruct H as [_ He].
    apply Ascii.eqb_eq in He. split; [exact He|].
    destruct s as [|y s]; [discriminate Hs|].
    exists y. split; [reflexivity|].
    cbn [spaced] in Hs. destruct (isspace y); [discriminate Hs | reflexivity].
  - change ((x :: s) !! S i) with (s !! i) in Hi.
    change ((x :: s) !! S (S i)) with (s !! S i).
    cbn [spaced] in H. destruct (isspace x).
    + apply andb_true_iff in H. destruct H as [_ H].
      exact (IH true i c H Hi Hc).
    + exact (IH false i c H Hi Hc).
Qed.

Lemma join_words_normalized (s : list ascii) :
  normalized (join_sp (words s)).
Proof.
  destruct (words s) as [|w ws] eqn:E.
  - repeat split; intros; discriminate.
  - assert (spaced true (join_sp (w :: ws)) = true) as H.
    { apply spaced_join; [rewrite <- E; apply words_ok | discriminate]. }
    split; [intros c; apply spaced_head; exact H|].
    split; [intros c; apply (spaced_last _ true); exact H|].
    intros i c. apply (spaced_lookup _ true). exact H.
Qed.

(** C6. The normaliser never fails on a string; its result is the words
    of the text (the maximal runs of characters other than whitespace)
    joined by single spaces, so it neither starts nor ends with
    whitespace and every whitespace character left in it is one space
    between two words; the empty text stays empty and ["  a   b  "]
    becomes ["a b"]. *)
Theorem normalize_correct (text : string) :
  _clean_text (PStr text) = Ok (normalize text)
  ∧ normalize text = normalize_spec text
  ∧ normalized (chars (normalize text))
  ∧ normalize "" = ""
  ∧ normalize "  a   b  " = "a b".
Proof.
  assert (normalize text = normalize_spec text) as E.
  { rewrite normalize_squeeze, strip_squeeze. reflexivity. }
  split; [reflexivity|]. split; [exact E|]. split.
  - rewrite E. unfold normalize_spec. rewrite chars_str.
    apply join_words_normalized.
  - split; vm_eq.
Qed.

(** The fixture of the unit test, with tabs and line breaks among the
    blanks. *)
Example normalize_messy :
  normalize (str (chars "  This   is" ++ [newline; ascii_of_nat 9]
                  ++ chars "messy" ++ [newline; newline; ascii_of_nat 13]
                  ++ chars "text  "))
  = "This is messy text".
Proof. vm_eq. Qed.

(** ** The financial section *)

Lemma total_value_lookup (text : string) :
  total_value_of text
  = Some (match py_max (amounts_of text) with
          | Some m => PFloat m
          | None => PNone
          end).
Proof.
  unfold total_value_of, _extract_financial_details. cbv zeta.
  cbn [as_dict].
  destruct (search currency_pattern text);
    rewrite ?lookup_insert_ne by discriminate;
    destruct (py_max (amounts_of text));
    rewrite ?lookup_insert_eq; reflexivity.
Qed.

Lemma fold_max_spec (xs : list Q) :
  ∀ x : Q,
    let m := fold_left (fun m y => if Qle_bool y m then m else y) xs x in
    (m = x ∨ m ∈ xs) ∧ (x <= m)%Q ∧ ∀ a, a ∈ xs → (a <= m)%Q.
Proof.
  induction xs as [|y xs IH]; intros x; cbn [fold_left].
  - split; [left; reflexivity|]. split; [apply Qle_refl|].
    intros a Ha. inversion Ha.
  - destruct (IH (if Qle_bool y x then x else y)) as (Hin & Hge & Hall).
    assert ((x <= if Qle_bool y x then x else y)%Q
            ∧ (y <= if Qle_bool y x then x else y)%Q) as [Hx Hy].
    { destruct (Qle_bool y x) eqn:E.
      - split; [apply Qle_refl | apply Qle_bool_iff; exact E].
      - split; [|apply Qle_refl].
        apply Qlt_le_weak, Qnot_le_lt. intros H.
        apply Qle_bool_iff in H. congruence. }
    split; [|split].
    + destruct Hin as [Hin|Hin].
      * destruct (Qle_bool y x); [left; exact Hin|].
        right. rewrite Hin. apply list_elem_of_here.
      * right. apply list_elem_of_further. exact Hin.
    + eapply Qle_trans; [exact Hx | exact Hge].
    + intros a Ha. apply elem_of_cons in Ha. destruct Ha as [->|Ha].
      * eapply Qle_trans; [exact Hy | exact Hge].
      * apply Hall. exact Ha.
Qed.

(** [max] returns an element of the list that no element exceeds. *)
Lemma py_max_spec (xs : list Q) :
  match py_max xs with
  | Some m => m ∈ xs ∧ ∀ a, a ∈ xs → (a <= m)%Q
  | None => xs = []
  end.
Proof.
  destruct xs as [|x xs]; [reflexivity|]. cbn [py_max].
  destruct (fold_max_spec xs x) as (Hin & Hge & Hall).
  split.
  - destruct Hin as [->|Hin];
      [apply list_elem_of_here | apply list_elem_of_further; exact Hin].
  - intros a Ha. apply elem_of_cons in Ha. destruct Ha as [->|Ha];
      [exact Hge | apply Hall; exact Ha].
Qed.

Lemma adv_zero (st : mstate) : adv st 0 = st.
Proof.
  destruct st as [pos prev rest caps]. unfold adv. simpl.
  f_equal. lia.
Qed.

Lemma adv_step (pos : nat) (prev : option ascii) (c : ascii)
    (s : list ascii) (caps : list (nat * (nat * nat))) (n : nat) :
  adv (MState (S pos) (Some c) s caps) n
  = adv (MState pos prev (c :: s) caps) (S n).
Proof.
  unfold adv. cbn [m_pos m_prev m_rest m_caps].
  f_equal; try lia; destruct n; reflexivity.
Qed.

Lemma bind_singleton {A B : Type} (f : A → list B) (a : A) :
  [a] ≫= f = f a.
Proof. simpl. apply app_nil_r. Qed.

(** A literal text matches in one way or not at all. *)
Lemma mt_lits (ic : bool) (w : list ascii) :
  ∀ st : mstate,
    mt ic (lits w) st
    = if prefix_match ic w (m_rest st) then [adv st (length w)] else [].
Proof.
  induction w as [|x w IH]; intros st.
  - simpl. rewrite adv_zero. reflexivity.
  - destruct st as [pos prev rest caps].
    destruct w as [|x2 w].
    + cbn [lits mt]. unfold step_atom. cbn [m_rest m_pos m_caps].
      destruct rest as [|c s]; [reflexivity|].
      cbn [prefix_match]. rewrite andb_true_r.
      destruct (atom_match ic (ALit x) c); [|reflexivity].
      cbn [length].
      rewrite <- (adv_step pos prev c s caps 0), adv_zero. reflexivity.
    + change (lits (x :: x2 :: w))
        with (RCat (RAtom (ALit x)) (lits (x2 :: w))).
      cbn [mt]. unfold step_atom. cbn [m_rest m_pos m_caps].
      destruct rest as [|c s]; [reflexivity|].
      change (prefix_match ic (x :: x2 :: w) (c :: s))
        with (atom_match ic (ALit x) c && prefix_match ic (x2 :: w) s).
      destruct (atom_match ic (ALit x) c); [|reflexivity].
      rewrite bind_singleton, IH. cbn [m_rest andb].
      destruct (prefix_match ic (x2 :: w) s); [|reflexivity].
      rewrite (adv_step pos prev c s caps). reflexivity.
Qed.

Lemma head_bind_replicate {A B : Type} (f : A → list B) (x : A) (k : nat) :
  head (replicate k x ≫= f)
  = match k with
    | 0 => None
    | S _ => head (f x)
    end.
Proof.
  induction k as [|k IH]; [reflexivity|].
  change (replicate (S k) x ≫= f) with (f x ++ (replicate k x ≫= f)).
  rewrite head_app_l, IH.
  destruct (head (f x)) eqn:E; [reflexivity|].
  destruct k; reflexivity.
Qed.

(** The alternation of the five codes yields the state three characters
    on, once for each code that matches. *)
Lemma mt_codes (st : mstate) :
  ∃ k : nat,
    mt true (alt (lit <$> currency_codes)) st = replicate k (adv st 3)
    ∧ (k = 0 ↔ code_here (m_rest st) = false).
Proof.
  unfold code_here, currency_codes. cbn [fmap list_fmap alt existsb].
  cbn [mt]. unfold lit. rewrite !mt_lits.
  change (length (chars "USD")) with 3.
  change (length (chars "EUR")) with 3.
  change (length (chars "GBP")) with 3.
  change (length (chars "CAD")) with 3.
  change (length (chars "AUD")) with 3.
  destruct (prefix_match true (chars "USD") (m_rest st));
    destruct (prefix_match true (chars "EUR") (m_rest st));
    destruct (prefix_match true (chars "GBP") (m_rest st));
    destruct (prefix_match true (chars "CAD") (m_rest st));
    destruct (prefix_match true (chars "AUD") (m_rest st));
    cbn [app orb];
    match goal with
    | |- ∃ k, ?l = _ ∧ _ => exists (length l)
    end;
    (split; [reflexivity|]); cbn [length]; split; congruence.
Qed.

Lemma head_drop_lookup {A : Type} (l : list A) (n : nat) :
  head (drop n l) = l !! n.
Proof.
  rewrite head_lookup, lookup_drop. f_equal. lia.
Qed.

(** The currency pattern at one position. *)
Lemma currency_match_at (pos : nat) (prev : option ascii) (s : list ascii) :
  match_at true (p_re currency_pattern) pos prev s
  = if code_word_here prev s
    then Some (RMatch pos (MState (pos + 3) (s !! 2) (drop 3 s)
                                  [(1, (pos, pos + 3))]))
    else None.
Proof.
  unfold match_at, currency_pattern, code_word_here. cbn [p_re cat mt].
  change (at_boundary (MState pos prev s []))
    with (xorb (word_at prev) (word_at (head s))).
  destruct (xorb (word_at prev) (word_at (head s))); [|reflexivity].
  rewrite bind_singleton. cbn [andb].
  destruct (mt_codes (MState pos prev s [])) as (k & -> & Hk).
  cbn [m_rest m_pos] in *.
  rewrite fmap_replicate, head_bind_replicate.
  destruct k as [|k].
  - destruct Hk as [Hk _]. rewrite (Hk eq_refl). reflexivity.
  - destruct (code_here s) eqn:Hc;
      [|destruct Hk as [_ Hk]; discriminate (Hk eq_refl)].
    cbn [andb]. unfold at_boundary, close_group, adv.
    cbn [m_prev m_rest m_pos m_caps]. rewrite head_drop_lookup.
    destruct (xorb (word_at (s !! 2)) (word_at (s !! 3))); reflexivity.
Qed.

(** The pattern at a position is the whole-word code at that offset of
    the text. *)
Lemma code_word_here_at (pre s : list ascii) :
  code_word_at (pre ++ s) (length pre) = code_word_here (last pre) s.
Proof.
  unfold code_word_at, code_word_here, boundary, code_at.
  rewrite char_before_app, drop_app_length.
  replace (length pre + 3) with (S (length pre + 2)) by lia.
  cbn [char_before].
  replace (S (length pre + 2)) with (length pre + 3) by lia.
  rewrite !lookup_app_add.
  replace ((pre ++ s) !! length pre) with (s !! 0)
    by (rewrite <- (lookup_app_add pre s 0); f_equal; lia).
  rewrite <- head_lookup. reflexivity.
Qed.

Lemma code_match_app (pre s : list ascii) :
  RMatch (length pre)
         (MState (length pre + 3) (s !! 2) (drop 3 s)
                 [(1, (length pre, length pre + 3))])
  = code_match (pre ++ s) (length pre).
Proof.
  unfold code_match. rewrite lookup_app_add, drop_app_add. reflexivity.
Qed.

(** [re.search] with the currency pattern finds the first offset at
    which a code stands as a word of its own. *)
Lemma search_currency (s : list ascii) :
  ∀ pre : list ascii,
    search_from true (p_re currency_pattern) (length pre) (last pre) s
    = code_match (pre ++ s)
        <$> find (code_word_at (pre ++ s))
                 (seq (length pre) (S (length s))).
Proof.
  induction s as [|c s IH]; intros pre.
  - cbn [search_from length seq find].
    rewrite currency_match_at, code_word_here_at, code_match_app.
    destruct (code_word_here (last pre) []); reflexivity.
  - cbn [search_from]. change (length (c :: s)) with (S (length s)).
    change (seq (length pre) (S (S (length s))))
      with (length pre :: seq (S (length pre)) (S (length s))).
    cbn [find].
    rewrite currency_match_at, code_word_here_at, code_match_app.
    destruct (code_word_here (last pre) (c :: s)); [reflexivity|].
    specialize (IH (pre ++ [c])).
    rewrite last_snoc, length_app, Nat.add_1_r, <- app_assoc in IH.
    exact IH.
Qed.

Lemma search_currency_text (text : string) :
  search currency_pattern text
  = code_match (chars text)
      <$> first_offset (code_word_at (chars text)) (chars text).
Proof.
  unfold search, first_offset. cbn [p_ic currency_pattern].
  exact (search_currency (chars text) []).
Qed.

Lemma currency_lookup (text : string) :
  currency_of text = Some (PStr (currency_word text)).
Proof.
  unfold currency_of, currency_word, _extract_financial_details.
  cbv zeta. cbn [as_dict]. rewrite search_currency_text.
  destruct (first_offset (code_word_at (chars text)) (chars text))
    as [i|]; cbn [fmap option_fmap option_map].
  - rewrite lookup_insert_eq. reflexivity.
  - destruct (py_max (amounts_of text));
      rewrite ?lookup_insert_ne by discriminate; reflexivity.
Qed.

(** C4 (as amended). The amounts of a text are the captures of the four
    money patterns that [float] accepts once the commas are removed.
    When there is none, the total value stays null; otherwise it is one
    of them and none is larger.  The currency is the code, in upper
    case, at the first offset where USD, EUR, GBP, CAD or AUD stands in
    any case as a word of its own (a word boundary on both sides), and
    USD when there is no such offset. *)
Theorem financial_total_and_currency (text : string) :
  match amounts_of text with
  | [] => total_value_of text = Some PNone
  | _ :: _ =>
      ∃ m : Q,
        total_value_of text = Some (PFloat m)
        ∧ m ∈ amounts_of text
        ∧ ∀ a, a ∈ amounts_of text → (a <= m)%Q
  end
  ∧ currency_of text = Some (PStr (currency_word text)).
Proof.
  split; [|apply currency_lookup].
  rewrite total_value_lookup.
  pose proof (py_max_spec (amounts_of text)) as H.
  destruct (py_max (amounts_of text)) as [m|].
  - destruct H as [Hin Hall].
    destruct (amounts_of text) as [|a l]; [inversion Hin|].
    exists m. split; [reflexivity|]. split; assumption.
  - rewrite H. reflexivity.
Qed.

(** C4 as stated fails: a code that is part of a longer word is in the
    text but is not the currency. *)
Lemma currency_needs_word_boundary :
  currency_anywhere "Price 100EUR" = "EUR"
  ∧ currency_of "Price 100EUR" = Some (PStr "USD")
  ∧ currency_of "Price 100EUR"
    ≠ Some (PStr (currency_anywhere "Price 100EUR")).
Proof.
  assert (currency_anywhere "Price 100EUR" = "EUR") as E1 by vm_eq.
  assert (currency_of "Price 100EUR" = Some (PStr "USD")) as E2 by vm_eq.
  split; [exact E1|]. split; [exact E2|].
  rewrite E1, E2. intros H. discriminate H.
Qed.

(** The same for a capture that is no number: the pattern matches, the
    total value stays null. *)
Example amount_without_digit :
  matched_amounts "Fee: $, to be agreed" = [","]
  ∧ amounts_of "Fee: $, to be agreed" = []
  ∧ total_value_of "Fee: $, to be agreed" = Some PNone.
Proof. repeat split; vm_eq. Qed.

Example amounts_of_sample :
  matched_amounts "Total: $1,234.50 or 2,000 dollars"
  = ["1,234.50"; "2,000"; "1,234.50"]
  ∧ total_value_of "Total: $1,234.50 or 2,000 dollars"
    = Some (PFloat (2000 # 1))
  ∧ currency_of "Total: $1,234.50 or 2,000 dollars" = Some (PStr "USD").
Proof. repeat split; vm_eq. Qed.

Example currency_first_word :
  currency_of "Pay 10 gbp or 12 EUR" = Some (PStr "GBP").
Proof. vm_eq. Qed.

(** The end-to-end text of the unit tests. *)
Example contract_value_sample :
  total_value_of "Total contract value: $50,000 USD"
  = Some (PFloat (50000 # 1))
  ∧ currency_of "Total contract value: $50,000 USD" = Some (PStr "USD").
Proof. split; vm_eq. Qed.

(** * Further properties *)

(** ** The pipeline on the output of [parse_contract] *)

Lemma extract_well_formed (t : string) : well_formed (extract t) = true.
Proof.
  unfold well_formed. rewrite extract_sections_ok. cbn [andb].
  unfold contact_info_of, extract.
  destruct (six_sections_lookup
              (_extract_party_info t) (_extract_account_info t)
              (_extract_financial_details t) (_extract_payment_structure t)
              (_extract_revenue_classification t) (_extract_sla_info t))
    as (_ & -> & _).
  unfold _extract_account_info. cbv zeta. rewrite truthy_insert.
  cbn [as_dict]. rewrite lookup_insert_eq. reflexivity.
Qed.

Lemma parse_contract_cases (text_content : pyval) :
  (∃ t, text_content = PStr t
        ∧ parse_contract ContractParser text_content
          = extract (normalize t))
  ∨ parse_contract ContractParser text_content = _get_empty_extracted_data.
Proof.
  destruct text_content; try (right; reflexivity).
  left. eexists. split; reflexivity.
Qed.

Lemma parse_contract_well_formed (text_content : pyval) :
  well_formed (parse_contract ContractParser text_content) = true.
Proof.
  destruct (parse_contract_cases text_content) as [(t & _ & ->)| ->].
  - apply extract_well_formed.
  - vm_eq.
Qed.

(** Whatever [parse_contract] is given, a string or not, the scorer and
    the analyser both return on its result: neither can raise in the
    pipeline. *)
Theorem pipeline_never_raises (text_content : pyval) :
  let d := parse_contract ContractParser text_content in
  calculate_confidence_scores d = Ok (score_table d)
  ∧ perform_gap_analysis d = Ok (gap_table d).
Proof.
  cbv zeta.
  pose proof (parse_contract_well_formed text_content) as H.
  split; [apply scorer_table; exact H|].
  apply gap_runs. unfold well_formed in H.
  apply andb_true_iff in H. tauto.
Qed.

Lemma dom_six_sections (p a f y r l : pyval) :
  dom (six_sections p a f y r l) = list_to_set section_names.
Proof.
  unfold six_sections. rewrite !dom_insert_L, dom_empty_L.
  unfold section_names. cbn [list_to_set]. set_solver.
Qed.

(** Whatever the methods of the parser return or raise, the result of
    [parse_contract] has the six section names as its keys and no
    other. *)
Theorem parse_contract_keys (self : parser) (text_content : pyval) :
  dom (parse_contract self text_content) = list_to_set section_names.
Proof.
  unfold parse_contract, parse_contract_try.
  destruct (clean_text self text_content) as [t|e]; cbn [mbind res_bind];
    [|apply dom_six_sections].
  destruct (extract_party_info self t); cbn [mbind res_bind];
    [|apply dom_six_sections].
  destruct (extract_account_info self t); cbn [mbind res_bind];
    [|apply dom_six_sections].
  destruct (extract_financial_details self t); cbn [mbind res_bind];
    [|apply dom_six_sections].
  destruct (extract_payment_structure self t); cbn [mbind res_bind];
    [|apply dom_six_sections].
  destruct (extract_revenue_classification self t); cbn [mbind res_bind];
    [|apply dom_six_sections].
  destruct (extract_sla_info self t); cbn [mbind res_bind];
    apply dom_six_sections.
Qed.

(** ** When the scorer and the analyser raise *)

Lemma py_get_not_dict (v : pyval) (key : string) (dflt : pyval) :
  is_dict v = false → py_get v key dflt = Raise AttributeError.
Proof. destruct v; simpl; intros H; try reflexivity; discriminate H. Qed.

Lemma account_get_raises (v : pyval) (key : string) (dflt other : pyval) :
  account_ok v = false →
  (if truthy v then py_get v key dflt else Ok other) = Raise AttributeError.
Proof.
  unfold account_ok. intros H. apply orb_false_iff in H.
  destruct H as [Hd Ht]. apply negb_false_iff in Ht. rewrite Ht.
  apply py_get_not_dict. exact Hd.
Qed.

Lemma scorer_raises (d : gmap string pyval) :
  well_formed d = false →
  calculate_confidence_scores d = Raise AttributeError.
Proof.
  intros Hw.
  unfold well_formed, sections_ok in Hw.
  unfold calculate_confidence_scores.
  destruct (is_dict (section d "financial_details")) eqn:Hf;
    [|rewrite !(py_get_not_dict (section d "financial_details"))
        by exact Hf; reflexivity].
  rewrite !(py_get_dict (section d "financial_details")) by exact Hf.
  cbn [mbind res_bind].
  destruct (is_dict (section d "party_identification")) eqn:Hp;
    [|rewrite !(py_get_not_dict (section d "party_identification"))
        by exact Hp; reflexivity].
  rewrite !(py_get_dict (section d "party_identification")) by exact Hp.
  cbn [mbind res_bind].
  destruct (is_dict (section d "payment_structure")) eqn:Hy;
    [|rewrite !(py_get_not_dict (section d "payment_structure"))
        by exact Hy; reflexivity].
  rewrite !(py_get_dict (section d "payment_structure")) by exact Hy.
  cbn [mbind res_bind].
  destruct (is_dict (section d "service_level_agreements")) eqn:Hl;
    [|rewrite !(py_get_not_dict (section d "service_level_agreements"))
        by exact Hl; reflexivity].
  rewrite !(py_get_dict (section d "service_level_agreements"))
    by exact Hl.
  cbn [mbind res_bind].
  destruct (account_ok (section d "account_information")) eqn:Ha;
    [|rewrite !account_get_raises by exact Ha; reflexivity].
  rewrite !account_get by exact Ha. cbn [mbind res_bind].
  fold (contact_info_of d). cbn [andb] in Hw.
  rewrite !(py_get_not_dict (contact_info_of d)) by exact Hw.
  reflexivity.
Qed.

Lemma scorer_returns (d : gmap string pyval) (s : gmap string Z) :
  calculate_confidence_scores d = Ok s → s = score_table d.
Proof.
  destruct (well_formed d) eqn:Hw.
  - rewrite (scorer_table d Hw). intros H. symmetry. exact (Ok_inj _ _ H).
  - rewrite (scorer_raises d Hw). intros H. discriminate H.
Qed.

(** The scorer returns exactly on well-formed data, and then with the
    table of the fifteen weights; on any other data it raises
    [AttributeError], the first [.get] on something that is no mapping. *)
Theorem scorer_raises_iff (d : gmap string pyval) :
  match calculate_confidence_scores d with
  | Ok s => well_formed d = true ∧ s = score_table d
  | Raise e => well_formed d = false ∧ e = AttributeError
  end.
Proof.
  destruct (well_formed d) eqn:Hw.
  - rewrite (scorer_table d Hw). split; reflexivity.
  - rewrite (scorer_raises d Hw). split; reflexivity.
Qed.

Lemma analyser_raises (d : gmap string pyval) :
  sections_ok d = false →
  perform_gap_analysis d = Raise AttributeError.
Proof.
  intros Hw.
  unfold sections_ok in Hw. unfold perform_gap_analysis.
  destruct (is_dict (section d "financial_details")) eqn:Hf;
    [|rewrite !(py_get_not_dict (section d "financial_details"))
        by exact Hf; reflexivity].
  rewrite !(py_get_dict (section d "financial_details")) by exact Hf.
  cbn [mbind res_bind].
  destruct (is_dict (section d "party_identification")) eqn:Hp;
    [|rewrite !(py_get_not_dict (section d "party_identification"))
        by exact Hp; reflexivity].
  rewrite !(py_get_dict (section d "party_identification")) by exact Hp.
  cbn [mbind res_bind].
  destruct (is_dict (section d "payment_structure")) eqn:Hy;
    [|rewrite !(py_get_not_dict (section d "payment_structure"))
        by exact Hy; reflexivity].
  rewrite !(py_get_dict (section d "payment_structure")) by exact Hy.
  cbn [mbind res_bind].
  destruct (is_dict (section d "service_level_agreements")) eqn:Hl;
    [|rewrite !(py_get_not_dict (section d "service_level_agreements"))
        by exact Hl; reflexivity].
  rewrite !(py_get_dict (section d "service_level_agreements"))
    by exact Hl.
  cbn [mbind res_bind]. cbn [andb] in Hw.
  rewrite !account_get_raises by exact Hw. reflexivity.
Qed.

Lemma analyser_returns (d : gmap string pyval)
    (g : gmap string (list string)) :
  perform_gap_analysis d = Ok g → g = gap_table d.
Proof.
  destruct (sections_ok d) eqn:Hw.
  - rewrite (gap_runs d Hw). intros H. symmetry. exact (Ok_inj _ _ H).
  - rewrite (analyser_raises d Hw). intros H. discriminate H.
Qed.

(** The analyser returns exactly on data whose sections are mappings (a
    falsy account section passes too), and raises [AttributeError] on
    any other. *)
Theorem analyser_raises_iff (d : gmap string pyval) :
  match perform_gap_analysis d with
  | Ok g => sections_ok d = true ∧ g = gap_table d
  | Raise e => sections_ok d = false ∧ e = AttributeError
  end.
Proof.
  destruct (sections_ok d) eqn:Hw.
  - rewrite (gap_runs d Hw). split; reflexivity.
  - rewrite (analyser_raises d Hw). split; reflexivity.
Qed.

(** ** The shape of the two results *)

Lemma dom_credit (v : pyval) (k : string) (w : Z) (m : gmap string Z) :
  dom (credit v k w m) = dom m.
Proof.
  unfold credit. destruct (truthy v); [|reflexivity]. apply dom_alter_L.
Qed.

(** Whenever the scorer returns, its table has the five sub-scores and
    the overall score as its keys and no other. *)
Theorem score_table_keys (d : gmap string pyval) (s : gmap string Z) :
  calculate_confidence_scores d = Ok s →
  dom s = list_to_set score_names.
Proof.
  intros H. apply scorer_returns in H. subst s. unfold score_table, credited.
  rewrite dom_insert_L, !dom_credit. unfold initial_scores.
  rewrite !dom_insert_L, dom_empty_L.
  unfold score_names. cbn [list_to_set]. set_solver.
Qed.

Lemma score_table_keys_witness :
  calculate_confidence_scores complete_data = Ok (score_table complete_data)
  ∧ dom (score_table complete_data) = list_to_set score_names.
Proof.
  assert (calculate_confidence_scores complete_data
          = Ok (score_table complete_data)) as H by vm_eq.
  split; [exact H|].
  exact (score_table_keys complete_data (score_table complete_data) H).
Defined.

Lemma section_insert_ne (d : gmap string pyval) (k name : string)
    (v : pyval) :
  k ≠ name → section (<[k := v]> d) name = section d name.
Proof.
  intros H. unfold section. rewrite lookup_insert_ne by exact H.
  reflexivity.
Qed.

Lemma section_delete_ne (d : gmap string pyval) (k name : string) :
  k ≠ name → section (delete k d) name = section d name.
Proof.
  intros H. unfold section. rewrite lookup_delete_ne by exact H.
  reflexivity.
Qed.

(** The scorer and the analyser read five sections: what stands under
    any other key, the revenue classification included, changes nothing
    in what they return or raise, whether it is written or removed. *)
Theorem other_keys_ignored (d : gmap string pyval) (k : string) (v : pyval) :
  k ∉ read_sections →
  calculate_confidence_scores (<[k := v]> d) = calculate_confidence_scores d
  ∧ calculate_confidence_scores (delete k d) = calculate_confidence_scores d
  ∧ perform_gap_analysis (<[k := v]> d) = perform_gap_analysis d
  ∧ perform_gap_analysis (delete k d) = perform_gap_analysis d.
Proof.
  unfold read_sections. rewrite !not_elem_of_cons.
  intros (H1 & H2 & H3 & H4 & H5 & _).
  unfold calculate_confidence_scores, perform_gap_analysis.
  rewrite !section_insert_ne, !section_delete_ne by congruence.
  repeat split; reflexivity.
Qed.

Lemma other_keys_ignored_witness :
  ("revenue_classification" ∉ read_sections)
  ∧ calculate_confidence_scores
      (<["revenue_classification" := PNone]> complete_data)
    = calculate_confidence_scores complete_data
  ∧ calculate_confidence_scores (delete "revenue_classification" complete_data)
    = calculate_confidence_scores complete_data
  ∧ perform_gap_analysis
      (<["revenue_classification" := PNone]> complete_data)
    = perform_gap_analysis complete_data
  ∧ perform_gap_analysis (delete "revenue_classification" complete_data)
    = perform_gap_analysis complete_data.
Proof.
  assert ("revenue_classification" ∉ read_sections) as H.
  { unfold read_sections. rewrite !not_elem_of_cons.
    repeat split; try discriminate. apply not_elem_of_nil. }
  split; [exact H|].
  exact (other_keys_ignored complete_data "revenue_classification" PNone H).
Defined.

Lemma sublist_unless (v : pyval) (x : string) (acc L : list string) :
  acc `sublist_of` L → unless v x acc `sublist_of` (L ++ [x]).
Proof.
  intros H. unfold unless. destruct (truthy v).
  - rewrite <- (app_nil_r acc). apply sublist_app; [exact H|].
    apply sublist_nil_l.
  - apply sublist_app; [exact H | reflexivity].
Qed.

Lemma missing_sublist (d : gmap string pyval) :
  missing_of d `sublist_of` all_labels.
Proof.
  unfold missing_of.
  change all_labels
    with ((((((((@nil string ++ ["Total contract value"])
                ++ ["Detailed line items"]) ++ ["Party names"])
              ++ ["Authorized signatories"]) ++ ["Payment terms"])
            ++ ["Payment methods"]) ++ ["Performance metrics"])
          ++ ["Contact information"]).
  repeat apply sublist_unless. reflexivity.
Qed.

(** The missing fields come in the order of the eight checks, each label
    at most once; the incomplete sections are nothing or the tax
    information; and the report has these two lists and the
    recommendations as its keys. *)
Theorem gap_report_shape (d : gmap string pyval)
    (g : gmap string (list string)) :
  perform_gap_analysis d = Ok g →
  ∃ missing incomplete : list string,
    g !! "missing_fields" = Some missing
    ∧ g !! "incomplete_sections" = Some incomplete
    ∧ missing `sublist_of` all_labels
    ∧ NoDup missing
    ∧ (length missing ≤ 8)%nat
    ∧ (incomplete = [] ∨ incomplete = ["Tax information"])
    ∧ dom g = list_to_set ["missing_fields"; "incomplete_sections";
                           "recommendations"].
Proof.
  intros H. apply analyser_returns in H. subst g.
  exists (missing_of d), (incomplete_of d).
  pose proof (missing_sublist d) as Hs.
  split; [reflexivity|]. split; [reflexivity|]. split; [exact Hs|].
  split; [|split; [|split]].
  - eapply sublist_NoDup; [|exact Hs].
    unfold all_labels. repeat (apply NoDup_cons; split;
      [rewrite ?not_elem_of_cons; repeat split; try discriminate;
       apply not_elem_of_nil|]).
    apply NoDup_nil_2.
  - apply sublist_length in Hs. exact Hs.
  - unfold incomplete_of, unless. destruct (truthy _); auto.
  - unfold gap_table. rewrite !dom_insert_L, dom_empty_L.
    cbn [list_to_set]. set_solver.
Qed.

Lemma gap_report_shape_witness :
  perform_gap_analysis minimal_data = Ok (gap_table minimal_data)
  ∧ ∃ missing incomplete : list string,
      gap_table minimal_data !! "missing_fields" = Some missing
      ∧ gap_table minimal_data !! "incomplete_sections" = Some incomplete
      ∧ missing `sublist_of` all_labels
      ∧ NoDup missing
      ∧ (length missing ≤ 8)%nat
      ∧ (incomplete = [] ∨ incomplete = ["Tax information"])
      ∧ dom (gap_table minimal_data)
        = list_to_set ["missing_fields"; "incomplete_sections";
                       "recommendations"].
Proof.
  assert (perform_gap_analysis minimal_data = Ok (gap_table minimal_data))
    as H by vm_eq.
  split; [exact H|].
  exact (gap_report_shape minimal_data (gap_table minimal_data) H).
Defined.

Lemma total_value_missing (d : gmap string pyval) :
  "Total contract value" ∈ missing_of d
  ↔ truthy (field d "financial_details" "total_value") = false.
Proof.
  unfold missing_of. rewrite !elem_of_unless, elem_of_nil. split.
  - intros Hin.
    repeat match type of Hin with
           | _ ∨ _ => destruct Hin as [Hin|Hin]
           end;
      try contradiction; destruct Hin as [Hv E];
      first [discriminate E | exact Hv].
  - intros H. do 7 left. right. split; [exact H | reflexivity].
Qed.

Lemma in_rule_a (x : string) (missing : list string) :
  x ∈ rule_a missing ↔ missing ≠ [] ∧ x = rec_documentation.
Proof.
  unfold rule_a. destruct missing.
  - rewrite elem_of_nil. split; [contradiction | intros [H _]; congruence].
  - rewrite list_elem_of_singleton. split; [|tauto].
    intros ->. split; [discriminate | reflexivity].
Qed.

Lemma in_rule_b (x : string) (missing : list string) :
  x ∈ rule_b missing ↔ (6 ≤ length missing)%nat ∧ x = rec_manual_review.
Proof.
  unfold rule_b. destruct (5 <? length missing)%nat eqn:E.
  - apply Nat.ltb_lt in E. rewrite list_elem_of_singleton.
    split; [intros ->; split; [lia | reflexivity] | tauto].
  - apply Nat.ltb_ge in E. rewrite elem_of_nil.
    split; [contradiction | intros [H _]; lia].
Qed.

Lemma in_rule_c (x : string) (d : gmap string pyval) :
  x ∈ rule_c d
  ↔ truthy (field d "financial_details" "total_value") = false
    ∧ x = rec_verify_value.
Proof.
  unfold rule_c.
  destruct (truthy (field d "financial_details" "total_value")).
  - rewrite elem_of_nil. split; [contradiction | intros [H _]; discriminate].
  - rewrite list_elem_of_singleton. tauto.
Qed.

(** The recommendations are empty exactly when no field is missing;
    otherwise the documentation request comes first.  The other two
    texts never come without it: a missing total value is itself a
    missing field. *)
Theorem recommendations_lead (d : gmap string pyval)
    (g : gmap string (list string)) :
  perform_gap_analysis d = Ok g →
  ∃ missing recs : list string,
    g !! "missing_fields" = Some missing
    ∧ g !! "recommendations" = Some recs
    ∧ (recs = [] ↔ missing = [])
    ∧ (recs ≠ [] → head recs = Some rec_documentation)
    ∧ (rec_verify_value ∈ recs ↔ "Total contract value" ∈ missing)
    ∧ (rec_manual_review ∈ recs ↔ (6 ≤ length missing)%nat).
Proof.
  intros H. apply analyser_returns in H. subst g.
  exists (missing_of d),
    (rule_a (missing_of d) ++ rule_b (missing_of d) ++ rule_c d).
  split; [reflexivity|]. split; [reflexivity|].
  pose proof (total_value_missing d) as Ht.
  split; [|split; [|split]].
  - split.
    + intros E. apply app_eq_nil in E. destruct E as [E _].
      destruct (missing_of d); [reflexivity | discriminate E].
    + intros E. rewrite E in *. unfold rule_c.
      destruct (truthy (field d "financial_details" "total_value"));
        [reflexivity|].
      exfalso. apply (not_elem_of_nil "Total contract value").
      apply Ht. reflexivity.
  - intros Hne. destruct (missing_of d) as [|x l] eqn:Hm; [|reflexivity].
    exfalso. apply Hne. unfold rule_c.
    destruct (truthy (field d "financial_details" "total_value"));
      [reflexivity|].
    exfalso. apply (not_elem_of_nil "Total contract value").
    apply Ht. reflexivity.
  - rewrite !elem_of_app, in_rule_a, in_rule_b, in_rule_c, Ht.
    split.
    + intros [[_ E]|[[_ E]|[E _]]];
        [discriminate E | discriminate E | exact E].
    + intros E. right. right. split; [exact E | reflexivity].
  - rewrite !elem_of_app, in_rule_a, in_rule_b, in_rule_c.
    split.
    + intros [[_ E]|[[E _]|[_ E]]];
        [discriminate E | exact E | discriminate E].
    + intros E. right. left. split; [exact E | reflexivity].
Qed.

Lemma recommendations_lead_witness :
  perform_gap_analysis minimal_data = Ok (gap_table minimal_data)
  ∧ ∃ missing recs : list string,
      gap_table minimal_data !! "missing_fields" = Some missing
      ∧ gap_table minimal_data !! "recommendations" = Some recs
      ∧ (recs = [] ↔ missing = [])
      ∧ (recs ≠ [] → head recs = Some rec_documentation)
      ∧ (rec_verify_value ∈ recs ↔ "Total contract value" ∈ missing)
      ∧ (rec_manual_review ∈ recs ↔ (6 ≤ length missing)%nat).
Proof.
  assert (perform_gap_analysis minimal_data = Ok (gap_table minimal_data))
    as H by vm_eq.
  split; [exact H|].
  exact (recommendations_lead minimal_data (gap_table minimal_data) H).
Defined.

(** ** Full marks and no marks *)

Lemma weight_cases (v : pyval) (w : Z) :
  (0 < w)%Z →
  (weight v w = w ↔ truthy v = true) ∧ (weight v w = 0%Z ↔ truthy v = false).
Proof.
  intros Hw. unfold weight. destruct (truthy v); split; split;
    intros H; try reflexivity; try discriminate H; lia.
Qed.

Lemma truthy_account_numbers (d : gmap string pyval) :
  truthy (account_numbers_of d)
  = truthy (field d "account_information" "account_numbers").
Proof.
  unfold account_numbers_of, field.
  destruct (truthy (section d "account_information")) eqn:Ht;
    [reflexivity|].
  rewrite Ht, (falsy_as_dict _ Ht), lookup_empty. reflexivity.
Qed.

Lemma weight_account_numbers (d : gmap string pyval) (w : Z) :
  weight (account_numbers_of d) w
  = weight (field d "account_information" "account_numbers") w.
Proof. unfold weight. rewrite truthy_account_numbers. reflexivity. Qed.

Lemma present_unfold (d : gmap string pyval) (b : bool) :
  (∀ p, p ∈ qualifying → truthy (read d p) = b)
  ↔ Forall (fun v => truthy v = b) (read d <$> qualifying).
Proof.
  rewrite Forall_fmap, Forall_forall. reflexivity.
Qed.

Ltac pose_weight_bounds :=
  repeat match goal with
         | |- context [weight ?v ?w] =>
             lazymatch goal with
             | _ : (0 ≤ weight v w ≤ w)%Z |- _ => fail
             | _ => pose proof (weight_bounds v w ltac:(lia))
             end
         | _ : context [weight ?v ?w] |- _ =>
             lazymatch goal with
             | _ : (0 ≤ weight v w ≤ w)%Z |- _ => fail
             | _ => pose proof (weight_bounds v w ltac:(lia))
             end
         end.

(** On well-formed data the overall score is 100 exactly when all
    fifteen scored fields are truthy, and 0 exactly when none is. *)
Theorem full_and_no_marks (d : gmap string pyval) :
  well_formed d = true →
  ∃ (s : gmap string Z) (o : Z),
    calculate_confidence_scores d = Ok s
    ∧ s !! "overall_score" = Some o
    ∧ (o = 100%Z ↔ all_present d)
    ∧ (o = 0%Z ↔ none_present d).
Proof.
  intros H.
  destruct (score_table_lookup d) as (_ & _ & _ & _ & _ & Ho).
  eexists _, _. split; [apply scorer_table; exact H|].
  split; [exact Ho|].
  unfold all_present, none_present. rewrite !present_unfold.
  unfold qualifying. cbn [fmap list_fmap read].
  rewrite !Forall_cons, !Forall_nil.
  unfold financial_points, party_points, payment_points, sla_points,
    contact_points.
  rewrite weight_account_numbers.
  split.
  - split.
    + intros E. pose_weight_bounds.
      repeat split;
        try match goal with
        | |- truthy ?v = true =>
            match goal with
            | _ : (0 ≤ weight v ?w ≤ ?w)%Z |- _ =>
                apply (proj1 (weight_cases v w ltac:(lia))); lia
            end
        end.
    + intros E.
      repeat match type of E with
             | _ ∧ _ => let E1 := fresh in destruct E as [E1 E]
             end.
      repeat match goal with
             | Ht : truthy ?v = true |- _ =>
                 match goal with
                 | |- context [weight v ?w] =>
                     rewrite (weight_full v w Ht)
                 end
             end.
      reflexivity.
  - split.
    + intros E. pose_weight_bounds.
      repeat split;
        try match goal with
        | |- truthy ?v = false =>
            match goal with
            | _ : (0 ≤ weight v ?w ≤ ?w)%Z |- _ =>
                apply (proj2 (weight_cases v w ltac:(lia))); lia
            end
        end.
    + intros E.
      repeat match type of E with
             | _ ∧ _ => let E1 := fresh in destruct E as [E1 E]
             end.
      unfold weight.
      repeat match goal with
             | Ht : truthy ?v = false |- _ => rewrite Ht; clear Ht
             end.
      reflexivity.
Qed.

Lemma full_and_no_marks_witness :
  well_formed complete_data = true
  ∧ ∃ (s : gmap string Z) (o : Z),
      calculate_confidence_scores complete_data = Ok s
      ∧ s !! "overall_score" = Some o
      ∧ (o = 100%Z ↔ all_present complete_data)
      ∧ (o = 0%Z ↔ none_present complete_data).
Proof.
  assert (well_formed complete_data = true) as H by vm_eq.
  split; [exact H|]. exact (full_and_no_marks complete_data H).
Defined.

(** ** Patterns that are a list of words *)

Lemma all_chars_complete (c : ascii) : c ∈ all_chars.
Proof.
  unfold all_chars. apply list_elem_of_fmap.
  exists (nat_of_ascii c). split; [symmetry; apply ascii_nat_embedding|].
  apply elem_of_seq. pose proof (nat_ascii_bounded c). lia.
Qed.

Lemma for_all_chars (P : ascii → bool) :
  forallb P all_chars = true → ∀ c, P c = true.
Proof.
  intros H c. rewrite forallb_forall in H. apply H.
  apply list_elem_of_In, all_chars_complete.
Qed.

Lemma upper_lower (c : ascii) : py_upper (py_lower c) = py_upper c.
Proof.
  apply Ascii.eqb_eq.
  apply (for_all_chars
           (fun c => Ascii.eqb (py_upper (py_lower c)) (py_upper c))).
  vm_eq.
Qed.

Lemma lower_lower (c : ascii) : py_lower (py_lower c) = py_lower c.
Proof.
  apply Ascii.eqb_eq.
  apply (for_all_chars
           (fun c => Ascii.eqb (py_lower (py_lower c)) (py_lower c))).
  vm_eq.
Qed.

(** A literal matched without regard to case has the letters of the
    text it matched. *)
Lemma prefix_match_letters (w s : list ascii) :
  prefix_match true w s = true →
  py_lower <$> take (length w) s = py_lower <$> w.
Proof.
  revert s. induction w as [|x w IH]; intros s H; [reflexivity|].
  destruct s as [|c s]; [discriminate H|].
  cbn [prefix_match atom_match] in H. apply andb_true_iff in H.
  destruct H as [Hx Hw]. apply Ascii.eqb_eq in Hx.
  cbn [length take fmap list_fmap]. rewrite Hx. f_equal.
  apply IH. exact Hw.
Qed.

Lemma mt_alt_lits (ic : bool) (ws : list string) (st y : mstate) :
  ws ≠ [] →
  y ∈ mt ic (alt (lit <$> ws)) st →
  ∃ w, w ∈ ws
       ∧ prefix_match ic (chars w) (m_rest st) = true
       ∧ y = adv st (length (chars w)).
Proof.
  induction ws as [|w ws IH]; intros Hne Hy; [congruence|].
  assert (y ∈ mt ic (lit w) st →
          prefix_match ic (chars w) (m_rest st) = true
          ∧ y = adv st (length (chars w))) as Hw.
  { unfold lit. rewrite mt_lits.
    destruct (prefix_match ic (chars w) (m_rest st)).
    - rewrite list_elem_of_singleton. auto.
    - intros Hin. inversion Hin. }
  destruct ws as [|w' ws].
  - cbn [fmap list_fmap alt] in Hy. exists w.
    split; [apply list_elem_of_here | apply Hw; exact Hy].
  - change (alt (lit <$> w :: w' :: ws))
      with (RAlt (lit w) (alt (lit <$> w' :: ws))) in Hy.
    cbn [mt] in Hy. apply elem_of_app in Hy. destruct Hy as [Hy|Hy].
    + exists w. split; [apply list_elem_of_here | apply Hw; exact Hy].
    + destruct (IH ltac:(discriminate) Hy) as (k & Hk & Hp & E).
      exists k. split; [apply list_elem_of_further; exact Hk | auto].
Qed.

Lemma head_elem_of {A : Type} (l : list A) (x : A) :
  head l = Some x → x ∈ l.
Proof.
  destruct l; [discriminate|]. intros [= ->]. apply list_elem_of_here.
Qed.

Lemma head_omap_Some {A B : Type} (f : A → option B) (l : list A) (y : B) :
  head (omap f l) = Some y → ∃ x, x ∈ l ∧ f x = Some y.
Proof.
  induction l as [|a l IH]; [discriminate|].
  rewrite omap_cons_eq. destruct (f a) eqn:E.
  - intros [= ->]. exists a. split; [apply list_elem_of_here | exact E].
  - intros H. destruct (IH H) as (x & Hx & Hf).
    exists x. split; [apply list_elem_of_further; exact Hx | exact Hf].
Qed.

(** What [re.search] finds with a pattern of words: an offset of the
    text at which one of the words stands, case ignored, with a word
    boundary before it; group 1 is that piece of the text. *)
Lemma search_word_pattern (ws : list string) (text : string) (m : rmatch) :
  ws ≠ [] →
  search (word_pattern ws) text = Some m →
  ∃ (j : nat) (w : string),
    w ∈ ws
    ∧ (j ≤ length (chars text))%nat
    ∧ boundary (chars text) j = true
    ∧ prefix_match true (chars w) (drop j (chars text)) = true
    ∧ group_or_empty (chars text) 1 m
      = str (take (length (chars w)) (drop j (chars text))).
Proof.
  intros Hne H. rewrite search_leftmost in H.
  apply head_omap_Some in H. destruct H as (j & Hj & H).
  apply elem_of_seq in Hj.
  unfold match_here, match_at, word_pattern in H.
  cbn [p_ic p_re cat mt] in H.
  destruct (head _) as [st|] eqn:Hh; [|discriminate H].
  cbn [fmap option_fmap option_map] in H. injection H as <-.
  apply head_elem_of in Hh.
  apply list_elem_of_bind in Hh. destruct Hh as (s1 & Hst & Hb).
  destruct (at_boundary
              (MState j (char_before (chars text) j)
                      (drop j (chars text)) [])) eqn:Hbd;
    [|inversion Hb].
  apply list_elem_of_singleton in Hb. subst s1.
  apply list_elem_of_bind in Hst. destruct Hst as (s2 & Hst & Hg).
  apply list_elem_of_fmap in Hg. destruct Hg as (y & -> & Hy).
  destruct (mt_alt_lits true ws _ y Hne Hy) as (w & Hw & Hp & ->).
  destruct (at_boundary _) in Hst; [|inversion Hst].
  apply list_elem_of_singleton in Hst. subst st.
  cbn [m_rest] in Hp.
  exists j, w. split; [exact Hw|].
  split; [destruct Hj as [_ Hj]; apply Nat.lt_succ_r; exact Hj|].
  split.
  { unfold at_boundary in Hbd. cbn [m_prev m_rest] in Hbd.
    rewrite head_drop_lookup in Hbd. exact Hbd. }
  split; [exact Hp|].
  unfold group_or_empty, group, close_group, adv.
  cbn [m_end m_caps m_pos span_of Nat.eqb fmap option_fmap option_map
       default fst snd].
  unfold slice, id.
  replace (j + length (chars w) - j) with (length (chars w)) by lia.
  reflexivity.
Qed.

Lemma str_upper_str (l : list ascii) :
  str_upper (str l) = str (py_upper <$> l).
Proof.
  unfold str_upper. rewrite chars_str. reflexivity.
Qed.

Lemma str_lower_str (l : list ascii) :
  str_lower (str l) = str (py_lower <$> l).
Proof.
  unfold str_lower. rewrite chars_str. reflexivity.
Qed.

Lemma upper_of_lower (l : list ascii) :
  py_upper <$> (py_lower <$> l) = py_upper <$> l.
Proof.
  induction l as [|c l IH]; [reflexivity|]. cbn [fmap list_fmap].
  rewrite upper_lower. f_equal. exact IH.
Qed.

Lemma currency_code (text : string) :
  ∃ c : string, currency_of text = Some (PStr c) ∧ c ∈ currency_codes.
Proof.
  unfold currency_of, _extract_financial_details. cbv zeta. cbn [as_dict].
  destruct (search currency_pattern text) as [m|] eqn:Hs.
  - rewrite lookup_insert_eq. eexists. split; [reflexivity|].
    destruct (search_word_pattern currency_codes text m
                ltac:(discriminate) Hs) as (j & w & Hw & _ & _ & Hp & ->).
    rewrite str_upper_str, <- upper_of_lower.
    rewrite (prefix_match_letters _ _ Hp).
    unfold currency_codes in *.
    rewrite !elem_of_cons, elem_of_nil in Hw.
    destruct Hw as [->|[->|[->|[->|[->|[]]]]]];
      rewrite !elem_of_cons; auto 10.
  - exists "USD". split.
    + destruct (py_max (amounts_of text));
        rewrite ?lookup_insert_ne by discriminate; reflexivity.
    + apply list_elem_of_here.
Qed.

Example currency_any_case :
  currency_of "Fees in eUr, then aud" = Some (PStr "EUR").
Proof. vm_eq. Qed.

(** ** The revenue classification *)

Lemma billing_cycle_lookup (text : string) :
  billing_cycle_of text
  = Some (match search billing_cycle_pattern text with
          | Some m => PStr (str_lower (group_or_empty (chars text) 1 m))
          | None => PNone
          end).
Proof.
  unfold billing_cycle_of, _extract_revenue_classification. cbv zeta.
  cbn [as_dict]. rewrite lookup_insert_ne by discriminate.
  destruct (search billing_cycle_pattern text).
  - apply lookup_insert_eq.
  - destruct (any_in recurring_keywords (str_lower text)),
      (any_in one_time_keywords (str_lower text)); cbn [andb];
      rewrite ?lookup_insert_ne by discriminate; reflexivity.
Qed.

Lemma payment_type_lookup (text : string) :
  payment_type_of text
  = Some (if any_in recurring_keywords (str_lower text)
          then (if any_in one_time_keywords (str_lower text)
                then PStr "both" else PStr "recurring")
          else (if any_in one_time_keywords (str_lower text)
                then PStr "one-time" else PNone)).
Proof.
  unfold payment_type_of, _extract_revenue_classification. cbv zeta.
  cbn [as_dict]. rewrite lookup_insert_ne by discriminate.
  destruct (search billing_cycle_pattern text);
    rewrite ?lookup_insert_ne by discriminate;
    destruct (any_in recurring_keywords (str_lower text)),
      (any_in one_time_keywords (str_lower text)); cbn [andb];
    rewrite ?lookup_insert_eq; reflexivity.
Qed.

(** The values of the revenue section: the payment type is null or one
    of three words, the billing cycle is null or one of five words in
    lower case, and [auto_renewal] is always a boolean, never null. *)
Theorem revenue_values (text : string) :
  (∃ v, payment_type_of text = Some v
        ∧ v ∈ [PNone; PStr "recurring"; PStr "one-time"; PStr "both"])
  ∧ (billing_cycle_of text = Some PNone
     ∨ ∃ w, billing_cycle_of text = Some (PStr w) ∧ w ∈ cycle_words)
  ∧ ∃ b : bool, auto_renewal_of text = Some (PBool b).
Proof.
  split; [|split].
  - rewrite payment_type_lookup. eexists. split; [reflexivity|].
    destruct (any_in recurring_keywords (str_lower text)),
      (any_in one_time_keywords (str_lower text));
      rewrite !elem_of_cons; auto 10.
  - rewrite billing_cycle_lookup.
    destruct (search billing_cycle_pattern text) as [m|] eqn:Hs;
      [|left; reflexivity].
    right. eexists. split; [reflexivity|].
    destruct (search_word_pattern cycle_words text m
                ltac:(discriminate) Hs) as (j & w & Hw & _ & _ & Hp & ->).
    rewrite str_lower_str, (prefix_match_letters _ _ Hp).
    unfold cycle_words in *.
    rewrite !elem_of_cons, elem_of_nil in Hw.
    destruct Hw as [->|[->|[->|[->|[->|[]]]]]];
      rewrite !elem_of_cons; auto 10.
  - unfold auto_renewal_of, _extract_revenue_classification. cbv zeta.
    cbn [as_dict]. rewrite lookup_insert_eq. eexists. reflexivity.
Qed.

Lemma is_prefix_take (p s : list ascii) :
  take (length p) s = p → is_prefix p s = true.
Proof.
  revert s. induction p as [|a p IH]; intros s H; [reflexivity|].
  destruct s as [|b s]; [discriminate H|].
  cbn [length take] in H. injection H as -> H.
  cbn [is_prefix]. rewrite Ascii.eqb_refl. cbn [andb]. auto.
Qed.

Lemma contains_drop (p s : list ascii) (j : nat) :
  is_prefix p (drop j s) = true → contains p s = true.
Proof.
  revert s. induction j as [|j IH]; intros s H.
  - rewrite drop_0 in H. destruct s; cbn [contains]; rewrite H; reflexivity.
  - destruct s as [|c s].
    + rewrite drop_nil in H. cbn [contains]. rewrite H. reflexivity.
    + cbn [drop] in H. cbn [contains]. rewrite (IH _ H). apply orb_true_r.
Qed.

Lemma chars_lower (text : string) :
  chars (str_lower text) = py_lower <$> chars text.
Proof. unfold str_lower. rewrite chars_str. reflexivity. Qed.

(** A word found by a case-insensitive match is a substring of the
    lower-cased text when the word itself is in lower case. *)
Lemma prefix_match_in_lower (w text : string) (j : nat) :
  prefix_match true (chars w) (drop j (chars text)) = true →
  py_lower <$> chars w = chars w →
  str_in w (str_lower text) = true.
Proof.
  intros Hp Hw. unfold str_in. rewrite chars_lower.
  apply (contains_drop _ _ j), is_prefix_take.
  rewrite <- fmap_drop, <- fmap_take, <- Hw at 1.
  rewrite <- Hw at 2.
  rewrite length_fmap.
  apply prefix_match_letters, Hp.
Qed.

(** ** Billing cycle and payment type agree

    A billing cycle of monthly, quarterly or annually is found only in
    a text whose payment type is recurring or both: the cycle word is
    itself one of the recurring keywords. *)
Theorem cycle_implies_recurring (text w : string) :
  billing_cycle_of text = Some (PStr w) →
  w ∈ ["monthly"; "quarterly"; "annually"] →
  payment_type_of text = Some (PStr "recurring")
  ∨ payment_type_of text = Some (PStr "both").
Proof.
  rewrite billing_cycle_lookup, payment_type_lookup. intros H Hw.
  destruct (search billing_cycle_pattern text) as [m|] eqn:Hs;
    [|discriminate H].
  destruct (search_word_pattern cycle_words text m
              ltac:(discriminate) Hs) as (j & w' & Hw' & _ & _ & Hp & Hg).
  rewrite Hg, str_lower_str, (prefix_match_letters _ _ Hp) in H.
  assert (Hlow : py_lower <$> chars w' = chars w').
  { unfold cycle_words in Hw'. rewrite !elem_of_cons, elem_of_nil in Hw'.
    destruct Hw' as [->|[->|[->|[->|[->|[]]]]]]; reflexivity. }
  rewrite Hlow, str_chars in H. injection H as ->.
  assert (Hin : any_in recurring_keywords (str_lower text) = true).
  { unfold any_in. apply existsb_exists. exists w. split.
    - apply list_elem_of_In. unfold recurring_keywords.
      rewrite !elem_of_cons in *. tauto.
    - eapply prefix_match_in_lower; eassumption. }
  rewrite Hin.
  destruct (any_in one_time_keywords (str_lower text)); auto.
Qed.

Lemma cycle_implies_recurring_witness :
  billing_cycle_of "Invoiced Quarterly." = Some (PStr "quarterly")
  ∧ (payment_type_of "Invoiced Quarterly." = Some (PStr "recurring")
     ∨ payment_type_of "Invoiced Quarterly." = Some (PStr "both")).
Proof.
  assert (H : billing_cycle_of "Invoiced Quarterly."
              = Some (PStr "quarterly")) by vm_eq.
  split; [exact H|].
  apply (cycle_implies_recurring _ _ H).
  rewrite !elem_of_cons. auto.
Defined.

(** The two other cycle words are no recurring keywords. *)
Example yearly_cycle_not_recurring :
  billing_cycle_of "Billed yearly." = Some (PStr "yearly")
  ∧ payment_type_of "Billed yearly." = Some PNone.
Proof. split; vm_eq. Qed.

(** ** What the pipeline can and cannot produce *)

Lemma section_extract (t : string) :
  section (extract t) "party_identification" = _extract_party_info t
  ∧ section (extract t) "account_information" = _extract_account_info t
  ∧ section (extract t) "financial_details" = _extract_financial_details t
  ∧ section (extract t) "payment_structure" = _extract_payment_structure t
  ∧ section (extract t) "revenue_classification"
    = _extract_revenue_classification t
  ∧ section (extract t) "service_level_agreements" = _extract_sla_info t.
Proof.
  exact (six_sections_lookup
           (_extract_party_info t) (_extract_account_info t)
           (_extract_financial_details t) (_extract_payment_structure t)
           (_extract_revenue_classification t) (_extract_sla_info t)).
Qed.

Ltac section_of t :=
  destruct (section_extract t) as (Sp & Sa & Sf & Sy & Sr & Sl);
  rewrite ?Sp, ?Sa, ?Sf, ?Sy, ?Sr, ?Sl; clear Sp Sa Sf Sy Sr Sl.

Ltac untouched :=
  cbv zeta; cbn [as_dict];
  repeat case_match; cbn [andb];
  rewrite ?lookup_insert_ne by discriminate;
  lazymatch goal with |- _ = ?r => subst r end; vm_eq.

Lemma unfilled_extract (t sec fld : string) :
  (sec, fld) ∈ unfilled_fields →
  as_dict (section (extract t) sec) !! fld
  = as_dict (section default_data sec) !! fld.
Proof.
  unfold unfilled_fields. rewrite !elem_of_cons, elem_of_nil.
  intros H.
  repeat (destruct H as [H|H]; [injection H as -> ->|]); [..|destruct H];
    match goal with |- _ = ?r => set (rhs := r) end;
    section_of t.
  - unfold _extract_party_info. untouched.
  - unfold _extract_party_info. untouched.
  - unfold _extract_account_info. untouched.
  - unfold _extract_financial_details. untouched.
  - unfold _extract_financial_details. untouched.
  - unfold _extract_payment_structure. untouched.
  - unfold _extract_payment_structure. untouched.
  - unfold _extract_revenue_classification. untouched.
  - unfold _extract_sla_info. untouched.
  - unfold _extract_sla_info. untouched.
Qed.

Lemma unfilled_default (sec fld : string) :
  (sec, fld) ∈ unfilled_fields →
  truthy (field default_data sec fld) = false
  ∧ truthy (field _get_empty_extracted_data sec fld) = false.
Proof.
  unfold unfilled_fields. rewrite !elem_of_cons, elem_of_nil.
  intros H.
  repeat (destruct H as [H|H]; [injection H as -> ->|]); [..|destruct H];
    split; vm_eq.
Qed.

Lemma unfilled_falsy (text_content : pyval) (sec fld : string) :
  (sec, fld) ∈ unfilled_fields →
  truthy (field (parse_contract ContractParser text_content) sec fld) = false.
Proof.
  intros H.
  destruct (parse_contract_cases text_content) as [(t & -> & ->)| ->].
  - unfold field. rewrite (unfilled_extract _ _ _ H).
    apply (unfilled_default _ _ H).
  - apply (unfilled_default _ _ H).
Qed.

(** Ten fields of the data model are never filled: whatever
    [parse_contract] is given, each of them is falsy in the result, and
    on a string it holds the value the extractor started from. *)
Theorem unfilled (text_content : pyval) (sec fld : string) :
  (sec, fld) ∈ unfilled_fields →
  let d := parse_contract ContractParser text_content in
  truthy (field d sec fld) = false
  ∧ ∀ t, text_content = PStr t →
         as_dict (section d sec) !! fld
         = as_dict (section default_data sec) !! fld.
Proof.
  intros H d. subst d. split; [apply unfilled_falsy, H|].
  intros t ->. rewrite (proj2 (parse_contract_str t)).
  apply unfilled_extract, H.
Qed.

Lemma unfilled_witness :
  ("financial_details", "line_items") ∈ unfilled_fields
  ∧ truthy (field (parse_contract ContractParser (PStr sample_contract_text))
                  "financial_details" "line_items") = false.
Proof.
  assert (H : ("financial_details", "line_items") ∈ unfilled_fields).
  { unfold unfilled_fields. rewrite !elem_of_cons. auto 10. }
  split; [exact H|].
  exact (proj1 (unfilled (PStr sample_contract_text) _ _ H)).
Defined.

Lemma weight_zero_or_full (v : pyval) (w : Z) :
  weight v w = 0%Z ∨ weight v w = w.
Proof. unfold weight. destruct (truthy v); auto. Qed.

Lemma field_unfilled (t sec fld : string) (w : Z) :
  (sec, fld) ∈ unfilled_fields → weight (field (extract t) sec fld) w = 0%Z.
Proof.
  intros H. unfold weight, field. rewrite (unfilled_extract _ _ _ H).
  destruct (unfilled_default _ _ H) as [Hd _]. unfold field in Hd.
  rewrite Hd. reflexivity.
Qed.

Lemma code_truthy (c : string) :
  c ∈ currency_codes → truthy (PStr c) = true.
Proof.
  unfold currency_codes. rewrite !elem_of_cons, elem_of_nil.
  intros [->|[->|[->|[->|[->|[]]]]]]; reflexivity.
Qed.

Lemma financial_points_extract (t : string) :
  financial_points (extract t) = 5%Z ∨ financial_points (extract t) = 20%Z.
Proof.
  unfold financial_points.
  rewrite (field_unfilled t "financial_details" "line_items")
    by (unfold unfilled_fields; rewrite !elem_of_cons; auto 10).
  assert (Hc : weight (field (extract t) "financial_details" "currency") 5
               = 5%Z).
  { apply weight_full. unfold field. section_of t.
    destruct (currency_code t) as (c & Hc & Hin).
    unfold currency_of in Hc. rewrite Hc. apply code_truthy, Hin. }
  rewrite Hc.
  destruct (weight_zero_or_full
              (field (extract t) "financial_details" "total_value") 15)
    as [-> | ->]; auto.
Qed.

Lemma party_name_legal (t : string) :
  field (extract t) "party_identification" "name"
  = field (extract t) "party_identification" "legal_entity".
Proof.
  unfold field. section_of t.
  unfold _extract_party_info. cbv zeta. cbn [as_dict].
  destruct (company_of <$> findall_each company_patterns t);
    rewrite !lookup_insert_ne by discriminate.
  - reflexivity.
  - rewrite lookup_insert_eq, lookup_insert_ne by discriminate.
    rewrite lookup_insert_eq. reflexivity.
Qed.

Lemma party_points_extract (t : string) :
  party_points (extract t) ∈ [0; 7; 18; 25]%Z.
Proof.
  unfold party_points. rewrite party_name_legal.
  unfold weight.
  destruct (truthy (field (extract t) "party_identification" "legal_entity")),
    (truthy (field (extract t) "party_identification" "signatories"));
    rewrite !elem_of_cons; auto 10.
Qed.

Lemma payment_points_extract (t : string) :
  payment_points (extract t) ∈ [0; 5; 10; 15]%Z.
Proof.
  unfold payment_points.
  rewrite (field_unfilled t "payment_structure" "due_dates")
    by (unfold unfilled_fields; rewrite !elem_of_cons; auto 10).
  unfold weight.
  destruct (truthy (field (extract t) "payment_structure" "payment_terms")),
    (truthy (field (extract t) "payment_structure" "payment_methods"));
    rewrite !elem_of_cons; auto 10.
Qed.

Lemma sla_points_extract (t : string) :
  sla_points (extract t) ∈ [0; 4; 8; 12]%Z.
Proof.
  unfold sla_points.
  rewrite (field_unfilled t "service_level_agreements" "support_terms")
    by (unfold unfilled_fields; rewrite !elem_of_cons; auto 10).
  unfold weight.
  destruct
    (truthy (field (extract t) "service_level_agreements"
                   "performance_metrics")),
    (truthy (field (extract t) "service_level_agreements" "penalty_clauses"));
    rewrite !elem_of_cons; auto 10.
Qed.

Lemma contact_points_bounds (d : gmap string pyval) :
  (0 ≤ contact_points d ≤ 10)%Z.
Proof.
  unfold contact_points.
  pose proof (weight_bounds
                (default PNone (as_dict (contact_info_of d) !! "email")) 5).
  pose proof (weight_bounds
                (default PNone (as_dict (contact_info_of d) !! "phone")) 3).
  pose proof (weight_bounds (account_numbers_of d) 2).
  lia.
Qed.

(** The scores the pipeline can give.  Since the line items, the due
    dates and the support terms are never filled, the financial score of
    a parsed text is 5 or 20, the party score 0, 7, 18 or 25 (name and
    legal entity come together), the payment score at most 15, the SLA
    score at most 12, and the overall score lies between 5 and 82.  On
    any other input every score is 0. *)
Theorem pipeline_scores (text_content : pyval) :
  ∃ (s : gmap string Z) (f p y l c o : Z),
    calculate_confidence_scores (parse_contract ContractParser text_content)
    = Ok s
    ∧ s !! "financial_completeness" = Some f
    ∧ s !! "party_identification" = Some p
    ∧ s !! "payment_terms_clarity" = Some y
    ∧ s !! "sla_definition" = Some l
    ∧ s !! "contact_information" = Some c
    ∧ s !! "overall_score" = Some o
    ∧ p ∈ [0; 7; 18; 25]%Z
    ∧ y ∈ [0; 5; 10; 15]%Z
    ∧ l ∈ [0; 4; 8; 12]%Z
    ∧ (0 ≤ c ≤ 10)%Z
    ∧ match text_content with
      | PStr _ => (f = 5 ∨ f = 20)%Z ∧ (5 ≤ o ≤ 82)%Z
      | _ => f = 0%Z ∧ o = 0%Z
      end.
Proof.
  assert (E : ∀ t, text_content = PStr t →
    ∃ (s : gmap string Z) (f p y l c o : Z),
    calculate_confidence_scores (parse_contract ContractParser text_content)
    = Ok s
    ∧ s !! "financial_completeness" = Some f
    ∧ s !! "party_identification" = Some p
    ∧ s !! "payment_terms_clarity" = Some y
    ∧ s !! "sla_definition" = Some l
    ∧ s !! "contact_information" = Some c
    ∧ s !! "overall_score" = Some o
    ∧ p ∈ [0; 7; 18; 25]%Z
    ∧ y ∈ [0; 5; 10; 15]%Z
    ∧ l ∈ [0; 4; 8; 12]%Z
    ∧ (0 ≤ c ≤ 10)%Z
    ∧ (f = 5 ∨ f = 20)%Z ∧ (5 ≤ o ≤ 82)%Z).
  { intros t ->. rewrite (proj2 (parse_contract_str t)).
    set (n := normalize t).
    destruct (score_table_lookup (extract n))
      as (Hf & Hp & Hy & Hl & Hc & Ho).
    eexists _, _, _, _, _, _, _.
    split; [apply scorer_table, extract_well_formed|].
    do 6 (split; [eassumption|]).
    pose proof (financial_points_extract n) as F.
    pose proof (party_points_extract n) as P.
    pose proof (payment_points_extract n) as Y.
    pose proof (sla_points_extract n) as L.
    pose proof (contact_points_bounds (extract n)) as C.
    do 4 (split; [assumption|]). split; [exact F|].
    rewrite !elem_of_cons, elem_of_nil in P, Y, L. lia. }
  assert (Z0 : ∀ d, d = _get_empty_extracted_data →
    ∃ (s : gmap string Z) (f p y l c o : Z),
    calculate_confidence_scores d = Ok s
    ∧ s !! "financial_completeness" = Some f
    ∧ s !! "party_identification" = Some p
    ∧ s !! "payment_terms_clarity" = Some y
    ∧ s !! "sla_definition" = Some l
    ∧ s !! "contact_information" = Some c
    ∧ s !! "overall_score" = Some o
    ∧ p ∈ [0; 7; 18; 25]%Z
    ∧ y ∈ [0; 5; 10; 15]%Z
    ∧ l ∈ [0; 4; 8; 12]%Z
    ∧ (0 ≤ c ≤ 10)%Z
    ∧ f = 0%Z ∧ o = 0%Z).
  { intros d ->.
    exists (score_table _get_empty_extracted_data),
      0%Z, 0%Z, 0%Z, 0%Z, 0%Z, 0%Z.
    split; [apply scorer_table; vm_eq|].
    do 6 (split; [vm_eq|]).
    rewrite !elem_of_cons. repeat split; auto; lia. }
  destruct text_content as [| b | z | q | t | l | m];
    try (apply Z0; reflexivity).
  apply (E t). reflexivity.
Qed.

(** The sample contract of the tests scores 73; a text with a payment
    method and a penalty clause besides reaches the ceiling. *)
Example pipeline_scores_sample :
  match calculate_confidence_scores
          (parse_contract ContractParser (PStr sample_contract_text)) with
  | Ok s => s !! "overall_score"
  | Raise _ => None
  end = Some 73%Z.
Proof. vm_eq. Qed.

Example pipeline_scores_ceiling :
  match calculate_confidence_scores
          (parse_contract ContractParser
             (PStr (sample_contract_text
                    +:+ " Payment by check. Penalty: 5% per day."))) with
  | Ok s => s !! "overall_score"
  | Raise _ => None
  end = Some 82%Z.
Proof. vm_eq. Qed.

Lemma field_tax_info (text_content : pyval) :
  truthy (field (parse_contract ContractParser text_content)
                "financial_details" "tax_info") = false.
Proof.
  destruct (parse_contract_cases text_content) as [(t & _ & ->)| ->];
    [|vm_eq].
  unfold field. section_of (normalize t).
  destruct (financial_tax_info (normalize t)) as (fin & -> & Hfin).
  cbn [as_dict]. rewrite Hfin. vm_eq.
Qed.

(** The report of the pipeline is never clean.  Whatever [parse_contract]
    is given, the analyser lists the detailed line items as missing and
    the tax information as incomplete, so the recommendations are never
    empty: they start with the request for documentation. *)
Theorem pipeline_report (text_content : pyval) :
  ∃ (g : gmap string (list string)) (missing recs : list string),
    perform_gap_analysis (parse_contract ContractParser text_content) = Ok g
    ∧ g !! "missing_fields" = Some missing
    ∧ g !! "incomplete_sections" = Some ["Tax information"]
    ∧ g !! "recommendations" = Some recs
    ∧ "Detailed line items" ∈ missing
    ∧ head recs = Some rec_documentation.
Proof.
  set (d := parse_contract ContractParser text_content).
  assert (Hin : "Detailed line items" ∈ missing_of d).
  { unfold missing_of. rewrite !elem_of_unless.
    do 6 left. right. split; [|reflexivity].
    apply (unfilled_falsy text_content).
    unfold unfilled_fields. rewrite !elem_of_cons. auto 10. }
  exists (gap_table d), (missing_of d),
    (rule_a (missing_of d) ++ rule_b (missing_of d) ++ rule_c d).
  split.
  { apply gap_runs. subst d.
    destruct (parse_contract_cases text_content) as [(t & _ & ->)| ->];
      [apply extract_sections_ok|vm_eq]. }
  split; [reflexivity|]. split.
  { unfold gap_table. rewrite lookup_insert_ne by discriminate.
    rewrite lookup_insert_eq. unfold incomplete_of, unless.
    subst d. rewrite field_tax_info. reflexivity. }
  split; [reflexivity|]. split; [exact Hin|].
  unfold rule_a. destruct (missing_of d); [|reflexivity].
  apply elem_of_nil in Hin. destruct Hin.
Qed.

(** ** The values of the financial section *)

Lemma span_digits_decimal (s : list ascii) :
  Forall (fun c => isdecimal c = true) (span_digits s).1.
Proof.
  induction s as [|c s IH]; cbn [span_digits]; [constructor|].
  destruct (isdecimal c) eqn:E; [|constructor].
  destruct (span_digits s) as [ds r]. cbn [fst] in *.
  constructor; assumption.
Qed.

Lemma digit_val_nonneg (c : ascii) : isdecimal c = true → (0 ≤ digit_val c)%Z.
Proof.
  unfold isdecimal, in_range, digit_val. intros H.
  apply andb_true_iff in H. destruct H as [H _].
  apply N.leb_le in H. lia.
Qed.

Lemma digits_val_nonneg (ds : list ascii) :
  Forall (fun c => isdecimal c = true) ds → (0 ≤ digits_val ds)%Z.
Proof.
  unfold digits_val.
  assert (G : ∀ acc, (0 ≤ acc)%Z →
            Forall (fun c => isdecimal c = true) ds →
            (0 ≤ fold_left (fun acc c => 10 * acc + digit_val c)%Z ds acc)%Z).
  { induction ds as [|c ds IH]; intros acc Ha Hd; [exact Ha|].
    inversion Hd as [|? ? Hc Hds]; subst. cbn [fold_left].
    apply IH; [|exact Hds]. pose proof (digit_val_nonneg c Hc). lia. }
  apply G. lia.
Qed.

Lemma py_float_nonneg (s : string) (q : Q) :
  py_float s = Some q → (0 <= q)%Q.
Proof.
  unfold py_float.
  pose proof (span_digits_decimal (chars s)) as Hip.
  destruct (span_digits (chars s)) as [ip r]. cbn [fst] in Hip.
  destruct r as [|c r'].
  - destruct ip as [|a ip']; [discriminate|]. intros H.
    injection H as <-. unfold Qle, inject_Z. cbn [Qnum Qden].
    pose proof (digits_val_nonneg _ Hip). lia.
  - destruct (Ascii.eqb c (ch ".")); [|discriminate].
    pose proof (span_digits_decimal r') as Hfp.
    destruct (span_digits r') as [fp r'']. cbn [fst] in Hfp.
    destruct r''; [|discriminate].
    destruct (ip ++ fp) eqn:E; [discriminate|]. rewrite <- E.
    intros H. injection H as <-. rewrite Qred_correct.
    unfold Qle. cbn [Qnum Qden].
    assert (0 ≤ digits_val (ip ++ fp))%Z.
    { apply digits_val_nonneg, Forall_app. split; assumption. }
    lia.
Qed.

Lemma amounts_nonneg (text : string) (q : Q) :
  q ∈ amounts_of text → (0 <= q)%Q.
Proof.
  unfold amounts_of. rewrite list_elem_of_omap.
  intros (m & _ & H). exact (py_float_nonneg _ _ H).
Qed.

(** The values of the financial section: the total value is null or a
    number that is not negative, the largest of the amounts found, and
    the currency is always one of the five codes in upper case, however
    it is written in the text. *)
Theorem financial_values (text : string) :
  (total_value_of text = Some PNone
   ∨ ∃ q : Q, total_value_of text = Some (PFloat q)
              ∧ (0 <= q)%Q
              ∧ q ∈ amounts_of text
              ∧ ∀ a, a ∈ amounts_of text → (a <= q)%Q)
  ∧ ∃ c : string, currency_of text = Some (PStr c) ∧ c ∈ currency_codes.
Proof.
  split; [|apply currency_code].
  rewrite total_value_lookup.
  pose proof (py_max_spec (amounts_of text)) as M.
  destruct (py_max (amounts_of text)) as [m|]; [|left; reflexivity].
  right. exists m. destruct M as [Hin Hmax].
  split; [reflexivity|]. split; [exact (amounts_nonneg _ _ Hin)|].
  split; assumption.
Qed.

(** An amount of zero is a total value and is still reported missing:
    the analyser tests the number for truth. *)
Example zero_total_is_missing :
  total_value_of "Fee: $0" = Some (PFloat 0)
  ∧ "Total contract value" ∈ missing_of (extract "Fee: $0").
Proof.
  split; [vm_eq|].
  apply total_value_missing. vm_eq.
Qed.

Example currency_any_case_total :
  total_value_of "Fees of $1,200.50 in eUr, then $99" = Some (PFloat (2401 # 2))
  ∧ currency_of "Fees of $1,200.50 in eUr, then $99" = Some (PStr "EUR").
Proof. split; vm_eq. Qed.

(** ** The normaliser, once more *)

Lemma words_word (w r : list ascii) :
  forallb (fun c => negb (isspace c)) w = true →
  starts_word r = false →
  words (w ++ r) = match w with [] => words r | _ => w :: words r end.
Proof.
  intros Hw Hr. induction w as [|c w IH]; [reflexivity|].
  cbn [forallb] in Hw. apply andb_true_iff in Hw. destruct Hw as [Hc Hw].
  apply negb_true_iff in Hc.
  change ((c :: w) ++ r) with (c :: (w ++ r)).
  cbn [words]. rewrite Hc. rewrite (IH Hw).
  destruct w as [|c' w'].
  - cbn [app]. rewrite Hr. reflexivity.
  - cbn [app starts_word]. cbn [forallb] in Hw.
    apply andb_true_iff in Hw. destruct Hw as [Hc' _]. rewrite Hc'.
    reflexivity.
Qed.

Lemma words_space (r : list ascii) : words (" "%char :: r) = words r.
Proof. reflexivity. Qed.

Lemma words_join (ws : list (list ascii)) :
  Forall word_ok ws → words (join_sp ws) = ws.
Proof.
  induction ws as [|w ws IH]; intros H; [reflexivity|].
  inversion H as [|? ? [Hne Hw] Hws]; subst.
  destruct ws as [|w' ws'].
  - cbn [join_sp]. rewrite <- (app_nil_r w) at 1.
    rewrite (words_word w [] Hw eq_refl).
    destruct w; [contradiction|reflexivity].
  - change (join_sp (w :: w' :: ws'))
      with (w ++ " "%char :: join_sp (w' :: ws')).
    rewrite (words_word w (" "%char :: join_sp (w' :: ws')) Hw eq_refl).
    rewrite words_space, (IH Hws).
    destruct w; [contradiction|reflexivity].
Qed.

Lemma normalize_words (text : string) :
  normalize text = str (join_sp (words (chars text))).
Proof. rewrite normalize_squeeze, strip_squeeze. reflexivity. Qed.

Lemma words_normalize (text : string) :
  words (chars (normalize text)) = words (chars text).
Proof.
  rewrite normalize_words, chars_str. apply words_join, words_ok.
Qed.

Lemma filter_words (s : list ascii) :
  concat (words s) = filter (fun c => isspace c = false) s.
Proof.
  induction s as [|c s IH]; [reflexivity|].
  cbn [words]. destruct (isspace c) eqn:E.
  - rewrite filter_cons_False by congruence. exact IH.
  - rewrite filter_cons_True by exact E. rewrite <- IH.
    destruct (starts_word s); [|reflexivity].
    destruct (words s); reflexivity.
Qed.

Lemma length_join_sp (ws : list (list ascii)) :
  length (join_sp ws) = (length (concat ws) + pred (length ws))%nat.
Proof.
  induction ws as [|w ws IH]; [reflexivity|].
  destruct ws as [|w' ws'].
  - cbn [join_sp concat length]. rewrite app_nil_r. lia.
  - change (join_sp (w :: w' :: ws'))
      with (w ++ " "%char :: join_sp (w' :: ws')).
    cbn [concat]. rewrite !length_app. cbn [length].
    rewrite IH. cbn [concat length pred]. rewrite length_app. lia.
Qed.

Lemma words_length (s : list ascii) :
  (length (concat (words s)) + pred (length (words s)) ≤ length s)%nat.
Proof.
  assert (G : (length (concat (words s))
               + (if starts_word s then pred (length (words s))
                  else length (words s)) ≤ length s)%nat).
  { induction s as [|c s IH]; [cbn; lia|].
    cbn [words starts_word]. destruct (isspace c) eqn:E; cbn [negb length].
    - destruct (starts_word s); lia.
    - destruct (starts_word s) eqn:S.
      + destruct (words s) as [|w ws] eqn:W.
        * cbn [concat length app pred] in *. lia.
        * cbn [concat length app pred] in *.
          rewrite ?length_app in *. cbn [length]. lia.
      + cbn [concat length app pred]. lia. }
  destruct (starts_word s); lia.
Qed.

(** The normaliser changes no word.  A normalised text is a fixed point,
    the characters other than whitespace come out as they went in, in
    their order, the text never grows, and parsing the normalised text
    gives what parsing the text gives. *)
Theorem normalize_stable (text : string) :
  normalize (normalize text) = normalize text
  ∧ filter (fun c => isspace c = false) (chars (normalize text))
    = filter (fun c => isspace c = false) (chars text)
  ∧ (length (chars (normalize text)) ≤ length (chars text))%nat
  ∧ parse_contract ContractParser (PStr (normalize text))
    = parse_contract ContractParser (PStr text).
Proof.
  assert (I : normalize (normalize text) = normalize text).
  { rewrite (normalize_words (normalize text)), words_normalize.
    symmetry. apply normalize_words. }
  split; [exact I|]. split; [|split].
  - rewrite <- !filter_words, words_normalize. reflexivity.
  - rewrite normalize_words, chars_str, length_join_sp.
    apply words_length.
  - rewrite (proj2 (parse_contract_str (normalize text))),
      (proj2 (parse_contract_str text)), I. reflexivity.
Qed.

(** ** The lists that go through a set *)

Lemma list_of_set_spec (xs : list string) :
  NoDup (list_of_set xs) ∧ ∀ x, x ∈ list_of_set xs ↔ x ∈ xs.
Proof.
  unfold list_of_set. split; [apply NoDup_elements|].
  intros x. rewrite elem_of_elements, elem_of_list_to_set. reflexivity.
Qed.

Lemma length_list_of_set (xs : list string) :
  (length (list_of_set xs) ≤ length xs)%nat.
Proof.
  destruct (list_of_set_spec xs) as [Hn Hx].
  apply submseteq_length, NoDup_submseteq; [exact Hn|].
  intros x. apply Hx.
Qed.

(** Signatories, account numbers and payment methods are kept without
    duplicates.  The account numbers and the payment methods are exactly
    the captures of their patterns; the signatories are at most five of
    the captures, and all of them when no more than five differ. *)
Theorem deduplicated (text : string) :
  ∃ sigs accts meths : list string,
    signatories_of text = Some (PStrs sigs)
    ∧ account_numbers_in text = Some (PStrs accts)
    ∧ payment_methods_of text = Some (PStrs meths)
    ∧ NoDup sigs ∧ NoDup accts ∧ NoDup meths
    ∧ (length sigs ≤ 5)%nat
    ∧ (∀ x, x ∈ sigs → x ∈ captures signatory_patterns text)
    ∧ ((length sigs < 5)%nat →
       ∀ x, x ∈ captures signatory_patterns text → x ∈ sigs)
    ∧ (∀ x, x ∈ accts ↔ x ∈ captures account_patterns text)
    ∧ (∀ x, x ∈ meths ↔ x ∈ captures payment_methods_patterns text).
Proof.
  exists (take 5 (list_of_set (captures signatory_patterns text))),
    (list_of_set (captures account_patterns text)),
    (list_of_set (captures payment_methods_patterns text)).
  destruct (list_of_set_spec (captures signatory_patterns text)) as [Ns Es].
  destruct (list_of_set_spec (captures account_patterns text)) as [Na Ea].
  destruct (list_of_set_spec (captures payment_methods_patterns text))
    as [Nm Em].
  split; [|split; [|split]].
  - unfold signatories_of, _extract_party_info. cbv zeta. cbn [as_dict].
    apply lookup_insert_eq.
  - unfold account_numbers_in, _extract_account_info. cbv zeta.
    cbn [as_dict]. rewrite lookup_insert_ne by discriminate.
    apply lookup_insert_eq.
  - unfold payment_methods_of, _extract_payment_structure. cbv zeta.
    cbn [as_dict]. apply lookup_insert_eq.
  - split; [|split; [exact Na|split; [exact Nm|]]].
    { eapply sublist_NoDup; [|apply sublist_take]. exact Ns. }
    split; [rewrite length_take; lia|].
    split; [intros x Hx; apply Es; exact (subseteq_take 5 _ x Hx)|].
    split; [|split; assumption].
    intros Hl x Hx. rewrite take_ge; [apply Es, Hx|].
    rewrite length_take in Hl. lia.
Qed.


(** Six signatures by six people: five are kept.  One person signing
    twice is listed once. *)
Example signatories_capped :
  match signatories_of
          "Signed by: A b. Signed by: C d. Signed by: E f. Signed by: G h. Signed by: I j. Signed by: K l."
  with
  | Some (PList l) => length l
  | _ => 0%nat
  end = 5%nat.
Proof. vm_eq. Qed.

Example signatory_twice :
  signatories_of "Signed by: Ann Lee. Authorized by: Ann Lee."
  = Some (PStrs ["Ann Lee"]).
Proof. vm_eq. Qed.

(** ** The parse result and the data model *)

Lemma conforms_model (fields : list (string * ty)) (m : gmap string pyval) :
  (∀ f t v, (f, t) ∈ fields → m !! f = Some v → conforms t v = true) →
  conforms (TModel fields) (PDict m) = true.
Proof.
  cbn [conforms]. induction fields as [|[f t] fs IH]; intros H;
    [reflexivity|].
  apply andb_true_iff. split.
  - destruct (m !! f) as [x|] eqn:E; [|reflexivity].
    apply (H f t x); [apply list_elem_of_here|exact E].
  - apply IH. intros f' t' v Hin. apply H. apply list_elem_of_further, Hin.
Qed.

Lemma conforms_strs (l : list string) : conforms (TList TStr) (PStrs l) = true.
Proof.
  unfold PStrs. cbn [conforms]. induction l; [reflexivity|]. exact IHl.
Qed.

Lemma conforms_opt_strs (l : list string) :
  conforms (TOptional (TList TStr)) (PStrs l) = true.
Proof. exact (conforms_strs l). Qed.

Lemma conforms_dict (t : ty) (m : gmap string pyval) :
  (∀ k v, m !! k = Some v → conforms t v = true) →
  conforms (TDict t) (PDict m) = true.
Proof.
  intros H. cbn [conforms]. apply forallb_forall. intros [k v] Hin.
  apply list_elem_of_In, elem_of_map_to_list in Hin. exact (H k v Hin).
Qed.

Ltac field_cases H :=
  rewrite ?elem_of_cons, elem_of_nil in H;
  repeat (destruct H as [H|H];
          [injection H as -> ->|]); [..|destruct H].

Ltac look E :=
  repeat first [rewrite lookup_insert_eq in E
               |rewrite lookup_insert_ne in E by discriminate].

Lemma party_conforms (t : string) :
  conforms PartyInfo (_extract_party_info t) = true.
Proof.
  unfold _extract_party_info. cbv zeta.
  apply conforms_model. intros f ty v Hin E.
  destruct (company_of <$> findall_each company_patterns t);
    field_cases Hin; look E;
    try (apply Some_inj in E; subst v; try reflexivity;
         apply conforms_opt_strs);
    vm_compute in E; apply Some_inj in E; subst v; reflexivity.
Qed.

Ltac settle E v :=
  first
    [ apply Some_inj in E; subst v;
      first [reflexivity | apply conforms_opt_strs]
    | vm_compute in E; apply Some_inj in E; subst v; reflexivity ].

Lemma contact_conforms (t : string) (ci : gmap string pyval) :
  as_dict (_extract_account_info t) !! "contact_info" = Some (PDict ci) →
  conforms (TOptional (TDict TStr)) (PDict ci) = true.
Proof.
  unfold _extract_account_info. cbv zeta. cbn [as_dict].
  rewrite lookup_insert_eq. intros E. apply Some_inj in E.
  injection E as <-. apply conforms_dict. intros k v Hk.
  destruct (findall email_pattern t), (findall phone_pattern t);
    cbv beta iota in Hk;
    repeat match type of Hk with
    | <[?k' := _]> _ !! _ = _ =>
        let Hne := fresh "Hne" in
        destruct (decide (k' = k)) as [<-|Hne];
        [rewrite lookup_insert_eq in Hk; apply Some_inj in Hk; subst v;
         reflexivity
        |rewrite lookup_insert_ne in Hk by exact Hne]
    end;
    rewrite lookup_empty in Hk; discriminate Hk.
Qed.

Lemma account_conforms (t : string) :
  conforms AccountInfo (_extract_account_info t) = true.
Proof.
  pose proof (contact_conforms t) as C.
  unfold _extract_account_info in *. cbv zeta in *. cbn [as_dict] in C.
  apply conforms_model. intros f ty v Hin E.
  field_cases Hin; look E.
  - vm_compute in E. apply Some_inj in E. subst v. reflexivity.
  - apply Some_inj in E. subst v. apply conforms_opt_strs.
  - apply Some_inj in E. subst v. apply C. apply lookup_insert_eq.
Qed.

Lemma financial_conforms (t : string) :
  conforms FinancialDetails (_extract_financial_details t) = true.
Proof.
  unfold _extract_financial_details. cbv zeta.
  apply conforms_model. intros f ty v Hin E.
  destruct (py_max (amounts_of t)), (search currency_pattern t);
    field_cases Hin; look E; settle E v.
Qed.

Lemma payment_conforms (t : string) :
  conforms PaymentStructure (_extract_payment_structure t) = true.
Proof.
  unfold _extract_payment_structure. cbv zeta.
  apply conforms_model. intros f ty v Hin E.
  destruct (first_search payment_terms_patterns t);
    field_cases Hin; look E; settle E v.
Qed.

Lemma revenue_conforms (t : string) :
  conforms RevenueClassification (_extract_revenue_classification t) = true.
Proof.
  unfold _extract_revenue_classification. cbv zeta.
  apply conforms_model. intros f ty v Hin E.
  destruct (search billing_cycle_pattern t),
    (any_in recurring_keywords (str_lower t)),
    (any_in one_time_keywords (str_lower t)); cbn [andb] in E;
    field_cases Hin; look E; settle E v.
Qed.

Lemma sla_conforms (t : string) :
  conforms ServiceLevelAgreement (_extract_sla_info t) = true.
Proof.
  unfold _extract_sla_info. cbv zeta.
  apply conforms_model. intros f ty v Hin E.
  field_cases Hin; look E; settle E v.
Qed.

Lemma conforms_optional (t : ty) (v : pyval) :
  conforms t v = true → conforms (TOptional t) v = true.
Proof. intros H. cbn [conforms]. destruct v; try exact H. reflexivity. Qed.

(** The parse result fits the data model.  Whatever [parse_contract] is
    given, every section of its result and every field of every section
    holds a value of the type that [models.py] declares for it, or null
    where the type is optional. *)
Theorem parse_contract_typed (text_content : pyval) :
  conforms ExtractedData (PDict (parse_contract ContractParser text_content))
  = true.
Proof.
  destruct (parse_contract_cases text_content) as [(t & _ & ->)| ->];
    [|vm_eq].
  set (n := normalize t). unfold extract, six_sections.
  apply conforms_model. intros f ty v Hin E.
  field_cases Hin; look E; apply Some_inj in E; subst v;
    apply conforms_optional.
  - apply party_conforms.
  - apply account_conforms.
  - apply financial_conforms.
  - apply payment_conforms.
  - apply revenue_conforms.
  - apply sla_conforms.
Qed.

(** The types are checked, not assumed: a number where the model wants a
    string does not fit. *)
Example conforms_rejects :
  conforms ExtractedData
    (PDict (<["financial_details" :=
               PDict (<["currency" := PFloat 1]> ∅)]> ∅)) = false.
Proof. vm_eq. Qed.

(** * The task *)

Lemma matches_union (contract_id : string) (u doc : document) :
  u !! "contract_id" = None →
  Mongo.matches contract_id (u ∪ doc) = Mongo.matches contract_id doc.
Proof.
  intros H. unfold Mongo.matches. rewrite lookup_union_r by exact H.
  reflexivity.
Qed.

Lemma update_one_twice (contract_id : string) (u1 u2 : document)
    (coll : list document) :
  u1 !! "contract_id" = None →
  Mongo.update_one contract_id u2 (Mongo.update_one contract_id u1 coll)
  = Mongo.update_one contract_id (u2 ∪ u1) coll.
Proof.
  intros H. induction coll as [|doc coll IH]; [reflexivity|].
  cbn [Mongo.update_one].
  destruct (Mongo.matches contract_id doc) eqn:E; cbn [Mongo.update_one].
  - rewrite (matches_union _ _ _ H), E. rewrite (assoc_L (∪)). reflexivity.
  - rewrite E, IH. reflexivity.
Qed.

Lemma find_one_update_one (contract_id : string) (u : document)
    (coll : list document) :
  u !! "contract_id" = None →
  Mongo.find_one contract_id (Mongo.update_one contract_id u coll)
  = (fun doc => u ∪ doc) <$> Mongo.find_one contract_id coll.
Proof.
  intros H. induction coll as [|doc coll IH]; [reflexivity|].
  cbn [Mongo.update_one Mongo.find_one].
  destruct (Mongo.matches contract_id doc) eqn:E; cbn [Mongo.find_one].
  - rewrite (matches_union _ _ _ H), E. reflexivity.
  - rewrite E. exact IH.
Qed.

Lemma matches_same (a b : string) (doc : document) :
  Mongo.matches a doc = true → Mongo.matches b doc = true → a = b.
Proof.
  unfold Mongo.matches.
  destruct (doc !! "contract_id") as [[]|]; try discriminate.
  intros Ha Hb. apply String.eqb_eq in Ha, Hb. congruence.
Qed.

Lemma find_other_update_one (contract_id other : string) (u : document)
    (coll : list document) :
  u !! "contract_id" = None → other ≠ contract_id →
  Mongo.find_one other (Mongo.update_one contract_id u coll)
  = Mongo.find_one other coll.
Proof.
  intros H Hne. induction coll as [|doc coll IH]; [reflexivity|].
  cbn [Mongo.update_one Mongo.find_one].
  destruct (Mongo.matches contract_id doc) eqn:E; cbn [Mongo.find_one].
  - rewrite (matches_union _ _ _ H).
    destruct (Mongo.matches other doc) eqn:E'; [|reflexivity].
    destruct Hne. exact (matches_same _ _ _ E' E).
  - rewrite IH. reflexivity.
Qed.

Lemma update_one_missing (contract_id : string) (u : document)
    (coll : list document) :
  Mongo.find_one contract_id coll = None →
  Mongo.update_one contract_id u coll = coll.
Proof.
  induction coll as [|doc coll IH]; [reflexivity|].
  cbn [Mongo.update_one Mongo.find_one].
  destruct (Mongo.matches contract_id doc); [discriminate|].
  intros H. rewrite (IH H). reflexivity.
Qed.

Lemma length_update_one (contract_id : string) (u : document)
    (coll : list document) :
  length (Mongo.update_one contract_id u coll) = length coll.
Proof.
  induction coll as [|doc coll IH]; [reflexivity|].
  cbn [Mongo.update_one].
  destruct (Mongo.matches contract_id doc); cbn [length]; congruence.
Qed.

Lemma update_contract_status_run (utcnow : nat → nat) (contract_id : string)
    (status : ContractStatus) (progress_percentage : Z)
    (error_message : option string)
    (extracted_data : option (gmap string pyval))
    (confidence_scores : option (gmap string Z))
    (gap_analysis : option (gmap string (list string))) (w : world) :
  Tasks.update_contract_status utcnow contract_id status progress_percentage
    error_message extracted_data confidence_scores gap_analysis w
  = (World (Mongo.update_one contract_id
              (update_doc_of status progress_percentage
                 (utcnow (clock_reads w)) error_message extracted_data
                 confidence_scores gap_analysis) (contracts w))
           (files w) (S (clock_reads w)) (task_meta w) (queued w), inr tt).
Proof.
  destruct error_message, extracted_data, confidence_scores, gap_analysis;
    reflexivity.
Qed.

Lemma lookup_set_if (key k : string) (v : option dbval) (doc : document) :
  set_if key v doc !! k
  = if decide (key = k) then written v (doc !! k) else doc !! k.
Proof.
  unfold set_if, written. destruct (decide (key = k)) as [->|Hne].
  - destruct v as [x|]; [|reflexivity].
    destruct (db_truthy x); [apply lookup_insert_eq|reflexivity].
  - destruct v as [x|]; [|reflexivity].
    destruct (db_truthy x); [apply lookup_insert_ne, Hne|reflexivity].
Qed.

Lemma update_doc_other (status : ContractStatus) (p : Z) (now : nat)
    (em : option string) (ed : option (gmap string pyval))
    (cs : option (gmap string Z)) (ga : option (gmap string (list string)))
    (k : string) :
  k ∉ status_keys →
  update_doc_of status p now em ed cs ga !! k = None.
Proof.
  unfold status_keys. rewrite !not_elem_of_cons.
  intros (H1 & H2 & H3 & H4 & H5 & H6 & H7 & _).
  unfold update_doc_of, status_fields. rewrite !lookup_set_if.
  repeat (destruct (decide _) as [E|_]; [congruence|]).
  rewrite !lookup_insert_ne by congruence. apply lookup_empty.
Qed.

Lemma update_doc_id (status : ContractStatus) (p : Z) (now : nat)
    (em : option string) (ed : option (gmap string pyval))
    (cs : option (gmap string Z)) (ga : option (gmap string (list string))) :
  update_doc_of status p now em ed cs ga !! "contract_id" = None.
Proof.
  apply update_doc_other. unfold status_keys.
  rewrite !not_elem_of_cons. repeat split; try discriminate.
  apply not_elem_of_nil.
Qed.

Lemma lookup_union_written (u doc : document) (k : string) :
  (u ∪ doc) !! k = match u !! k with Some x => Some x | None => doc !! k end.
Proof.
  destruct (u !! k) as [x|] eqn:E.
  - apply lookup_union_Some_l, E.
  - apply lookup_union_r, E.
Qed.

Ltac doc_lookup :=
  rewrite lookup_union_written; unfold update_doc_of, status_fields;
  rewrite !lookup_set_if;
  repeat first [rewrite decide_False by discriminate
               |rewrite decide_True by reflexivity];
  repeat first [rewrite lookup_insert_ne by discriminate
               |rewrite lookup_insert_eq];
  rewrite ?lookup_empty.

Lemma written_some (v : option dbval) (old : option dbval) :
  match written v None with
  | Some x => Some x
  | None => old
  end = written v old.
Proof.
  unfold written. destruct v as [x|]; [|reflexivity].
  destruct (db_truthy x); reflexivity.
Qed.

Lemma update_doc_fields (status : ContractStatus) (p : Z) (now : nat)
    (em : option string) (ed : option (gmap string pyval))
    (cs : option (gmap string Z)) (ga : option (gmap string (list string)))
    (doc : document) :
  let doc' := update_doc_of status p now em ed cs ga ∪ doc in
  doc' !! "status" = Some (VStatus status)
  ∧ doc' !! "progress_percentage" = Some (VInt p)
  ∧ doc' !! "updated_at" = Some (VTime now)
  ∧ doc' !! "error_message" = written (VStr <$> em) (doc !! "error_message")
  ∧ doc' !! "extracted_data"
    = written (VData <$> ed) (doc !! "extracted_data")
  ∧ doc' !! "confidence_scores"
    = written (VScores <$> cs) (doc !! "confidence_scores")
  ∧ doc' !! "gap_analysis" = written (VGap <$> ga) (doc !! "gap_analysis")
  ∧ ∀ k, k ∉ status_keys → doc' !! k = doc !! k.
Proof.
  cbv zeta.
  split; [doc_lookup; reflexivity|].
  split; [doc_lookup; reflexivity|].
  split; [doc_lookup; reflexivity|].
  split; [doc_lookup; apply written_some|].
  split; [doc_lookup; apply written_some|].
  split; [doc_lookup; apply written_some|].
  split; [doc_lookup; apply written_some|].
  intros k Hk.
  rewrite lookup_union_written, (update_doc_other _ _ _ _ _ _ _ k Hk).
  reflexivity.
Qed.

Lemma project_content (doc : document) :
  (if bool_decide (Mongo.project ["content"] doc = ∅) then None
   else Mongo.project ["content"] doc !! "content") = doc !! "content".
Proof.
  unfold Mongo.project. cbn [omap list_omap].
  destruct (doc !! "content") as [v|]; cbn [fmap option_fmap option_map].
  - cbn [list_to_map foldr]. rewrite bool_decide_eq_false_2.
    + apply lookup_insert_eq.
    + apply insert_non_empty.
  - cbn [list_to_map foldr]. rewrite bool_decide_eq_true_2; reflexivity.
Qed.

Lemma get_file_content_run (contract_id : string) (w : world) :
  Tasks.get_file_content contract_id w
  = (w, inr (Mongo.find_one contract_id (files w)
             ≫= fun doc => doc !! "content")).
Proof.
  unfold Tasks.get_file_content, reading.
  cbv [mbind task_bind mret task_ret].
  destruct (Mongo.find_one contract_id (files w)) as [doc|];
    cbn [fmap option_fmap option_map option_bind]; [|reflexivity].
  rewrite project_content. reflexivity.
Qed.

Ltac run_step :=
  first [ rewrite update_contract_status_run
        | rewrite get_file_content_run ];
  cbv beta iota; cbn [contracts files clock_reads task_meta queued].

Lemma usable_content_inv (contract_id : string) (w : world) (c : dbval) :
  usable_content contract_id w = Some c →
  (Mongo.find_one contract_id (files w) ≫= fun doc => doc !! "content")
  = Some c ∧ db_truthy c = true.
Proof.
  unfold usable_content.
  destruct (Mongo.find_one contract_id (files w)) as [doc|];
    cbn [mbind option_bind]; [|discriminate].
  destruct (doc !! "content") as [x|]; [|discriminate].
  destruct (db_truthy x) eqn:E; [|discriminate].
  intros H. injection H as <-. auto.
Qed.

Lemma usable_content_none (contract_id : string) (w : world) :
  usable_content contract_id w = None →
  match Mongo.find_one contract_id (files w)
        ≫= fun doc => doc !! "content" with
  | Some c => db_truthy c = false
  | None => True
  end.
Proof.
  unfold usable_content.
  destruct (Mongo.find_one contract_id (files w)) as [doc|];
    cbn [mbind option_bind]; [|auto].
  destruct (doc !! "content") as [x|]; [|auto].
  destruct (db_truthy x); [discriminate|auto].
Qed.

Lemma process_contract_run_ok (utcnow : nat → nat)
    (pdfplumber : dbval → string + list (option string))
    (str_exn : exn → string) (contract_id : string) (w : world)
    (content : dbval) (pages : list (option string)) :
  usable_content contract_id w = Some content →
  pdfplumber content = inr pages →
  Tasks.process_contract utcnow pdfplumber str_exn contract_id w
  = (World (updates contract_id
              (completed_updates utcnow (clock_reads w)
                 (parse_contract ContractParser (PStr (pages_text pages))))
              (contracts w))
           (files w) (5 + clock_reads w) extracting (queued w),
     inr [("status", "completed"); ("contract_id", contract_id)]).
Proof.
  intros Hc Hp. apply usable_content_inv in Hc. destruct Hc as [Hc Ht].
  unfold Tasks.process_contract, try_reraise.
  cbv [mbind task_bind].
  run_step. run_step. rewrite Hc, Ht.
  unfold Tasks.update_state, modify, Tasks.extract_pdf_text.
  cbv beta iota. cbn [contracts files clock_reads task_meta queued].
  rewrite Hp. fold (pages_text pages).
  unfold mret at 1. unfold task_ret at 1. cbv beta iota.
  run_step. run_step.
  set (d := parse_contract ContractParser (PStr (pages_text pages))).
  pose proof (parse_contract_well_formed (PStr (pages_text pages))) as W.
  fold d in W.
  rewrite (scorer_table d W).
  rewrite (gap_runs d) by (unfold well_formed in W;
                           apply andb_true_iff in W; tauto).
  unfold of_res, mret, task_ret. cbv beta iota.
  run_step. run_step. reflexivity.
Qed.

Lemma process_contract_run_no_file (utcnow : nat → nat)
    (pdfplumber : dbval → string + list (option string))
    (str_exn : exn → string) (contract_id : string) (w : world) :
  usable_content contract_id w = None →
  Tasks.process_contract utcnow pdfplumber str_exn contract_id w
  = (World (updates contract_id
              (failed_updates utcnow (clock_reads w)
                 "File content not found") (contracts w))
           (files w) (2 + clock_reads w) (task_meta w) (queued w),
     inl (Message "File content not found")).
Proof.
  intros Hc. apply usable_content_none in Hc.
  unfold Tasks.process_contract, try_reraise.
  cbv [mbind task_bind].
  run_step. run_step.
  destruct (Mongo.find_one contract_id (files w) ≫= _) as [c|].
  - rewrite Hc. unfold raise. cbv beta iota. cbn [Tasks.str_of].
    run_step. reflexivity.
  - unfold raise. cbv beta iota. cbn [Tasks.str_of].
    run_step. reflexivity.
Qed.

Lemma process_contract_run_pdf (utcnow : nat → nat)
    (pdfplumber : dbval → string + list (option string))
    (str_exn : exn → string) (contract_id : string) (w : world)
    (content : dbval) (e : string) :
  usable_content contract_id w = Some content →
  pdfplumber content = inl e →
  Tasks.process_contract utcnow pdfplumber str_exn contract_id w
  = (World (updates contract_id
              (failed_updates utcnow (clock_reads w)
                 ("Failed to extract text from PDF: " +:+ e)) (contracts w))
           (files w) (2 + clock_reads w) extracting (queued w),
     inl (Message ("Failed to extract text from PDF: " +:+ e))).
Proof.
  intros Hc Hp. apply usable_content_inv in Hc. destruct Hc as [Hc Ht].
  unfold Tasks.process_contract, try_reraise.
  cbv [mbind task_bind].
  run_step. run_step. rewrite Hc, Ht.
  unfold Tasks.update_state, modify, Tasks.extract_pdf_text.
  cbv beta iota. cbn [contracts files clock_reads task_meta queued].
  rewrite Hp. unfold raise. cbv beta iota. cbn [Tasks.str_of].
  run_step. reflexivity.
Qed.

(** Every run is one of the three: it completes, it finds no usable
    file, or the PDF reader fails. *)
Lemma process_contract_cases (utcnow : nat → nat)
    (pdfplumber : dbval → string + list (option string))
    (str_exn : exn → string) (contract_id : string) (w : world) :
  let out := Tasks.process_contract utcnow pdfplumber str_exn contract_id w in
  (∃ content pages,
     usable_content contract_id w = Some content
     ∧ pdfplumber content = inr pages
     ∧ out = (World (updates contract_id
                       (completed_updates utcnow (clock_reads w)
                          (parse_contract ContractParser
                             (PStr (pages_text pages))))
                       (contracts w))
                    (files w) (5 + clock_reads w) extracting (queued w),
              inr [("status", "completed"); ("contract_id", contract_id)]))
  ∨ (∃ msg meta,
       (usable_content contract_id w = None
        ∧ msg = "File content not found"
        ∨ ∃ content e,
            usable_content contract_id w = Some content
            ∧ pdfplumber content = inl e
            ∧ msg = "Failed to extract text from PDF: " +:+ e)
       ∧ out = (World (updates contract_id
                         (failed_updates utcnow (clock_reads w) msg)
                         (contracts w))
                      (files w) (2 + clock_reads w) meta (queued w),
                inl (Message msg))).
Proof.
  cbv zeta.
  destruct (usable_content contract_id w) as [c|] eqn:Hc.
  - destruct (pdfplumber c) as [e|pages] eqn:Hp.
    + right. eexists _, _. split.
      * right. exists c, e. split; [reflexivity|]. split; [exact Hp|].
        reflexivity.
      * apply (process_contract_run_pdf _ _ _ _ _ _ _ Hc Hp).
    + left. exists c, pages. split; [reflexivity|]. split; [exact Hp|].
      apply (process_contract_run_ok _ _ _ _ _ _ _ Hc Hp).
  - right. eexists _, _. split.
    + left. split; reflexivity.
    + apply (process_contract_run_no_file _ _ _ _ _ Hc).
Qed.

Lemma find_one_updates (contract_id : string) (us : list document)
    (coll : list document) :
  Forall (fun u => u !! "contract_id" = None) us →
  Mongo.find_one contract_id (updates contract_id us coll)
  = set_all us <$> Mongo.find_one contract_id coll.
Proof.
  unfold updates, set_all. revert coll.
  induction us as [|u us IH]; intros coll H.
  - cbn [fold_left]. destruct (Mongo.find_one contract_id coll); reflexivity.
  - inversion H as [|? ? Hu Hus]; subst. cbn [fold_left].
    rewrite (IH _ Hus), (find_one_update_one _ _ _ Hu).
    destruct (Mongo.find_one contract_id coll); reflexivity.
Qed.

Lemma find_other_updates (contract_id other : string) (us : list document)
    (coll : list document) :
  Forall (fun u => u !! "contract_id" = None) us →
  other ≠ contract_id →
  Mongo.find_one other (updates contract_id us coll)
  = Mongo.find_one other coll.
Proof.
  unfold updates. revert coll.
  induction us as [|u us IH]; intros coll H Hne; [reflexivity|].
  inversion H as [|? ? Hu Hus]; subst. cbn [fold_left].
  rewrite (IH _ Hus Hne). apply find_other_update_one; assumption.
Qed.

Lemma length_updates (contract_id : string) (us : list document)
    (coll : list document) :
  length (updates contract_id us coll) = length coll.
Proof.
  unfold updates. revert coll.
  induction us as [|u us IH]; intros coll; [reflexivity|].
  cbn [fold_left]. rewrite IH. apply length_update_one.
Qed.

Lemma updates_missing (contract_id : string) (us : list document)
    (coll : list document) :
  Mongo.find_one contract_id coll = None →
  updates contract_id us coll = coll.
Proof.
  unfold updates. intros H.
  induction us as [|u us IH]; [reflexivity|].
  cbn [fold_left]. rewrite (update_one_missing _ _ _ H). exact IH.
Qed.

Lemma completed_updates_ok (utcnow : nat → nat) (n : nat)
    (d : gmap string pyval) :
  Forall (fun u => u !! "contract_id" = None) (completed_updates utcnow n d).
Proof. unfold completed_updates. repeat constructor; apply update_doc_id. Qed.

Lemma failed_updates_ok (utcnow : nat → nat) (n : nat) (msg : string) :
  Forall (fun u => u !! "contract_id" = None) (failed_updates utcnow n msg).
Proof. unfold failed_updates. repeat constructor; apply update_doc_id. Qed.

(** A status update writes the status, the time and the progress into
    the first document of the contract, and each optional argument only
    when it is given and truthy: a missing or empty one leaves the stored
    value.  It creates no document, changes no other contract and no
    file; for an unknown contract it changes nothing. *)
Theorem status_update (utcnow : nat → nat) (contract_id : string)
    (status : ContractStatus) (progress_percentage : Z)
    (error_message : option string)
    (extracted_data : option (gmap string pyval))
    (confidence_scores : option (gmap string Z))
    (gap_analysis : option (gmap string (list string))) (w : world) :
  let out :=
    Tasks.update_contract_status utcnow contract_id status
      progress_percentage error_message extracted_data confidence_scores
      gap_analysis w in
  out.2 = inr tt
  ∧ files out.1 = files w
  ∧ length (contracts out.1) = length (contracts w)
  ∧ (contract_of contract_id w = None → contracts out.1 = contracts w)
  ∧ (∀ other, other ≠ contract_id →
       contract_of other out.1 = contract_of other w)
  ∧ ∀ doc, contract_of contract_id w = Some doc →
      ∃ doc', contract_of contract_id out.1 = Some doc'
        ∧ doc' !! "status" = Some (VStatus status)
        ∧ doc' !! "progress_percentage" = Some (VInt progress_percentage)
        ∧ doc' !! "updated_at" = Some (VTime (utcnow (clock_reads w)))
        ∧ doc' !! "error_message"
          = written (VStr <$> error_message) (doc !! "error_message")
        ∧ doc' !! "extracted_data"
          = written (VData <$> extracted_data) (doc !! "extracted_data")
        ∧ doc' !! "confidence_scores"
          = written (VScores <$> confidence_scores)
                    (doc !! "confidence_scores")
        ∧ doc' !! "gap_analysis"
          = written (VGap <$> gap_analysis) (doc !! "gap_analysis")
        ∧ ∀ k, k ∉ status_keys → doc' !! k = doc !! k.
Proof.
  cbv zeta. rewrite update_contract_status_run. cbn [fst snd contracts files].
  unfold contract_of. cbn [contracts].
  split; [reflexivity|]. split; [reflexivity|].
  split; [apply length_update_one|].
  split; [apply update_one_missing|].
  split; [intros other Hne; apply find_other_update_one;
          [apply update_doc_id|exact Hne]|].
  intros doc Hdoc. rewrite find_one_update_one by apply update_doc_id.
  rewrite Hdoc. eexists. split; [reflexivity|].
  apply update_doc_fields.
Qed.

Lemma set_all_keeps (us : list document) (doc : document) (k : string) :
  Forall (fun u => u !! k = None) us → set_all us doc !! k = doc !! k.
Proof.
  unfold set_all. revert doc.
  induction us as [|u us IH]; intros doc H; [reflexivity|].
  inversion H as [|? ? Hu Hus]; subst. cbn [fold_left].
  rewrite (IH _ Hus). apply lookup_union_r, Hu.
Qed.

Lemma set_all_snoc (us : list document) (u doc : document) :
  set_all (us ++ [u]) doc = u ∪ set_all us doc.
Proof. unfold set_all. rewrite fold_left_app. reflexivity. Qed.

Lemma parse_contract_nonempty (text_content : pyval) :
  db_truthy (VData (parse_contract ContractParser text_content)) = true.
Proof.
  cbn [db_truthy]. apply negb_true_iff, bool_decide_eq_false_2.
  destruct (parse_contract_cases text_content) as [(t & _ & ->)| ->];
    apply insert_non_empty.
Qed.

Lemma score_table_nonempty (d : gmap string pyval) :
  db_truthy (VScores (score_table d)) = true.
Proof.
  cbn [db_truthy]. apply negb_true_iff, bool_decide_eq_false_2.
  apply insert_non_empty.
Qed.

Lemma gap_table_nonempty (d : gmap string pyval) :
  db_truthy (VGap (gap_table d)) = true.
Proof.
  cbn [db_truthy]. apply negb_true_iff, bool_decide_eq_false_2.
  apply insert_non_empty.
Qed.

Lemma update_doc_no_message (status : ContractStatus) (p : Z) (now : nat)
    (ed : option (gmap string pyval)) (cs : option (gmap string Z))
    (ga : option (gmap string (list string))) :
  update_doc_of status p now None ed cs ga !! "error_message" = None.
Proof.
  unfold update_doc_of, status_fields. rewrite !lookup_set_if.
  repeat first [rewrite decide_False by discriminate
               |rewrite decide_True by reflexivity].
  cbn [fmap option_fmap option_map written].
  rewrite !lookup_insert_ne by discriminate. apply lookup_empty.
Qed.

Lemma update_doc_no_payload (status : ContractStatus) (p : Z) (now : nat)
    (em : option string) (k : string) :
  k ∈ ["extracted_data"; "confidence_scores"; "gap_analysis"] →
  update_doc_of status p now em None None None !! k = None.
Proof.
  rewrite !elem_of_cons, elem_of_nil. intros [->|[->|[->|[]]]];
    unfold update_doc_of, status_fields; rewrite !lookup_set_if;
    repeat first [rewrite decide_False by discriminate
                 |rewrite decide_True by reflexivity];
    cbn [fmap option_fmap option_map written];
    rewrite !lookup_insert_ne by discriminate; apply lookup_empty.
Qed.

Lemma updates_keep_others (us : list document) (doc : document)
    (k : string) :
  Forall (fun u => ∃ st p now em ed cs ga,
            u = update_doc_of st p now em ed cs ga) us →
  k ∉ status_keys → set_all us doc !! k = doc !! k.
Proof.
  intros H Hk. apply set_all_keeps.
  eapply Forall_impl; [exact H|].
  intros u (st & p & now & em & ed & cs & ga & ->).
  apply update_doc_other, Hk.
Qed.

Lemma completed_fields (utcnow : nat → nat) (n : nat)
    (text_content : pyval) (doc : document) :
  let d := parse_contract ContractParser text_content in
  let doc' := set_all (completed_updates utcnow n d) doc in
  doc' !! "status" = Some (VStatus COMPLETED)
  ∧ doc' !! "progress_percentage" = Some (VInt 100)
  ∧ doc' !! "extracted_data" = Some (VData d)
  ∧ doc' !! "confidence_scores" = Some (VScores (score_table d))
  ∧ doc' !! "gap_analysis" = Some (VGap (gap_table d))
  ∧ doc' !! "error_message" = doc !! "error_message"
  ∧ ∀ k, k ∉ status_keys → doc' !! k = doc !! k.
Proof.
  intros d. cbv zeta.
  change (completed_updates utcnow n d)
    with ([ update_doc_of PROCESSING 10 (utcnow n) None None None None;
            update_doc_of PROCESSING 50 (utcnow (1 + n)%nat)
              None None None None;
            update_doc_of PROCESSING 70 (utcnow (2 + n)%nat)
              None None None None;
            update_doc_of PROCESSING 90 (utcnow (3 + n)%nat)
              None None None None ]
          ++ [update_doc_of COMPLETED 100 (utcnow (4 + n)%nat) None (Some d)
                (Some (score_table d)) (Some (gap_table d))]).
  rewrite set_all_snoc.
  match goal with |- context [set_all ?l doc] => set (us := l) end.
  destruct (update_doc_fields COMPLETED 100 (utcnow (4 + n)%nat) None
              (Some d) (Some (score_table d)) (Some (gap_table d))
              (set_all us doc))
    as (Hs & Hpr & _ & Hem & Hed & Hcs & Hga & Hk).
  split; [exact Hs|]. split; [exact Hpr|].
  split.
  { rewrite Hed. cbn [fmap option_fmap option_map written].
    subst d. rewrite parse_contract_nonempty. reflexivity. }
  split.
  { rewrite Hcs. cbn [fmap option_fmap option_map written].
    rewrite score_table_nonempty. reflexivity. }
  split.
  { rewrite Hga. cbn [fmap option_fmap option_map written].
    rewrite gap_table_nonempty. reflexivity. }
  split.
  { rewrite Hem. cbn [fmap option_fmap option_map written].
    apply set_all_keeps. subst us.
    repeat constructor; apply update_doc_no_message. }
  intros k Hnk. rewrite (Hk k Hnk).
  apply updates_keep_others; [|exact Hnk].
  subst us. repeat constructor; eexists _, _, _, _, _, _, _; reflexivity.
Qed.

(** A run that completes.  When the file of the contract has a content
    and the PDF reader returns its pages, the task returns its result
    and the contract is completed at 100 percent with the parse result
    of the pages' text, its score table and its gap report: the parser
    cannot fail the task, and none of the three is ever left out as
    empty.  The error message of an earlier run stays, as does every
    field that is no status field. *)
Theorem process_contract_completes (utcnow : nat → nat)
    (pdfplumber : dbval → string + list (option string))
    (str_exn : exn → string) (contract_id : string) (w : world)
    (content : dbval) (pages : list (option string)) :
  usable_content contract_id w = Some content →
  pdfplumber content = inr pages →
  let d := parse_contract ContractParser (PStr (pages_text pages)) in
  let out := Tasks.process_contract utcnow pdfplumber str_exn contract_id w in
  out.2 = inr [("status", "completed"); ("contract_id", contract_id)]
  ∧ ∀ doc, contract_of contract_id w = Some doc →
      ∃ doc', contract_of contract_id out.1 = Some doc'
        ∧ doc' !! "status" = Some (VStatus COMPLETED)
        ∧ doc' !! "progress_percentage" = Some (VInt 100)
        ∧ doc' !! "extracted_data" = Some (VData d)
        ∧ doc' !! "confidence_scores" = Some (VScores (score_table d))
        ∧ doc' !! "gap_analysis" = Some (VGap (gap_table d))
        ∧ doc' !! "error_message" = doc !! "error_message"
        ∧ ∀ k, k ∉ status_keys → doc' !! k = doc !! k.
Proof.
  intros Hc Hp d out. subst out.
  rewrite (process_contract_run_ok _ _ _ _ _ _ _ Hc Hp). fold d.
  cbn [fst snd]. split; [reflexivity|].
  intros doc Hdoc. unfold contract_of in *. cbn [contracts].
  rewrite find_one_updates by apply completed_updates_ok.
  rewrite Hdoc. eexists. split; [reflexivity|].
  apply completed_fields.
Qed.

Lemma process_contract_completes_witness :
  usable_content "c-1" sample_world = Some (VBytes (chars "%PDF"))
  ∧ (Tasks.process_contract id sample_reader sample_wording "c-1"
       sample_world).2
    = inr [("status", "completed"); ("contract_id", "c-1")].
Proof.
  assert (H : usable_content "c-1" sample_world
              = Some (VBytes (chars "%PDF"))) by vm_eq.
  split; [exact H|].
  exact (proj1 (process_contract_completes id sample_reader sample_wording
                  "c-1" sample_world _ _ H eq_refl)).
Defined.

Lemma failed_fields (utcnow : nat → nat) (n : nat) (msg : string)
    (doc : document) :
  msg ≠ "" →
  let doc' := set_all (failed_updates utcnow n msg) doc in
  doc' !! "status" = Some (VStatus FAILED)
  ∧ doc' !! "progress_percentage" = Some (VInt 0)
  ∧ doc' !! "error_message" = Some (VStr msg)
  ∧ (∀ k, k ∈ ["extracted_data"; "confidence_scores"; "gap_analysis"] →
       doc' !! k = doc !! k)
  ∧ ∀ k, k ∉ status_keys → doc' !! k = doc !! k.
Proof.
  intros Hmsg. cbv zeta.
  change (failed_updates utcnow n msg)
    with ([update_doc_of PROCESSING 10 (utcnow n) None None None None]
          ++ [update_doc_of FAILED 0 (utcnow (1 + n)%nat) (Some msg)
                None None None]).
  rewrite set_all_snoc.
  match goal with |- context [set_all ?l doc] => set (us := l) end.
  destruct (update_doc_fields FAILED 0 (utcnow (1 + n)%nat) (Some msg)
              None None None (set_all us doc))
    as (Hs & Hpr & _ & Hem & Hed & Hcs & Hga & Hk).
  split; [exact Hs|]. split; [exact Hpr|].
  split.
  { rewrite Hem. cbn [fmap option_fmap option_map written db_truthy].
    destruct (String.eqb msg "") eqn:E; [|reflexivity].
    apply String.eqb_eq in E. contradiction. }
  split.
  { intros k Hin.
    assert (Hus : set_all us doc !! k = doc !! k).
    { apply set_all_keeps. subst us. repeat constructor.
      apply update_doc_no_payload, Hin. }
    rewrite !elem_of_cons, elem_of_nil in Hin.
    destruct Hin as [->|[->|[->|[]]]]; rewrite <- Hus; assumption. }
  intros k Hnk. rewrite (Hk k Hnk).
  apply updates_keep_others; [|exact Hnk].
  subst us. repeat constructor; eexists _, _, _, _, _, _, _; reflexivity.
Qed.

(** A run that fails.  Without a usable file content (no file document,
    no content in it, or an empty content) the task raises "File content
    not found"; when the PDF reader raises, the task raises with the
    reader's message.  Either way the contract is marked failed with
    that message, its progress goes back to 0, and the results of an
    earlier run stay in the document. *)
Theorem process_contract_fails (utcnow : nat → nat)
    (pdfplumber : dbval → string + list (option string))
    (str_exn : exn → string) (contract_id : string) (w : world)
    (msg : string) :
  (usable_content contract_id w = None ∧ msg = "File content not found")
  ∨ (∃ content e,
       usable_content contract_id w = Some content
       ∧ pdfplumber content = inl e
       ∧ msg = "Failed to extract text from PDF: " +:+ e) →
  let out := Tasks.process_contract utcnow pdfplumber str_exn contract_id w in
  out.2 = inl (Message msg)
  ∧ ∀ doc, contract_of contract_id w = Some doc →
      ∃ doc', contract_of contract_id out.1 = Some doc'
        ∧ doc' !! "status" = Some (VStatus FAILED)
        ∧ doc' !! "progress_percentage" = Some (VInt 0)
        ∧ doc' !! "error_message" = Some (VStr msg)
        ∧ (∀ k, k ∈ ["extracted_data"; "confidence_scores"; "gap_analysis"] →
             doc' !! k = doc !! k)
        ∧ ∀ k, k ∉ status_keys → doc' !! k = doc !! k.
Proof.
  intros H out.
  assert (R : ∃ meta,
    out = (World (updates contract_id
                    (failed_updates utcnow (clock_reads w) msg) (contracts w))
                 (files w) (2 + clock_reads w) meta (queued w), inl (Message msg))).
  { subst out. destruct H as [[Hc ->]|(c & e & Hc & Hp & ->)].
    - eexists. apply process_contract_run_no_file, Hc.
    - eexists. apply (process_contract_run_pdf _ _ _ _ _ _ _ Hc Hp). }
  assert (Hmsg : msg ≠ "").
  { destruct H as [[_ ->]|(c & e & _ & _ & ->)]; discriminate. }
  destruct R as [meta ->]. cbn [fst snd]. split; [reflexivity|].
  intros doc Hdoc. unfold contract_of in *. cbn [contracts].
  rewrite find_one_updates by apply failed_updates_ok.
  rewrite Hdoc. eexists. split; [reflexivity|].
  apply failed_fields, Hmsg.
Qed.

(** The file is there, and empty: the task reports it as not found. *)
Lemma process_contract_fails_witness :
  usable_content "c-1" empty_file_world = None
  ∧ (Tasks.process_contract id sample_reader sample_wording "c-1"
       empty_file_world).2
    = inl (Message "File content not found").
Proof.
  assert (H : usable_content "c-1" empty_file_world = None) by vm_eq.
  split; [exact H|].
  exact (proj1 (process_contract_fails id sample_reader sample_wording
                  "c-1" empty_file_world _ (or_introl (conj H eq_refl)))).
Defined.

(** What no run does.  The task changes no file, queues nothing,
    creates and deletes no contract, and changes no contract but its own; when the contract has
    no document, no document changes.  No error of the parser's methods
    ever leaves the task.  And the contract never stays pending or
    processing: it ends completed when the task returns and failed when
    it raises. *)
Theorem process_contract_frame (utcnow : nat → nat)
    (pdfplumber : dbval → string + list (option string))
    (str_exn : exn → string) (contract_id : string) (w : world) :
  let out := Tasks.process_contract utcnow pdfplumber str_exn contract_id w in
  files out.1 = files w
  ∧ queued out.1 = queued w
  ∧ length (contracts out.1) = length (contracts w)
  ∧ (contract_of contract_id w = None → contracts out.1 = contracts w)
  ∧ (∀ other, other ≠ contract_id →
       contract_of other out.1 = contract_of other w)
  ∧ (∀ e, out.2 ≠ inl (Raised e))
  ∧ ∀ doc, contract_of contract_id w = Some doc →
      ∃ doc', contract_of contract_id out.1 = Some doc'
        ∧ ((doc' !! "status" = Some (VStatus COMPLETED)
            ∧ ∃ r, out.2 = inr r)
           ∨ (doc' !! "status" = Some (VStatus FAILED)
              ∧ ∃ msg, out.2 = inl (Message msg))).
Proof.
  intros out.
  assert (R : ∃ us meta n r,
    out = (World (updates contract_id us (contracts w)) (files w) n meta
                 (queued w), r)
    ∧ Forall (fun u => u !! "contract_id" = None) us
    ∧ (∀ e, r ≠ inl (Raised e))
    ∧ ∀ doc, (set_all us doc !! "status" = Some (VStatus COMPLETED)
              ∧ ∃ x, r = inr x)
             ∨ (set_all us doc !! "status" = Some (VStatus FAILED)
                ∧ ∃ msg, r = inl (Message msg))).
  { destruct (process_contract_cases utcnow pdfplumber str_exn contract_id w)
      as [(c & pages & _ & _ & E)|(msg & meta & Hm & E)]; fold out in E.
    - eexists _, _, _, _. split; [exact E|].
      split; [apply completed_updates_ok|]. split; [discriminate|].
      intros doc. left. split; [|eexists; reflexivity].
      apply (completed_fields utcnow (clock_reads w)
               (PStr (pages_text pages)) doc).
    - eexists _, _, _, _. split; [exact E|].
      split; [apply failed_updates_ok|]. split; [discriminate|].
      intros doc. right. split; [|eexists; reflexivity].
      apply failed_fields.
      destruct Hm as [[_ ->]|(c & e & _ & _ & ->)]; discriminate. }
  destruct R as (us & meta & n & r & -> & Hus & Hr & Hst).
  cbn [fst snd files contracts queued]. unfold contract_of. cbn [contracts].
  split; [reflexivity|]. split; [reflexivity|].
  split; [apply length_updates|].
  split; [apply updates_missing|].
  split; [intros other Hne; apply find_other_updates; assumption|].
  split; [exact Hr|].
  intros doc Hdoc. rewrite (find_one_updates _ _ _ Hus), Hdoc.
  eexists. split; [reflexivity|]. apply Hst.
Qed.

(** * The service *)

Lemma list_contracts_run (newest_first : list document → list document)
    (page page_size : Z) (status : option ContractStatus) (w : world) :
  Service.list_contracts newest_first page page_size status w
  = (w, inr {| list_contracts_of :=
                 take (Z.to_nat page_size)
                   (drop (Z.to_nat ((page - 1) * page_size))
                      (newest_first (matching status w)));
               total := Z.of_nat (length (matching status w));
               page_of := page;
               page_size_of := page_size;
               total_pages :=
                 (Z.of_nat (length (matching status w)) + page_size - 1)
                 / page_size |}).
Proof. reflexivity. Qed.

Lemma ceil_div_bounds (n s : Z) :
  (0 ≤ n)%Z → (1 ≤ s)%Z →
  let q := ((n + s - 1) / s)%Z in
  (0 ≤ q)%Z ∧ ((q - 1) * s < n ∨ n = 0 ∧ q = 0)%Z ∧ (n ≤ q * s)%Z.
Proof.
  intros Hn Hs q.
  pose proof (Z.mul_div_le (n + s - 1) s ltac:(lia)) as H1.
  pose proof (Z.mul_succ_div_gt (n + s - 1) s ltac:(lia)) as H2.
  fold q in H1, H2.
  assert (0 ≤ q)%Z by (apply Z.div_pos; lia).
  split; [assumption|]. split; [|nia].
  destruct (Z.eq_dec n 0%Z) as [->|Hne]; [|left; nia].
  right. split; [reflexivity|]. nia.
Qed.

Lemma concat_pages (A : Type) (l : list A) (s k : nat) :
  concat ((fun i => take s (drop (i * s) l)) <$> seq 0 k) = take (k * s) l.
Proof.
  induction k as [|k IH]; [reflexivity|].
  rewrite seq_S, fmap_app, concat_app, IH. cbn [fmap list_fmap concat].
  rewrite app_nil_r. cbn [plus].
  replace (S k * s)%nat with (k * s + s)%nat by lia.
  rewrite Nat.add_0_l. apply take_take_drop.
Qed.

Lemma page_items_slice (newest_first : list document → list document)
    (page_size : Z) (status : option ContractStatus) (w : world) (i : nat) :
  (1 ≤ page_size)%Z →
  page_items newest_first page_size status w (Z.of_nat (S i))
  = take (Z.to_nat page_size)
      (drop (i * Z.to_nat page_size) (newest_first (matching status w))).
Proof.
  intros Hs. unfold page_items. rewrite list_contracts_run.
  cbn [snd list_contracts_of]. do 2 f_equal. nia.
Qed.

(** The pages of [list_contracts].  For a page from 1 and a page size
    from 1, with a database that returns the matching contracts in some
    order: the total is the number of matching contracts, the number of
    pages is the total divided by the page size and rounded up, a page
    holds the page size or what is left, it is empty exactly beyond the
    last page, and the pages together hold every matching contract
    once. *)
Theorem list_contracts_pages (newest_first : list document → list document)
    (page page_size : Z) (status : option ContractStatus) (w : world) :
  (∀ l, newest_first l ≡ₚ l) → (1 ≤ page)%Z → (1 ≤ page_size)%Z →
  ∃ r : ContractList,
    Service.list_contracts newest_first page page_size status w = (w, inr r)
    ∧ total r = Z.of_nat (length (matching status w))
    ∧ page_of r = page ∧ page_size_of r = page_size
    ∧ (0 ≤ total_pages r)%Z
    ∧ (total r ≤ total_pages r * page_size)%Z
    ∧ ((total r = 0 ∧ total_pages r = 0)
       ∨ (total_pages r - 1) * page_size < total r)%Z
    ∧ Z.of_nat (length (list_contracts_of r))
      = Z.min page_size (Z.max 0 (total r - (page - 1) * page_size))
    ∧ (list_contracts_of r ≠ [] ↔ (page ≤ total_pages r)%Z)
    ∧ list_contracts_of r ⊆+ matching status w
    ∧ concat (page_items newest_first page_size status w
                <$> pages_upto (total_pages r))
      ≡ₚ matching status w.
Proof.
  intros Hperm Hp Hs. eexists. split; [apply list_contracts_run|].
  cbn [total page_of page_size_of total_pages list_contracts_of].
  set (m := matching status w).
  set (n := Z.of_nat (length m)).
  assert (Hn : (0 ≤ n)%Z) by (subst n; lia).
  destruct (ceil_div_bounds n page_size Hn Hs) as (Hq0 & Hq1 & Hq2).
  set (q := ((n + page_size - 1) / page_size)%Z) in *.
  assert (Hlen : length (newest_first m) = length m)
    by (apply Permutation_length, Hperm).
  assert (Hl : Z.of_nat (length (take (Z.to_nat page_size)
                 (drop (Z.to_nat ((page - 1) * page_size))
                    (newest_first m))))
               = Z.min page_size (Z.max 0 (n - (page - 1) * page_size))).
  { rewrite length_take, length_drop, Hlen. subst n. nia. }
  split; [reflexivity|]. split; [reflexivity|]. split; [reflexivity|].
  split; [exact Hq0|]. split; [exact Hq2|].
  split; [destruct Hq1 as [H|[H1 H2]]; [right; exact H|left; auto]|].
  split; [exact Hl|].
  split.
  { rewrite <- length_zero_iff_nil.
    destruct Hq1 as [H|[H1 H2]]; nia. }
  split.
  { transitivity (newest_first m).
    - apply sublist_submseteq.
      etransitivity; [apply sublist_take|apply sublist_drop].
    - apply Permutation_submseteq, Hperm. }
  unfold pages_upto. rewrite <- list_fmap_compose.
  rewrite (list_fmap_ext _
             (fun i => take (Z.to_nat page_size)
                         (drop (i * Z.to_nat page_size) (newest_first m)))).
  - rewrite concat_pages, take_ge by (rewrite Hlen; subst n; nia).
    apply Hperm.
  - intros i x _. apply page_items_slice, Hs.
Qed.

Lemma sample_newest_first_perm (l : list document) :
  sample_newest_first l ≡ₚ l.
Proof.
  assert (I : ∀ d k, insert_newest d k ≡ₚ d :: k).
  { intros d k. induction k as [|x k IH]; [reflexivity|].
    cbn [insert_newest]. destruct (_ <? _)%nat; [reflexivity|].
    rewrite IH. apply Permutation_swap. }
  unfold sample_newest_first.
  induction l as [|d l IH]; [reflexivity|].
  cbn [foldr]. rewrite I, IH. reflexivity.
Qed.

Lemma list_contracts_pages_witness :
  (1 ≤ 2)%Z
  ∧ ∃ r : ContractList,
      Service.list_contracts sample_newest_first 2 2 None sample_listing
      = (sample_listing, inr r)
      ∧ total r = Z.of_nat (length (matching None sample_listing)).
Proof.
  split; [lia|].
  destruct (list_contracts_pages sample_newest_first 2 2 None sample_listing
              sample_newest_first_perm ltac:(lia) ltac:(lia))
    as (r & E & Ht & _).
  exists r. split; assumption.
Defined.

(** The second page of three contracts, two to a page, newest first. *)
Example list_contracts_second_page :
  page_items sample_newest_first 2 None sample_listing 2
  = [<["contract_id" := VStr "c-1"]> (<["created_at" := VTime 1]> ∅)].
Proof. vm_eq. Qed.

Lemma find_one_app (contract_id : string) (coll : list document)
    (doc : document) :
  Mongo.find_one contract_id (coll ++ [doc])
  = match Mongo.find_one contract_id coll with
    | Some d => Some d
    | None => if Mongo.matches contract_id doc then Some doc else None
    end.
Proof.
  induction coll as [|x coll IH]; [reflexivity|].
  cbn [app Mongo.find_one].
  destruct (Mongo.matches contract_id x); [reflexivity|exact IH].
Qed.

Lemma matches_insert (contract_id other : string) (doc : document) :
  Mongo.matches other (<["contract_id" := VStr contract_id]> doc)
  = String.eqb contract_id other.
Proof. unfold Mongo.matches. rewrite lookup_insert_eq. reflexivity. Qed.

Lemma upload_contract_run (utcnow : nat → nat)
    (duplicate_key : string → string) (contract_id : string)
    (file : UploadFile) (file_size : Z) (w : world) :
  contract_of contract_id w = None →
  Service.upload_contract utcnow duplicate_key contract_id file file_size w
  = (World (contracts w
              ++ [contract_doc_of utcnow (clock_reads w) contract_id file
                    file_size])
           (files w
              ++ [file_doc_of utcnow (clock_reads w) contract_id file
                    file_size])
           (3 + clock_reads w) (task_meta w) (queued w ++ [contract_id]),
     inr contract_id).
Proof.
  unfold contract_of. intros H.
  unfold Service.upload_contract, Service.now, Service.insert_contract,
    reading, modify.
  cbv [mbind task_bind mret task_ret]. cbn [contracts files clock_reads
                                            task_meta queued].
  rewrite H. reflexivity.
Qed.

(** An upload can be read back.  For an identifier that no contract and
    no file has yet, [upload_contract] stores both documents and queues
    the processing; the status query then shows the contract pending at
    0 percent with no error, the download returns the content and the
    file name that were uploaded, and no other contract has changed. *)
Theorem upload_then_read (utcnow : nat → nat)
    (duplicate_key : string → string) (contract_id : string)
    (file : UploadFile) (file_size : Z) (w : world) :
  contract_of contract_id w = None →
  Mongo.find_one contract_id (files w) = None →
  let out :=
    Service.upload_contract utcnow duplicate_key contract_id file file_size
      w in
  out.2 = inr contract_id
  ∧ queued out.1 = queued w ++ [contract_id]
  ∧ Service.get_contract_status contract_id out.1
    = (out.1, inr (Some pending_status))
  ∧ Service.download_contract contract_id out.1
    = (out.1, inr (Some (VBytes (content file), VStr (filename file))))
  ∧ usable_content contract_id out.1
    = (match content file with
       | [] => None
       | _ => Some (VBytes (content file))
       end)
  ∧ ∀ other, other ≠ contract_id →
      contract_of other out.1 = contract_of other w
      ∧ Mongo.find_one other (files out.1) = Mongo.find_one other (files w).
Proof.
  intros Hc Hf out. subst out. rewrite (upload_contract_run _ _ _ _ _ _ Hc).
  cbn [fst snd queued]. unfold contract_of in *.
  assert (Fc : Mongo.find_one contract_id
                 (contracts w
                    ++ [contract_doc_of utcnow (clock_reads w) contract_id
                          file file_size])
               = Some (contract_doc_of utcnow (clock_reads w) contract_id
                         file file_size)).
  { rewrite find_one_app, Hc. unfold contract_doc_of.
    rewrite matches_insert, String.eqb_refl. reflexivity. }
  assert (Ff : Mongo.find_one contract_id
                 (files w
                    ++ [file_doc_of utcnow (clock_reads w) contract_id file
                          file_size])
               = Some (file_doc_of utcnow (clock_reads w) contract_id file
                         file_size)).
  { rewrite find_one_app, Hf. unfold file_doc_of.
    rewrite matches_insert, String.eqb_refl. reflexivity. }
  split; [reflexivity|]. split; [reflexivity|]. split.
  { unfold Service.get_contract_status, reading. cbn [contracts].
    rewrite Fc. reflexivity. }
  split.
  { unfold Service.download_contract, reading.
    cbv [mbind task_bind]. cbn [files]. rewrite Ff.
    cbn [fmap option_fmap option_map]. reflexivity. }
  split.
  { unfold usable_content. cbn [files]. rewrite Ff.
    unfold file_doc_of. rewrite lookup_insert_ne by discriminate.
    rewrite lookup_insert_ne by discriminate. rewrite lookup_insert_eq.
    cbn [db_truthy]. destruct (content file); reflexivity. }
  intros other Hne. cbn [contracts files]. rewrite !find_one_app.
  unfold contract_doc_of, file_doc_of. rewrite !matches_insert.
  assert (E : String.eqb contract_id other = false)
    by (apply String.eqb_neq; congruence).
  rewrite E.
  split; [destruct (Mongo.find_one other (contracts w))
         |destruct (Mongo.find_one other (files w))]; reflexivity.
Qed.

Lemma upload_then_read_witness :
  contract_of "c-1" empty_world = None
  ∧ (Service.upload_contract id id "c-1" sample_file 4 empty_world).2
    = inr "c-1".
Proof.
  split; [reflexivity|].
  exact (proj1 (upload_then_read id id "c-1" sample_file 4 empty_world
                  eq_refl eq_refl)).
Defined.

Lemma upload_fields_kept (k : string) :
  k ∈ ["filename"; "file_size"] → k ∉ status_keys.
Proof.
  intros Hin. unfold status_keys.
  rewrite !elem_of_cons, elem_of_nil in Hin.
  destruct Hin as [->|[->|[]]]; rewrite !not_elem_of_cons;
    repeat split; try discriminate; apply not_elem_of_nil.
Qed.

(** From upload to result.  When a file with some content is uploaded
    under a fresh identifier and the PDF reader returns its pages, the
    task completes, and the contract then read back is completed at 100
    percent, still without an error message, with the uploaded file name
    and with the parse result of the pages' text, its scores and its gap
    report. *)
Theorem upload_process_read (utcnow : nat → nat)
    (duplicate_key : string → string)
    (pdfplumber : dbval → string + list (option string))
    (str_exn : exn → string) (contract_id : string) (file : UploadFile)
    (file_size : Z) (w : world) (pages : list (option string)) :
  contract_of contract_id w = None →
  Mongo.find_one contract_id (files w) = None →
  content file ≠ [] →
  pdfplumber (VBytes (content file)) = inr pages →
  let uploaded :=
    (Service.upload_contract utcnow duplicate_key contract_id file file_size
       w).1 in
  let out :=
    Tasks.process_contract utcnow pdfplumber str_exn contract_id uploaded in
  let d := parse_contract ContractParser (PStr (pages_text pages)) in
  out.2 = inr [("status", "completed"); ("contract_id", contract_id)]
  ∧ ∃ doc,
      Service.get_contract_data contract_id out.1 = (out.1, inr (Some doc))
      ∧ doc !! "status" = Some (VStatus COMPLETED)
      ∧ doc !! "progress_percentage" = Some (VInt 100)
      ∧ doc !! "error_message" = Some VNull
      ∧ doc !! "filename" = Some (VStr (filename file))
      ∧ doc !! "file_size" = Some (VInt file_size)
      ∧ doc !! "extracted_data" = Some (VData d)
      ∧ doc !! "confidence_scores" = Some (VScores (score_table d))
      ∧ doc !! "gap_analysis" = Some (VGap (gap_table d)).
Proof.
  intros Hc Hf Hne Hp. cbv zeta.
  rewrite (upload_contract_run _ _ _ _ _ _ Hc). cbn [fst].
  set (d := parse_contract ContractParser (PStr (pages_text pages))).
  set (w1 := World _ _ _ _ _).
  set (cdoc := contract_doc_of utcnow (clock_reads w) contract_id file
                 file_size).
  assert (Fc : contract_of contract_id w1 = Some cdoc).
  { unfold contract_of, w1 in *. cbn [contracts].
    rewrite find_one_app, Hc. unfold cdoc, contract_doc_of.
    rewrite matches_insert, String.eqb_refl. reflexivity. }
  assert (Hu : usable_content contract_id w1 = Some (VBytes (content file))).
  { unfold usable_content, w1. cbn [files].
    rewrite find_one_app, Hf. unfold file_doc_of.
    rewrite matches_insert, String.eqb_refl.
    rewrite lookup_insert_ne by discriminate.
    rewrite lookup_insert_ne by discriminate. rewrite lookup_insert_eq.
    cbn [db_truthy]. destruct (content file); [contradiction|reflexivity]. }
  rewrite (process_contract_run_ok _ _ _ _ _ _ _ Hu Hp). fold d.
  cbn [fst snd]. split; [reflexivity|].
  unfold Service.get_contract_data, reading. cbn [contracts].
  unfold contract_of in Fc.
  rewrite find_one_updates by apply completed_updates_ok.
  rewrite Fc. cbn [fmap option_fmap option_map].
  eexists. split; [reflexivity|].
  destruct (completed_fields utcnow (clock_reads w1) (PStr (pages_text pages))
              cdoc) as (Hs & Hpr & Hed & Hcs & Hga & Hem & Hk).
  fold d in Hs, Hpr, Hed, Hcs, Hga, Hem, Hk.
  split; [exact Hs|]. split; [exact Hpr|].
  split.
  { rewrite Hem. unfold cdoc, contract_doc_of.
    do 7 rewrite lookup_insert_ne by discriminate. apply lookup_insert_eq. }
  pose proof upload_fields_kept as Hkeep.
  split.
  { rewrite (Hk "filename") by (apply Hkeep, list_elem_of_here).
    unfold cdoc, contract_doc_of.
    rewrite lookup_insert_ne by discriminate. apply lookup_insert_eq. }
  split.
  { rewrite (Hk "file_size")
      by (apply Hkeep, list_elem_of_further, list_elem_of_here).
    unfold cdoc, contract_doc_of.
    do 2 rewrite lookup_insert_ne by discriminate. apply lookup_insert_eq. }
  split; [exact Hed|]. split; [exact Hcs|exact Hga].
Qed.

Lemma upload_process_read_witness :
  contract_of "c-1" empty_world = None
  ∧ (Tasks.process_contract id sample_reader sample_wording "c-1"
       (Service.upload_contract id id "c-1" sample_file 4 empty_world).1).2
    = inr [("status", "completed"); ("contract_id", "c-1")].
Proof.
  split; [reflexivity|].
  exact (proj1 (upload_process_read id id sample_reader sample_wording
                  "c-1" sample_file 4 empty_world _ eq_refl eq_refl
                  ltac:(discriminate) eq_refl)).
Defined.

(** * The router *)

Lemma no_document_project (keys : list string) (d : option document) :
  d = None → no_document (Mongo.project keys <$> d) = true.
Proof. intros ->. reflexivity. Qed.

(** The status codes of the read endpoints.  The status endpoint never
    answers 404: its [except Exception] catches the 404 it raises for an
    unknown contract and answers 500.  The data endpoint answers 404 for
    an unknown contract and 400 for one that is not completed; the
    download answers 404 when there is no file.  Whatever they raise,
    the codes are among 400, 404 and 500. *)
Theorem endpoint_status_codes (str_exn : exn → string)
    (str_http : Z → string → string) (str_value : dbval → string)
    (StatusModel DataModel : Type)
    (ContractStatusResponse :
       string → dbval → dbval → dbval → failure + StatusModel)
    (ContractResponse : document → failure + DataModel)
    (contract_id : string) (w : world) :
  let status :=
    Router.get_contract_status str_exn str_http StatusModel
      ContractStatusResponse contract_id w in
  let data :=
    Router.get_contract_data str_exn str_value DataModel ContractResponse
      contract_id w in
  let download := Router.download_contract str_exn str_value contract_id w in
  (∀ c d, status = HTTPException c d → c = 500%Z)
  ∧ (contract_of contract_id w = None →
     status = HTTPException 500 (str_http 404%Z "Contract not found")
     ∧ data = HTTPException 404 "Contract not found")
  ∧ (∀ doc st, contract_of contract_id w = Some doc →
       doc !! "status" = Some (VStatus st) → st ≠ COMPLETED →
       data = HTTPException 400
                ("Contract data not available. Status: "
                 +:+ str_value (VStatus st)))
  ∧ (∀ doc, contract_of contract_id w = Some doc →
       doc !! "status" = Some (VStatus COMPLETED) →
       data = match ContractResponse doc with
              | inr r => Returns r
              | inl e => HTTPException 500 (Tasks.str_of str_exn e)
              end)
  ∧ (∀ c d, data = HTTPException c d → c ∈ [400; 404; 500]%Z)
  ∧ (Mongo.find_one contract_id (files w) = None →
     download = HTTPException 404 "Contract not found")
  ∧ (∀ c d, download = HTTPException c d → c ∈ [404; 500]%Z).
Proof.
  cbv zeta. unfold contract_of.
  unfold Router.get_contract_status, Router.get_contract_data,
    Router.download_contract, Service.get_contract_status,
    Service.get_contract_data, Service.download_contract, reading.
  cbv [mbind task_bind mret task_ret raise]. cbn [snd].
  split.
  { intros c d.
    destruct (no_document _); cbn [Router.except_all].
    - intros H. injection H as <- _. reflexivity.
    - destruct (default ∅ _ !! "status") as [s|]; cbn [Router.except_all].
      + destruct (ContractStatusResponse _ _ _ _);
          cbn [Router.of_failure Router.except_all]; [|discriminate].
        intros H. injection H as <- _. reflexivity.
      + intros H. injection H as <- _. reflexivity. }
  split.
  { intros ->. split; reflexivity. }
  split.
  { intros doc st -> Hst Hne.
    assert (Hd : no_document (Some doc) = false).
    { cbn [no_document]. apply bool_decide_eq_false_2.
      intros ->. rewrite lookup_empty in Hst. discriminate Hst. }
    rewrite Hd. change (default ∅ (Some doc)) with doc. rewrite Hst.
    destruct st; try contradiction; reflexivity. }
  split.
  { intros doc -> Hst.
    assert (Hd : no_document (Some doc) = false).
    { cbn [no_document]. apply bool_decide_eq_false_2.
      intros ->. rewrite lookup_empty in Hst. discriminate Hst. }
    rewrite Hd. change (default ∅ (Some doc)) with doc. rewrite Hst. cbn [is_completed].
    destruct (ContractResponse doc); reflexivity. }
  split.
  { intros c d.
    destruct (no_document _); cbn [Router.except_http_first].
    - intros H. injection H as <- _. rewrite !elem_of_cons. auto.
    - destruct (default ∅ _ !! "status") as [s|];
        cbn [Router.except_http_first].
      + destruct (is_completed s); cbn [Router.except_http_first].
        * destruct (ContractResponse _);
            cbn [Router.of_failure Router.except_http_first];
            [|discriminate].
          intros H. injection H as <- _. rewrite !elem_of_cons. auto.
        * intros H. injection H as <- _. rewrite !elem_of_cons. auto.
      + intros H. injection H as <- _. rewrite !elem_of_cons. auto. }
  split.
  { intros ->. reflexivity. }
  intros c d.
  destruct (Mongo.find_one contract_id (files w)) as [fd|];
    cbn [fmap option_fmap option_map];
    [|intros H; injection H as <- _; rewrite !elem_of_cons; auto].
  destruct (bool_decide _); cbn [snd Router.except_http_first];
    [intros H; injection H as <- _; rewrite !elem_of_cons; auto|].
  destruct (Mongo.project ["content"; "filename"] fd !! "content") as [x|],
    (Mongo.project ["content"; "filename"] fd !! "filename") as [y|];
    cbn [snd Router.except_http_first];
    try (intros H; injection H as <- _; rewrite !elem_of_cons; auto).
  destruct x; cbn [Router.except_http_first];
    first [discriminate
          |intros H; injection H as <- _; rewrite !elem_of_cons; auto].
Qed.

(** What the upload endpoint admits.  A file that is not declared as a
    PDF, or one of more than 50 MB, is refused with 400 and nothing is
    stored; a PDF of up to 50 MB, the limit included, is stored under
    the fresh identifier, queued, and answered as pending. *)
Theorem upload_admits (utcnow : nat → nat) (duplicate_key : string → string)
    (str_exn : exn → string) (str_http : Z → string → string)
    (contract_id : string) (file : UploadFile) (w : world) :
  let out :=
    Router.upload_contract utcnow duplicate_key str_exn str_http contract_id
      file w in
  let size := Z.of_nat (length (content file)) in
  (content_type file ≠ "application/pdf" →
   out = (w, HTTPException 400 "Only PDF files are supported"))
  ∧ (content_type file = "application/pdf" →
     (50 * 1024 * 1024 < size)%Z →
     out = (w, HTTPException 400 "File size exceeds 50MB limit"))
  ∧ (content_type file = "application/pdf" →
     (size ≤ 50 * 1024 * 1024)%Z →
     contract_of contract_id w = None →
     out.2 = Returns {| upload_contract_id := contract_id;
                        upload_message :=
                          "Contract uploaded successfully. Processing started.";
                        upload_status := PENDING |}
     ∧ contract_of contract_id out.1
       = Some (contract_doc_of utcnow (clock_reads w) contract_id file size)
     ∧ queued out.1 = queued w ++ [contract_id]).
Proof.
  cbv zeta. unfold Router.upload_contract.
  split; [|split].
  - intros H. apply String.eqb_neq in H. rewrite H. reflexivity.
  - intros H Hs. apply String.eqb_eq in H. rewrite H. cbn [negb].
    apply Z.ltb_lt in Hs. rewrite Hs. reflexivity.
  - intros H Hs Hc. apply String.eqb_eq in H. rewrite H. cbn [negb].
    apply Z.ltb_ge in Hs. rewrite Hs.
    rewrite (upload_contract_run _ _ _ _ _ _ Hc).
    cbn [fst snd Router.of_failure Router.except_all queued].
    split; [reflexivity|]. split; [|reflexivity].
    unfold contract_of in *. cbn [contracts].
    rewrite find_one_app, Hc. unfold contract_doc_of.
    rewrite matches_insert, String.eqb_refl. reflexivity.
Qed.

(** * A document without text *)

Lemma pages_text_textless (pages : list (option string)) :
  textless pages → pages_text pages = "".
Proof.
  unfold textless, pages_text.
  assert (G : ∀ acc,
    Forall (fun page_text => page_text = None ∨ page_text = Some "") pages →
    fold_left
      (fun text_content page_text =>
         match page_text with
         | Some t =>
             if String.eqb t "" then text_content
             else text_content +:+ t +:+ str [newline]
         | None => text_content
         end) pages acc = acc).
  { induction pages as [|p pages IH]; intros acc H; [reflexivity|].
    inversion H as [|? ? Hp Hps]; subst. cbn [fold_left].
    destruct Hp as [->| ->]; cbn [String.eqb]; apply IH, Hps. }
  apply G.
Qed.

(** A PDF without text is not an error.  When the reader returns pages
    and none has text, the task completes: the contract is stored as
    completed with the initial fields of the six sections, an overall
    score of 5 (the default currency) and all eight fields reported
    missing. *)
Theorem textless_pdf_completes (utcnow : nat → nat)
    (pdfplumber : dbval → string + list (option string))
    (str_exn : exn → string) (contract_id : string) (w : world)
    (content : dbval) (pages : list (option string)) (doc : document) :
  usable_content contract_id w = Some content →
  pdfplumber content = inr pages →
  textless pages →
  contract_of contract_id w = Some doc →
  let out := Tasks.process_contract utcnow pdfplumber str_exn contract_id w in
  out.2 = inr [("status", "completed"); ("contract_id", contract_id)]
  ∧ ∃ (doc' : document) (s : gmap string Z) (g : gmap string (list string)),
      contract_of contract_id out.1 = Some doc'
      ∧ doc' !! "status" = Some (VStatus COMPLETED)
      ∧ doc' !! "extracted_data" = Some (VData default_data)
      ∧ doc' !! "confidence_scores" = Some (VScores s)
      ∧ s !! "overall_score" = Some 5%Z
      ∧ doc' !! "gap_analysis" = Some (VGap g)
      ∧ g !! "missing_fields" = Some all_labels
      ∧ g !! "incomplete_sections" = Some ["Tax information"].
Proof.
  intros Hc Hp Ht Hdoc. cbv zeta.
  rewrite (process_contract_run_ok _ _ _ _ _ _ _ Hc Hp).
  rewrite (pages_text_textless _ Ht).
  assert (E : parse_contract ContractParser (PStr "") = default_data)
    by vm_eq.
  cbn [fst snd]. split; [reflexivity|].
  unfold contract_of in *. cbn [contracts].
  rewrite find_one_updates by apply completed_updates_ok.
  rewrite Hdoc. cbn [fmap option_fmap option_map].
  destruct (completed_fields utcnow (clock_reads w) (PStr "") doc)
    as (Hs & _ & Hed & Hcs & Hga & _).
  rewrite E in Hs, Hed, Hcs, Hga.
  rewrite E.
  exists (set_all (completed_updates utcnow (clock_reads w) default_data)
            doc), (score_table default_data), (gap_table default_data).
  split; [reflexivity|]. split; [exact Hs|]. split; [exact Hed|].
  split; [exact Hcs|]. split; [vm_eq|]. split; [exact Hga|].
  split; vm_eq.
Qed.

Lemma textless_pdf_completes_witness :
  usable_content "c-1" sample_world = Some (VBytes (chars "%PDF"))
  ∧ (Tasks.process_contract id (fun _ => inr [None; Some ""]) sample_wording
       "c-1" sample_world).2
    = inr [("status", "completed"); ("contract_id", "c-1")].
Proof.
  assert (H : usable_content "c-1" sample_world
              = Some (VBytes (chars "%PDF"))) by vm_eq.
  assert (T : textless [None; Some ""]).
  { apply Forall_cons. split; [left; reflexivity|].
    apply Forall_cons. split; [right; reflexivity|]. constructor. }
  assert (D : ∃ doc, contract_of "c-1" sample_world = Some doc)
    by (eexists; reflexivity).
  destruct D as [doc D].
  split; [exact H|].
  exact (proj1 (textless_pdf_completes id (fun _ => inr [None; Some ""])
                  sample_wording "c-1" sample_world _ _ doc H eq_refl T D)).
Defined.
